(** * The storage-object codec of [entities/storobj/storage_object.go]

    A shallow embedding of the binary codec of stored objects (version 1 of the
    marshaller), of its partial decoders, of the bulk fetch by doc id and of
    the projection to a search result, followed by the properties proved about
    them.

    Conventions.
    - A Go byte is a [Init.Byte.byte]; a [[]byte] is a [list byte]; integers on
      the wire are little-endian ([le_split] / [le_combine] of coqutil).
    - A fixed-width Go integer is a [Z] with its wrap-around written out
      ([uint16], [uint32], [int64]).
    - A [float32] is its IEEE-754 bit pattern, the [uint32] that
      [math.Float32bits] returns: the codec only moves these bits around.
    - A Go map is an association list in the order in which [range] visits it;
      a statement quantified over all such lists covers every visiting order.
    - Libraries the codec calls (encoding/json, jsonparser, msgpack, uuid) and
      the schema enrichment enter through the class [Externals]. *)

From Stdlib Require Import ZArith String Ascii Bool Lia Permutation List.
From coqutil Require Import Byte Word.LittleEndianList.
Import ListNotations.
Local Open Scope Z_scope.

Set Warnings "-register-all".
Set Warnings "-automation".
Set Warnings "-notation-overridden".

(** ** Integers, slices and maps of the Go runtime *)

Definition bytes := list byte.

Definition len {A : Type} (l : list A) : Z := Z.of_nat (length l).

Definition wrap (width x : Z) : Z := x mod 2 ^ width.
Definition uint16 : Z -> Z := wrap 16.
Definition uint32 : Z -> Z := wrap 32.
Definition uint64 : Z -> Z := wrap 64.

(** [int64(u)] of a [uint64]: the two's complement reading. *)
Definition int64 (x : Z) : Z :=
  let u := uint64 x in if u <? 2 ^ 63 then u else u - 2 ^ 64.

Definition MaxUint16 : Z := 65535.
Definition MaxUint32 : Z := 4294967295.

(** [float32] as the bits of its IEEE-754 representation. *)
Definition float32 := Z.
Definition Float32bits (f : float32) : Z := f.
Definition Float32frombits (b : Z) : float32 := b.

(** A slice that may be [nil]. [None] is the nil slice; for a scratch buffer
    the list holds the backing array up to its capacity. *)
Definition slice (A : Type) := option (list A).

Definition elems {A : Type} (s : slice A) : list A :=
  match s with Some l => l | None => [] end.

(** [m[k]] and [m[k] = v] on a map kept as an association list. *)
Fixpoint map_get {V : Type} (k : string) (m : list (string * V)) : option V :=
  match m with
  | [] => None
  | (k', v) :: r => if String.eqb k k' then Some v else map_get k r
  end.

Fixpoint map_set {V : Type} (k : string) (v : V) (m : list (string * V))
  : list (string * V) :=
  match m with
  | [] => [(k, v)]
  | (k', v') :: r =>
      if String.eqb k k' then (k, v) :: r else (k', v') :: map_set k v r
  end.

Definition keys {V : Type} (m : list (string * V)) : list string := map fst m.

(** ** Errors and results *)

Inductive error : Type :=
| UnsupportedVersion (version : Z)
| Truncated
| IndexOutOfRange
| TypeAssertionFailed
| MalformedUUID
| MalformedJSON
| MalformedMsgpack
| UnknownPropertyType
| FieldTooLarge (field : string) (length maximum : Z)
| NotFound (target : string)
| TargetVectorUnreadable (target : string)
| BucketNotFound
| BucketFailure (code : Z)
| Panic (message : string)
| Wrapped (message : string) (cause : error).

Inductive result (A : Type) : Type :=
| Ok (a : A)
| Err (e : error).

Arguments Ok {A} a.
Arguments Err {A} e.

Notation "x <- e ;; k" :=
  (match e with Ok x => k | Err err => Err err end)
  (at level 61, e at next level, right associativity).
Notation "' p <- e ;; k" :=
  (match e with Ok p => k | Err err => Err err end)
  (at level 61, p pattern, e at next level, right associativity).

Definition wrap_error {A : Type} (message : string) (r : result A) : result A :=
  match r with Ok a => Ok a | Err e => Err (Wrapped message e) end.

(** ** The byte cursor *)

Module byteops.

(** Modelled from the spec: the byte cursor of package [usecases/byteops]
    (section 4.1), which the codec imports and whose source is not among the
    files at hand. A cursor is a buffer and a position; reads and writes
    advance by the size of what they move, [skip] and [seek] only reposition,
    and a read or write outside the buffer is [Truncated]. *)
Record ReadWriter : Type := { Position : Z; Buffer : bytes }.

(** Modelled from the spec: a cursor over a buffer, at its start. *)
Definition NewReadWriter (buf : bytes) : ReadWriter :=
  {| Position := 0; Buffer := buf |}.

(** Modelled from the spec: [seek(abs)], as the option that places a new
    cursor. *)
Definition WithPosition (pos : Z) (rw : ReadWriter) : ReadWriter :=
  {| Position := pos; Buffer := Buffer rw |}.

(** Modelled from the spec: the [n] bytes at the position are inside the
    buffer. *)
Definition in_bounds (rw : ReadWriter) (n : Z) : bool :=
  (0 <=? Position rw) && (0 <=? n) && (Position rw + n <=? len (Buffer rw)).

(** Modelled from the spec: [skip(n)], reposition without reading. *)
Definition MoveBufferPositionForward (rw : ReadWriter) (n : Z) : ReadWriter :=
  {| Position := Position rw + n; Buffer := Buffer rw |}.

(** Modelled from the spec: [seek(abs)], reposition without reading. *)
Definition MoveBufferToAbsolutePosition (rw : ReadWriter) (pos : Z) : ReadWriter :=
  {| Position := pos; Buffer := Buffer rw |}.

(** Modelled from the spec: [read_bytes(n)], return a sub-slice and
    advance. *)
Definition ReadBytesFromBuffer (rw : ReadWriter) (n : Z)
  : result (bytes * ReadWriter) :=
  if in_bounds rw n
  then Ok (firstn (Z.to_nat n) (skipn (Z.to_nat (Position rw)) (Buffer rw)),
           MoveBufferPositionForward rw n)
  else Err Truncated.

(** Modelled from the spec: [read_bytes(n)] into a slice of the caller's. *)
Definition CopyBytesFromBuffer (rw : ReadWriter) (n : Z)
  : result (bytes * ReadWriter) :=
  ReadBytesFromBuffer rw n.

(** Modelled from the spec: the little-endian reads, which advance by the
    natural size. *)
Definition read_le (width : nat) (rw : ReadWriter) : result (Z * ReadWriter) :=
  '(bs, rw') <- ReadBytesFromBuffer rw (Z.of_nat width) ;;
  Ok (le_combine bs, rw').

(** Modelled from the spec: [read_u8]. *)
Definition ReadUint8 : ReadWriter -> result (Z * ReadWriter) := read_le 1.

(** Modelled from the spec: [read_u16_le]. *)
Definition ReadUint16 : ReadWriter -> result (Z * ReadWriter) := read_le 2.

(** Modelled from the spec: [read_u32_le]. *)
Definition ReadUint32 : ReadWriter -> result (Z * ReadWriter) := read_le 4.

(** Modelled from the spec: [read_u64_le]. *)
Definition ReadUint64 : ReadWriter -> result (Z * ReadWriter) := read_le 8.

(** Modelled from the spec: [read_length_prefixed_u32], read a [u32] length
    and then that many bytes. *)
Definition ReadBytesFromBufferWithUint32LengthIndicator (rw : ReadWriter)
  : result (bytes * ReadWriter) :=
  '(n, rw1) <- ReadUint32 rw ;;
  ReadBytesFromBuffer rw1 n.

(** Modelled from the spec: [write_bytes], into the buffer as it is: the
    cursor never grows it. *)
Definition CopyBytesToBuffer (rw : ReadWriter) (bs : bytes) : result ReadWriter :=
  if in_bounds rw (len bs)
  then Ok {| Position := Position rw + len bs;
             Buffer := firstn (Z.to_nat (Position rw)) (Buffer rw) ++ bs ++
                       skipn (Z.to_nat (Position rw + len bs)) (Buffer rw) |}
  else Err Truncated.

(** Modelled from the spec: [write_u8]. *)
Definition WriteByte (rw : ReadWriter) (v : Z) : result ReadWriter :=
  CopyBytesToBuffer rw (le_split 1 v).

(** Modelled from the spec: [write_u16_le]. *)
Definition WriteUint16 (rw : ReadWriter) (v : Z) : result ReadWriter :=
  CopyBytesToBuffer rw (le_split 2 v).

(** Modelled from the spec: [write_u32_le]. *)
Definition WriteUint32 (rw : ReadWriter) (v : Z) : result ReadWriter :=
  CopyBytesToBuffer rw (le_split 4 v).

(** Modelled from the spec: [write_u64_le]. *)
Definition WriteUint64 (rw : ReadWriter) (v : Z) : result ReadWriter :=
  CopyBytesToBuffer rw (le_split 8 v).

End byteops.

Import byteops.

(** [b[lo:hi]] on a plain slice: a range outside the slice panics. The slices
    handed to the codec are taken to fill their backing array. *)
Definition subslice (b : bytes) (lo hi : Z) : result bytes :=
  if (0 <=? lo) && (lo <=? hi) && (hi <=? len b)
  then Ok (firstn (Z.to_nat (hi - lo)) (skipn (Z.to_nat lo) b))
  else Err IndexOutOfRange.

(** ** Values held in [interface{}] *)

(** The payload of a typed struct the codec never looks into. *)
Definition opaque := bytes.

(** Modelled from the spec: a reference value ([models.SingleRef], the beacon
    of section 3), with the fields the codec and the projection touch; its
    declaration is in package [entities/models]. *)
Record SingleRef : Type := {
  Beacon : string;
  Href : string;
  RefClassification : option opaque
}.

Inductive value : Type :=
| VNil
| VBool (b : bool)
| VFloat64 (bits : Z)
| VString (s : string)
| VUUID (id : string)
| VSlice (l : list value)
| VMap (m : option (list (string * value)))
| VMultipleRef (refs : list SingleRef)
| VClassification (c : opaque)
| VGroup (hits : list (list (string * value))) (rest : opaque)
| VGroupHitAdditional (a : opaque).

Definition PropertySchema := value.
Definition propmap := list (string * value).

(** ** The records of the packages around the codec *)

Module models.

(** Modelled from the spec: the part of the materialized entity (section 3)
    that [models.Object] holds; its declaration is in package
    [entities/models]. *)
Record Object : Type := {
  Class : string;
  ID : string;
  CreationTimeUnix : Z;
  LastUpdateTimeUnix : Z;
  Properties : PropertySchema;
  Additional : option propmap;
  VectorWeights : value;
  Vector : slice float32;
  Vectors : option (list (string * list float32))
}.

Definition zero : Object :=
  {| Class := ""; ID := ""; CreationTimeUnix := 0; LastUpdateTimeUnix := 0;
     Properties := VNil; Additional := None; VectorWeights := VNil;
     Vector := None; Vectors := None |}.
End models.

Module additional.

(** Modelled from the spec: the field mask of section 4.4 and the flags of
    section 4.6 ([additional.Properties], declared in package
    [entities/additional]). *)
Record Properties : Type := {
  Vector : bool;
  NoProps : bool;
  Classification : bool;
  Group : bool;
  RefMeta : bool;
  ModuleParams : propmap;
  Vectors : list string
}.
End additional.

Module search.

(** Modelled from the spec: the search-result envelope of section 4.6
    ([search.Result], declared in package [entities/search]), with the fields
    that [SearchResult] fills. *)
Record Result : Type := {
  ID : string;
  DocID : Z;
  ClassName : string;
  Schema : PropertySchema;
  Vector : slice float32;
  Vectors : option (list (string * list float32));
  Dims : Z;
  Created : Z;
  Updated : Z;
  AdditionalProperties : propmap;
  ExplainScore : string;
  IsConsistent : bool;
  Tenant : string
}.
End search.

Record Object : Type := {
  MarshallerVersion : Z;
  Object_ : models.Object;
  Vector : slice float32;
  VectorLen : Z;
  BelongsToNode : string;
  BelongsToShard : string;
  IsConsistent : bool;
  DocID : Z;
  Vectors : option (list (string * list float32))
}.

(** [&Object{}] *)
Definition zeroObject : Object :=
  {| MarshallerVersion := 0; Object_ := models.zero; Vector := None;
     VectorLen := 0; BelongsToNode := ""; BelongsToShard := "";
     IsConsistent := false; DocID := 0; Vectors := None |}.

Definition New (docID : Z) : Object :=
  {| MarshallerVersion := 1; Object_ := models.zero; Vector := None;
     VectorLen := 0; BelongsToNode := ""; BelongsToShard := "";
     IsConsistent := false; DocID := docID; Vectors := None |}.

Record PropertyExtraction : Type := {
  PropStrings : list string;
  PropStringsList : list (list string)
}.

(** The [bucket] interface: the lookup by secondary index with a scratch
    buffer, returning the value (or nil), the buffer to keep, and an error. *)
Record bucket : Type := {
  GetBySecondaryWithBuffer : Z -> bytes -> bytes -> option bytes * bytes * option error
}.

(** ** The libraries and collaborators behind the codec *)

Module jsonparser.

(** The classes of JSON values of github.com/buger/jsonparser. *)
Inductive ValueType : Type :=
| NotExist | String | Number | Object | Array | Boolean | Null | Unknown.

End jsonparser.

Class Externals : Type := {
  (** github.com/google/uuid: [Parse] followed by [MarshalBinary] (16 bytes
      for every UUID), and [String] of the UUID made of 16 bytes. *)
  uuid_Parse : string -> result bytes;
  uuid_String : bytes -> string;
  (** encoding/json *)
  json_Marshal : value -> result bytes;
  json_Unmarshal_map : bytes -> result (option propmap);
  json_Unmarshal_any : bytes -> result value;
  json_Unmarshal_Classification : bytes -> result opaque;
  json_Unmarshal_Group : bytes -> result (list propmap * opaque);
  json_Unmarshal_GroupHitAdditional : bytes -> result opaque;
  (** github.com/vmihailenco/msgpack, on [map[string]uint32] *)
  msgpack_Marshal : list (string * Z) -> result bytes;
  msgpack_Unmarshal : bytes -> result (list (string * Z));
  (** github.com/buger/jsonparser. [EachKey] and [ArrayEach] are given by
      the calls they make of their callback, in order: the index of the path
      (for [EachKey]), the bytes of the value and its class; [ArrayEach] also
      by the error it returns. *)
  jsonparser_EachKey : bytes -> list (list string) -> list (nat * bytes * jsonparser.ValueType);
  jsonparser_ArrayEach : bytes -> list (bytes * jsonparser.ValueType) * option error;
  jsonparser_GetString : bytes -> string -> result string;
  jsonparser_GetUnsafeString : bytes -> string -> result string;
  jsonparser_ParseFloat : bytes -> result Z;
  jsonparser_ParseString : bytes -> result string;
  jsonparser_ParseBoolean : bytes -> result bool;
  (** The schema enrichment of decoded properties. *)
  enrichSchemaTypes : option propmap -> bool -> result (option propmap)
}.

(** [uuid.FromBytes]: the only failure is a slice that is not 16 bytes long. *)
Definition uuid_FromBytes (b : bytes) : result bytes :=
  if (length b =? 16)%nat then Ok b else Err MalformedUUID.

(** ** Field updates *)

Definition setMarshallerVersion (ko : Object) (v : Z) : Object :=
  {| MarshallerVersion := v; Object_ := Object_ ko; Vector := Vector ko;
     VectorLen := VectorLen ko; BelongsToNode := BelongsToNode ko;
     BelongsToShard := BelongsToShard ko; IsConsistent := IsConsistent ko;
     DocID := DocID ko; Vectors := Vectors ko |}.

Definition SetDocID (ko : Object) (id : Z) : Object :=
  {| MarshallerVersion := MarshallerVersion ko; Object_ := Object_ ko;
     Vector := Vector ko; VectorLen := VectorLen ko;
     BelongsToNode := BelongsToNode ko; BelongsToShard := BelongsToShard ko;
     IsConsistent := IsConsistent ko; DocID := id; Vectors := Vectors ko |}.

Definition setVectorLen (ko : Object) (n : Z) : Object :=
  {| MarshallerVersion := MarshallerVersion ko; Object_ := Object_ ko;
     Vector := Vector ko; VectorLen := n;
     BelongsToNode := BelongsToNode ko; BelongsToShard := BelongsToShard ko;
     IsConsistent := IsConsistent ko; DocID := DocID ko; Vectors := Vectors ko |}.

Definition setVector (ko : Object) (v : slice float32) : Object :=
  {| MarshallerVersion := MarshallerVersion ko; Object_ := Object_ ko;
     Vector := v; VectorLen := VectorLen ko;
     BelongsToNode := BelongsToNode ko; BelongsToShard := BelongsToShard ko;
     IsConsistent := IsConsistent ko; DocID := DocID ko; Vectors := Vectors ko |}.

Definition setVectors (ko : Object) (vs : option (list (string * list float32)))
  : Object :=
  {| MarshallerVersion := MarshallerVersion ko; Object_ := Object_ ko;
     Vector := Vector ko; VectorLen := VectorLen ko;
     BelongsToNode := BelongsToNode ko; BelongsToShard := BelongsToShard ko;
     IsConsistent := IsConsistent ko; DocID := DocID ko; Vectors := vs |}.

Definition setObject (ko : Object) (o : models.Object) : Object :=
  {| MarshallerVersion := MarshallerVersion ko; Object_ := o;
     Vector := Vector ko; VectorLen := VectorLen ko;
     BelongsToNode := BelongsToNode ko; BelongsToShard := BelongsToShard ko;
     IsConsistent := IsConsistent ko; DocID := DocID ko; Vectors := Vectors ko |}.

Definition setObjectVector (o : models.Object) (v : slice float32) : models.Object :=
  {| models.Class := models.Class o; models.ID := models.ID o;
     models.CreationTimeUnix := models.CreationTimeUnix o;
     models.LastUpdateTimeUnix := models.LastUpdateTimeUnix o;
     models.Properties := models.Properties o;
     models.Additional := models.Additional o;
     models.VectorWeights := models.VectorWeights o;
     models.Vector := v; models.Vectors := models.Vectors o |}.

Definition setObjectVectors (o : models.Object)
  (vs : option (list (string * list float32))) : models.Object :=
  {| models.Class := models.Class o; models.ID := models.ID o;
     models.CreationTimeUnix := models.CreationTimeUnix o;
     models.LastUpdateTimeUnix := models.LastUpdateTimeUnix o;
     models.Properties := models.Properties o;
     models.Additional := models.Additional o;
     models.VectorWeights := models.VectorWeights o;
     models.Vector := models.Vector o; models.Vectors := vs |}.

Definition setObjectProperties (o : models.Object) (p : PropertySchema)
  : models.Object :=
  {| models.Class := models.Class o; models.ID := models.ID o;
     models.CreationTimeUnix := models.CreationTimeUnix o;
     models.LastUpdateTimeUnix := models.LastUpdateTimeUnix o;
     models.Properties := p;
     models.Additional := models.Additional o;
     models.VectorWeights := models.VectorWeights o;
     models.Vector := models.Vector o; models.Vectors := models.Vectors o |}.

(** The four assignments of the fast path of [FromBinaryOptional]. *)
Definition setIdentity (o : models.Object) (id : string) (create update : Z)
  (className : string) : models.Object :=
  {| models.Class := className; models.ID := id;
     models.CreationTimeUnix := create;
     models.LastUpdateTimeUnix := update;
     models.Properties := models.Properties o;
     models.Additional := models.Additional o;
     models.VectorWeights := models.VectorWeights o;
     models.Vector := models.Vector o; models.Vectors := models.Vectors o |}.

(** ** Accessors of [Object] *)

Definition Class (ko : Object) : string := models.Class (Object_ ko).
Definition ID (ko : Object) : string := models.ID (Object_ ko).
Definition CreationTimeUnix (ko : Object) : Z := models.CreationTimeUnix (Object_ ko).
Definition LastUpdateTimeUnix (ko : Object) : Z := models.LastUpdateTimeUnix (Object_ ko).
Definition AdditionalProperties (ko : Object) : option propmap :=
  models.Additional (Object_ ko).
Definition Properties (ko : Object) : PropertySchema := models.Properties (Object_ ko).
Definition VectorWeights (ko : Object) : value := models.VectorWeights (Object_ ko).
Definition SetProperties (ko : Object) (schema : PropertySchema) : Object :=
  setObject ko (setObjectProperties (Object_ ko) schema).

Definition is_nil (v : value) : bool :=
  match v with VNil => true | _ => false end.

(** [range] over a map, storing every entry into another map. *)
Definition copy_map {V : Type} (m : list (string * V)) : list (string * V) :=
  fold_left (fun acc kv => map_set (fst kv) (snd kv) acc) m [].

(** ** Construction from a request *)

Definition FromObject (object : models.Object) (vector : slice float32)
  (vectors : option (list (string * list float32))) : Object :=
  let object :=
    match models.Properties object with
    | VMap (Some properties) =>
        setObjectProperties object
          (VMap (Some (filter (fun kv => negb (is_nil (snd kv))) properties)))
    | VMap None => setObjectProperties object (VMap None)
    | _ => object
    end in
  let vecs :=
    match vectors with
    | Some vs => Some (copy_map vs)
    | None => None
    end in
  {| MarshallerVersion := 1; Object_ := object; Vector := vector;
     VectorLen := len (elems vector); BelongsToNode := ""; BelongsToShard := "";
     IsConsistent := false; DocID := 0; Vectors := vecs |}.

(** ** Limits of the length prefixes *)

Definition maxVectorLength : Z := MaxUint16.
Definition maxClassNameLength : Z := MaxUint16.
Definition maxSchemaLength : Z := MaxUint32.
Definition maxMetaLength : Z := MaxUint32.
Definition maxVectorWeightsLength : Z := MaxUint32.
Definition maxTargetVectorsSegmentLength : Z := MaxUint32.
Definition maxTargetVectorsOffsetsLength : Z := MaxUint32.

(** ** Loops of the encoder and of the decoders *)

(** [for j < len(vec) { rw.WriteUint32(math.Float32bits(vec[j])) }] *)
Fixpoint writeFloats (vec : list float32) (rw : ReadWriter) : result ReadWriter :=
  match vec with
  | [] => Ok rw
  | f :: r => rw1 <- WriteUint32 rw (Float32bits f) ;; writeFloats r rw1
  end.

(** The pass of [MarshalBinary] over [ko.Vectors] that assigns every name its
    offset in the segment; [segLen] is an [int], which the bound keeps far
    from its own limit. *)
Fixpoint assignOffsets (vectors : list (string * list float32))
  (offsetsMap : list (string * Z)) (segLen : Z) (order : list string)
  : result (list (string * Z) * Z * list string) :=
  match vectors with
  | [] => Ok (offsetsMap, segLen, order)
  | (name, vec) :: rest =>
      if len vec >? maxVectorLength
      then Err (FieldTooLarge "vector" (len vec) maxVectorLength)
      else
        let offsetsMap := map_set name (uint32 segLen) offsetsMap in
        let segLen := segLen + (2 + 4 * len vec) in
        if segLen >? maxTargetVectorsSegmentLength
        then Err (FieldTooLarge "targetVectorsSegmentLength" segLen
                    maxTargetVectorsSegmentLength)
        else assignOffsets rest offsetsMap segLen (order ++ [name])
  end.

(** The last loop of [MarshalBinary]: one record per name, in the order in
    which the offsets were assigned. *)
Fixpoint writeTargetVectors (order : list string)
  (vectors : list (string * list float32)) (rw : ReadWriter) : result ReadWriter :=
  match order with
  | [] => Ok rw
  | name :: r =>
      let vec := match map_get name vectors with Some v => v | None => [] end in
      let vecLen := len vec in
      rw1 <- WriteUint16 rw (uint16 vecLen) ;;
      rw2 <- writeFloats vec rw1 ;;
      writeTargetVectors r vectors rw2
  end.

(** [for j < n { vec[j] = math.Float32frombits(rw.ReadUint32()) }] *)
Fixpoint readFloats (n : nat) (rw : ReadWriter) : result (list float32 * ReadWriter) :=
  match n with
  | O => Ok ([], rw)
  | S k =>
      '(b, rw1) <- ReadUint32 rw ;;
      '(r, rw2) <- readFloats k rw1 ;;
      Ok (Float32frombits b :: r, rw2)
  end.

(** [binary.LittleEndian.Uint32(vectorBytes[i*4:(i+1)*4])] for [i < n]. *)
Fixpoint decodeFloats (n : nat) (vectorBytes : bytes) : list float32 :=
  match n with
  | O => []
  | S k =>
      Float32frombits (le_combine (firstn 4 vectorBytes))
        :: decodeFloats k (skipn 4 vectorBytes)
  end.

Section Codec.

Context {E : Externals}.

(** ** Encoding *)

Notation "x <-! e ;; k" :=
  (match e with Ok x => k | Err err => (None, Some err) end)
  (at level 61, e at next level, right associativity, only parsing).
Notation "' p <-! e ;; k" :=
  (match e with Ok p => k | Err err => (None, Some err) end)
  (at level 61, p pattern, e at next level, right associativity, only parsing).

(** The block of [MarshalBinary] guarded by [len(ko.Vectors) > 0]: the
    packed offsets, their length, the length of the segment and the order
    in which the names were visited. *)
Definition marshalOffsets (vectors : option (list (string * list float32)))
  : result (bytes * Z * Z * list string) :=
  match vectors with
  | Some ((_ :: _) as vectors) =>
      '(offsetsMap, segLen, order) <- assignOffsets vectors [] 0 [] ;;
      offsets <- wrap_error "could not marshal target vectors offsets"
                   (msgpack_Marshal offsetsMap) ;;
      if len offsets >? maxTargetVectorsOffsetsLength
      then Err (FieldTooLarge "targetVectorsOffsets" (len offsets)
                  maxTargetVectorsOffsetsLength)
      else Ok (offsets, uint32 (len offsets), segLen, order)
  | _ => Ok ([], 0, 0, [])
  end.

(** [MarshalBinary] returns the pair of Go: the buffer (or nil) and the
    error (or nil). A failed write of the cursor ends the call with no
    buffer, except where the source hands the buffer back with the error. *)
Definition MarshalBinary (ko : Object) : option bytes * option error :=
  if negb (MarshallerVersion ko =? 1)
  then (None, Some (UnsupportedVersion (MarshallerVersion ko)))
  else
  let kindByte := 1 in
  idBytes <-! uuid_Parse (ID ko) ;;
  if len (elems (Vector ko)) >? maxVectorLength
  then (None, Some (FieldTooLarge "vector" (len (elems (Vector ko))) maxVectorLength))
  else
  let vectorLength := uint32 (len (elems (Vector ko))) in
  let className := list_byte_of_string (Class ko) in
  if len className >? maxClassNameLength
  then (None, Some (FieldTooLarge "className" (len className) maxClassNameLength))
  else
  let classNameLength := uint32 (len className) in
  schema <-! json_Marshal (Properties ko) ;;
  if len schema >? maxSchemaLength
  then (None, Some (FieldTooLarge "schema" (len schema) maxSchemaLength))
  else
  let schemaLength := uint32 (len schema) in
  meta <-! json_Marshal (VMap (AdditionalProperties ko)) ;;
  if len meta >? maxMetaLength
  then (None, Some (FieldTooLarge "meta" (len meta) maxMetaLength))
  else
  let metaLength := uint32 (len meta) in
  vectorWeights <-! json_Marshal (VectorWeights ko) ;;
  if len vectorWeights >? maxVectorWeightsLength
  then (None, Some (FieldTooLarge "vectorWeights" (len vectorWeights)
                      maxVectorWeightsLength))
  else
  let vectorWeightsLength := uint32 (len vectorWeights) in
  '(targetVectorsOffsets, targetVectorsOffsetsLength,
    targetVectorsSegmentLength, targetVectorsOffsetOrder) <-!
    marshalOffsets (Vectors ko) ;;
  let totalBufferLength :=
    uint32 (1 + 8 + 1 + 16 + 8 + 8 +
            2 + vectorLength * 4 +
            2 + classNameLength +
            4 + schemaLength +
            4 + metaLength +
            4 + vectorWeightsLength +
            4 + targetVectorsOffsetsLength +
            4 + uint32 targetVectorsSegmentLength) in
  let byteBuffer := repeat Byte.x00 (Z.to_nat totalBufferLength) in
  let rw := NewReadWriter byteBuffer in
  rw <-! WriteByte rw (MarshallerVersion ko) ;;
  rw <-! WriteUint64 rw (DocID ko) ;;
  rw <-! WriteByte rw kindByte ;;
  rw <-! CopyBytesToBuffer rw idBytes ;;
  rw <-! WriteUint64 rw (uint64 (CreationTimeUnix ko)) ;;
  rw <-! WriteUint64 rw (uint64 (LastUpdateTimeUnix ko)) ;;
  rw <-! WriteUint16 rw (uint16 vectorLength) ;;
  rw <-! writeFloats (elems (Vector ko)) rw ;;
  rw <-! WriteUint16 rw (uint16 classNameLength) ;;
  match CopyBytesToBuffer rw className with
  | Err e => (Some (Buffer rw), Some (Wrapped "Could not copy className" e))
  | Ok rw =>
  rw <-! WriteUint32 rw schemaLength ;;
  match CopyBytesToBuffer rw schema with
  | Err e => (Some (Buffer rw), Some (Wrapped "Could not copy schema" e))
  | Ok rw =>
  rw <-! WriteUint32 rw metaLength ;;
  match CopyBytesToBuffer rw meta with
  | Err e => (Some (Buffer rw), Some (Wrapped "Could not copy meta" e))
  | Ok rw =>
  rw <-! WriteUint32 rw vectorWeightsLength ;;
  match CopyBytesToBuffer rw vectorWeights with
  | Err e => (Some (Buffer rw), Some (Wrapped "Could not copy vectorWeights" e))
  | Ok rw =>
  rw <-! WriteUint32 rw targetVectorsOffsetsLength ;;
  match (if targetVectorsOffsetsLength >? 0
         then CopyBytesToBuffer rw targetVectorsOffsets
         else Ok rw) with
  | Err e => (Some (Buffer rw), Some (Wrapped "Could not copy targetVectorsOffsets" e))
  | Ok rw =>
  rw <-! WriteUint32 rw (uint32 targetVectorsSegmentLength) ;;
  rw <-! writeTargetVectors targetVectorsOffsetOrder (elems (Vectors ko)) rw ;;
  (Some (Buffer rw), None)
  end end end end end.

(** ** Decoding of the named vectors *)

(** The loop of [unmarshalTargetVectors] over the decoded offsets. *)
Fixpoint readTargetVectors (tvOffsets : list (string * Z)) (pos : Z)
  (targetVectors : list (string * list float32)) (rw : ReadWriter)
  : result (list (string * list float32) * ReadWriter) :=
  match tvOffsets with
  | [] => Ok (targetVectors, rw)
  | (name, offset) :: rest =>
      let rw := MoveBufferToAbsolutePosition rw (pos + offset) in
      '(vecLen, rw) <- ReadUint16 rw ;;
      '(vec, rw) <- readFloats (Z.to_nat vecLen) rw ;;
      readTargetVectors rest pos (map_set name vec targetVectors) rw
  end.

Definition unmarshalTargetVectors (rw : ReadWriter)
  : result (option (list (string * list float32)) * ReadWriter) :=
  if Position rw <? len (Buffer rw)
  then
    '(targetVectorsOffsets, rw) <- ReadBytesFromBufferWithUint32LengthIndicator rw ;;
    '(targetVectorsSegmentLength, rw) <- ReadUint32 rw ;;
    let pos := Position rw in
    if len targetVectorsOffsets >? 0
    then
      tvOffsets <- wrap_error "Could not unmarshal target vectors offset"
                     (msgpack_Unmarshal targetVectorsOffsets) ;;
      '(targetVectors, rw) <- readTargetVectors tvOffsets pos [] rw ;;
      Ok (Some targetVectors,
          MoveBufferToAbsolutePosition rw (pos + targetVectorsSegmentLength))
    else Ok (None, rw)
  else Ok (None, rw).

(** ** Properties, additional properties and weights of a decoded frame *)

(** [parseValues]: the value, and the error of the parser if any; with the
    error comes the zero value of the type. Another class of value panics. *)
Definition parseValues (dt : jsonparser.ValueType) (raw : bytes)
  : result (value * option error) :=
  match dt with
  | jsonparser.Number =>
      match jsonparser_ParseFloat raw with
      | Ok f => Ok (VFloat64 f, None)
      | Err e => Ok (VFloat64 0, Some e)
      end
  | jsonparser.String =>
      match jsonparser_ParseString raw with
      | Ok s => Ok (VString s, None)
      | Err e => Ok (VString "", Some e)
      end
  | jsonparser.Boolean =>
      match jsonparser_ParseBoolean raw with
      | Ok b => Ok (VBool b, None)
      | Err e => Ok (VBool false, Some e)
      end
  | _ => Err (Panic "Unknown data type")
  end.

(** The store of [val] under [aggregationProperties[idx]]. *)
Definition setProperty (properties : propmap) (aggregationProperties : list string)
  (idx : nat) (val : value) : result propmap :=
  match nth_error aggregationProperties idx with
  | Some name => Ok (map_set name val properties)
  | None => Err IndexOutOfRange
  end.

Definition orElse (err returnError : option error) : option error :=
  match err with Some e => Some e | None => returnError end.

(** The callback given to [ArrayEach] for an array that holds no beacon, over
    the elements of the array: the values appended and [returnError]. *)
Fixpoint arrayElements (elements : list (bytes * jsonparser.ValueType))
  (returnError : option error) : result (list value * option error) :=
  match elements with
  | [] => Ok ([], returnError)
  | (innerValue, innerDataType) :: rest =>
      '(val, returnError) <-
        (match innerDataType with
         | jsonparser.Number | jsonparser.String | jsonparser.Boolean =>
             '(val, err) <- parseValues innerDataType innerValue ;;
             Ok (val, orElse err returnError)
         | _ => Ok (VNil, Some UnknownPropertyType)
         end) ;;
      '(array, returnError) <- arrayElements rest returnError ;;
      Ok (val :: array, returnError)
  end.

(** The callback given to [EachKey], on one of its calls ([raw] is its
    argument [value]); the state is the map of properties and [returnError]. *)
Definition propertyCallback (aggregationProperties : list string)
  (state : propmap * option error) (call : nat * bytes * jsonparser.ValueType)
  : result (propmap * option error) :=
  let '(properties, returnError) := state in
  let '(idx, raw, dataType) := call in
  match dataType with
  | jsonparser.Number | jsonparser.String | jsonparser.Boolean =>
      '(val, err) <- parseValues dataType raw ;;
      properties <- setProperty properties aggregationProperties idx val ;;
      Ok (properties, orElse err returnError)
  | jsonparser.Array =>
      arrayEntries <- subslice raw 1 (len raw - 1) ;;
      match jsonparser_GetUnsafeString arrayEntries "beacon" with
      | Ok _ =>
          (* the error the handler stores is replaced by that of [ArrayEach] *)
          let '(elements, err) := jsonparser_ArrayEach raw in
          let beacons :=
            map (fun element =>
                   let beaconVal :=
                     match jsonparser_GetString (fst element) "beacon" with
                     | Ok s => s
                     | Err _ => ""%string
                     end in
                   VMap (Some [("beacon"%string, VString beaconVal)])) elements in
          properties <- setProperty properties aggregationProperties idx
                          (VSlice beacons) ;;
          Ok (properties, err)
      | Err _ =>
          let '(elements, err) := jsonparser_ArrayEach raw in
          '(array, returnError) <- arrayElements elements returnError ;;
          properties <- setProperty properties aggregationProperties idx
                          (VSlice array) ;;
          Ok (properties, orElse err returnError)
      end
  | jsonparser.Object =>
      let '(nestedProps, returnError) :=
        match json_Unmarshal_map raw with
        | Ok (Some m) => (m, returnError)
        | Ok None => ([], returnError)
        | Err e => ([], Some e)
        end in
      properties <- setProperty properties aggregationProperties idx
                      (VMap (Some nestedProps)) ;;
      Ok (properties, returnError)
  | _ => Ok (properties, Some UnknownPropertyType)
  end.

Fixpoint eachCall (aggregationProperties : list string)
  (calls : list (nat * bytes * jsonparser.ValueType))
  (state : propmap * option error) : result (propmap * option error) :=
  match calls with
  | [] => Ok state
  | call :: rest =>
      state <- propertyCallback aggregationProperties state call ;;
      eachCall aggregationProperties rest state
  end.

(** [UnmarshalProperties] returns the map as the callback leaves it, and
    [returnError]. *)
Definition UnmarshalProperties (data : bytes) (properties : propmap)
  (aggregationProperties : list string) (propStrings : list (list string))
  : result (propmap * option error) :=
  eachCall aggregationProperties (jsonparser_EachKey data propStrings)
    (properties, None).

Definition recastClassification (ap : propmap) : result propmap :=
  match map_get "classification" ap with
  | Some (VMap classificationMap) =>
      marshalled <- json_Marshal (VMap classificationMap) ;;
      classification <- json_Unmarshal_Classification marshalled ;;
      Ok (map_set "classification" (VClassification classification) ap)
  | _ => Ok ap
  end.

Fixpoint recastHits (hits : list propmap) : result (list propmap) :=
  match hits with
  | [] => Ok []
  | hit :: rest =>
      hit' <- (match map_get "_additional" hit with
               | Some (VMap groupHitAdditionalMap) =>
                   marshalled <- json_Marshal (VMap groupHitAdditionalMap) ;;
                   a <- json_Unmarshal_GroupHitAdditional marshalled ;;
                   Ok (map_set "_additional" (VGroupHitAdditional a) hit)
               | _ => Ok hit
               end) ;;
      rest' <- recastHits rest ;;
      Ok (hit' :: rest')
  end.

Definition recastGroup (ap : propmap) : result propmap :=
  match map_get "group" ap with
  | Some (VMap groupMap) =>
      marshalled <- json_Marshal (VMap groupMap) ;;
      '(hits, rest) <- json_Unmarshal_Group marshalled ;;
      hits <- recastHits hits ;;
      Ok (map_set "group" (VGroup hits rest) ap)
  | _ => Ok ap
  end.

Definition parseObject (ko : Object) (uuid : string) (create update : Z)
  (className : string) (propsB additionalB vectorWeightsB : bytes)
  (properties : option PropertyExtraction) (propLength : Z) : result Object :=
  returnProps <-
    (match properties with
     | Some p =>
         if propLength =? 0 then json_Unmarshal_map propsB
         else if len propsB >=? propLength
         then
           '(m, err) <- UnmarshalProperties (firstn (Z.to_nat propLength) propsB) []
                          (PropStrings p) (PropStringsList p) ;;
           match err with
           | Some e => Err e
           | None => Ok (Some m)
           end
         else Ok None
     | None => json_Unmarshal_map propsB
     end) ;;
  returnProps <- wrap_error "enrich schema datatypes"
                   (enrichSchemaTypes returnProps false) ;;
  additionalProperties <-
    (if len additionalB >? 0
     then
       ap <- json_Unmarshal_map additionalB ;;
       match ap with
       | Some m =>
           m <- recastClassification m ;;
           m <- recastGroup m ;;
           Ok (Some m)
       | None => Ok None
       end
     else Ok None) ;;
  vectorWeights <- json_Unmarshal_any vectorWeightsB ;;
  Ok (setObject ko
        {| models.Class := className;
           models.ID := uuid;
           models.CreationTimeUnix := create;
           models.LastUpdateTimeUnix := update;
           models.Properties := VMap returnProps;
           models.Additional := additionalProperties;
           models.VectorWeights := vectorWeights;
           models.Vector := None;
           models.Vectors := None |}).

(** The test that guards [parseObject] in [FromBinaryOptional]. *)
Definition needsEnrichment (props meta vectorWeights : bytes)
  (vectorWeightsLength : Z) : bool :=
  (len props >? 0) ||
  (len meta >? 0) ||
  ((vectorWeightsLength >? 0) &&
   negb ((vectorWeightsLength =? 4) &&
         match vectorWeights with
         | b0 :: b1 :: b2 :: b3 :: _ =>
             (byte.unsigned b0 =? 110) && (byte.unsigned b1 =? 117) &&
             (byte.unsigned b2 =? 108) && (byte.unsigned b3 =? 108)
         | _ => false
         end)).

(** ** The decoders *)

Definition FromBinaryUUIDOnly (data : bytes) : result Object :=
  let ko := zeroObject in
  let rw := NewReadWriter data in
  '(version, rw) <- ReadUint8 rw ;;
  if negb (version =? 1) then Err (UnsupportedVersion version) else
  let ko := setMarshallerVersion ko version in
  '(docID, rw) <- ReadUint64 rw ;;
  let ko := SetDocID ko docID in
  let rw := MoveBufferPositionForward rw 1 in
  '(uuidBytes, rw) <- ReadBytesFromBuffer rw 16 ;;
  uuidObj <- wrap_error "parse uuid" (uuid_FromBytes uuidBytes) ;;
  let ko := setObject ko
              (setIdentity (Object_ ko) (uuid_String uuidObj)
                 (models.CreationTimeUnix (Object_ ko))
                 (models.LastUpdateTimeUnix (Object_ ko))
                 (models.Class (Object_ ko))) in
  let rw := MoveBufferPositionForward rw 16 in
  '(vecLen, rw) <- ReadUint16 rw ;;
  (* [vecLen * 4] is a product of [uint16]s, widened after the fact *)
  let rw := MoveBufferPositionForward rw (uint64 (uint16 (vecLen * 4))) in
  '(classNameLen, rw) <- ReadUint16 rw ;;
  '(className, rw) <- ReadBytesFromBuffer rw (uint64 classNameLen) ;;
  Ok (setObject ko
        (setIdentity (Object_ ko) (models.ID (Object_ ko))
           (models.CreationTimeUnix (Object_ ko))
           (models.LastUpdateTimeUnix (Object_ ko))
           (string_of_list_byte className))).

Definition FromBinaryOptional (data : bytes) (addProp : additional.Properties)
  (properties : option PropertyExtraction) : result Object :=
  let ko := zeroObject in
  let rw := NewReadWriter data in
  '(version, rw) <- ReadUint8 rw ;;
  let ko := setMarshallerVersion ko version in
  if negb (MarshallerVersion ko =? 1)
  then Err (UnsupportedVersion (MarshallerVersion ko)) else
  '(docID, rw) <- ReadUint64 rw ;;
  let ko := SetDocID ko docID in
  let rw := MoveBufferPositionForward rw 1 in
  '(uuidBytes, rw) <- ReadBytesFromBuffer rw 16 ;;
  uuidObj <- wrap_error "parse uuid" (uuid_FromBytes uuidBytes) ;;
  let uuidParsed := uuid_String uuidObj in
  '(createTime, rw) <- ReadUint64 rw ;;
  let createTime := int64 createTime in
  '(updateTime, rw) <- ReadUint64 rw ;;
  let updateTime := int64 updateTime in
  '(vectorLength, rw) <- ReadUint16 rw ;;
  let ko := setVectorLen ko vectorLength in
  '(vector, rw) <-
    (if additional.Vector addProp
     then
       '(vectorBytes, rw) <- ReadBytesFromBuffer rw (uint64 vectorLength * 4) ;;
       Ok (Some (decodeFloats (Z.to_nat vectorLength) vectorBytes), rw)
     else Ok (None, MoveBufferPositionForward rw (uint64 vectorLength * 4))) ;;
  let ko := setObject ko (setObjectVector (Object_ ko) vector) in
  let ko := setVector ko (models.Vector (Object_ ko)) in
  '(classNameLen, rw) <- ReadUint16 rw ;;
  '(classNameBytes, rw) <- ReadBytesFromBuffer rw (uint64 classNameLen) ;;
  let className := string_of_list_byte classNameBytes in
  '(propLength, rw) <- ReadUint32 rw ;;
  '(props, rw) <-
    (if additional.NoProps addProp
     then Ok ([], MoveBufferPositionForward rw (uint64 propLength))
     else ReadBytesFromBuffer rw (uint64 propLength)) ;;
  '(metaLength, rw) <- ReadUint32 rw ;;
  '(meta, rw) <-
    (if additional.Classification addProp
        || (len (additional.ModuleParams addProp) >? 0)
     then ReadBytesFromBuffer rw (uint64 metaLength)
     else Ok ([], MoveBufferPositionForward rw (uint64 metaLength))) ;;
  '(vectorWeightsLength, rw) <- ReadUint32 rw ;;
  '(vectorWeights, rw) <- ReadBytesFromBuffer rw (uint64 vectorWeightsLength) ;;
  '(ko, rw) <-
    (if len (additional.Vectors addProp) >? 0
     then
       '(vectors, rw) <- unmarshalTargetVectors rw ;;
       let ko := setVectors ko vectors in
       match vectors with
       | Some vs =>
           Ok (setObject ko (setObjectVectors (Object_ ko) (Some (copy_map vs))), rw)
       | None => Ok (ko, rw)
       end
     else Ok (ko, rw)) ;;
  if needsEnrichment props meta vectorWeights vectorWeightsLength
  then
    wrap_error "parse"
      (parseObject ko uuidParsed createTime updateTime className
         props meta vectorWeights properties propLength)
  else
    Ok (setObject ko
          (setIdentity (Object_ ko) uuidParsed createTime updateTime className)).

Definition UnmarshalBinary (ko : Object) (data : bytes) : result Object :=
  version <- (match data with
              | b :: _ => Ok (byte.unsigned b)
              | [] => Err IndexOutOfRange
              end) ;;
  if negb (version =? 1) then Err (UnsupportedVersion version) else
  let ko := setMarshallerVersion ko version in
  let rw := WithPosition 1 (NewReadWriter data) in
  '(docID, rw) <- ReadUint64 rw ;;
  let ko := SetDocID ko docID in
  let rw := MoveBufferPositionForward rw 1 in
  uuidBytes <- subslice data (Position rw) (Position rw + 16) ;;
  uuidParsed <- uuid_FromBytes uuidBytes ;;
  let rw := MoveBufferPositionForward rw 16 in
  '(createTime, rw) <- ReadUint64 rw ;;
  let createTime := int64 createTime in
  '(updateTime, rw) <- ReadUint64 rw ;;
  let updateTime := int64 updateTime in
  '(vectorLength, rw) <- ReadUint16 rw ;;
  let ko := setVectorLen ko vectorLength in
  '(vector, rw) <- readFloats (Z.to_nat vectorLength) rw ;;
  let ko := setVector ko (Some vector) in
  '(classNameLength, rw) <- ReadUint16 rw ;;
  '(className, rw) <- wrap_error "Could not copy class name"
                        (CopyBytesFromBuffer rw (uint64 classNameLength)) ;;
  '(schemaLength, rw) <- ReadUint32 rw ;;
  '(schema, rw) <- wrap_error "Could not copy schema"
                     (CopyBytesFromBuffer rw (uint64 schemaLength)) ;;
  '(metaLength, rw) <- ReadUint32 rw ;;
  '(meta, rw) <- wrap_error "Could not copy meta"
                   (CopyBytesFromBuffer rw (uint64 metaLength)) ;;
  '(vectorWeightsLength, rw) <- ReadUint32 rw ;;
  '(vectorWeights, rw) <- wrap_error "Could not copy vectorWeights"
                            (CopyBytesFromBuffer rw (uint64 vectorWeightsLength)) ;;
  '(vectors, rw) <- unmarshalTargetVectors rw ;;
  let ko := setVectors ko vectors in
  parseObject ko (uuid_String uuidParsed) createTime updateTime
    (string_of_list_byte className) schema meta vectorWeights None 0.

Definition FromBinary (data : bytes) : result Object :=
  UnmarshalBinary zeroObject data.

(** [out[i] = x]; an index outside [out] panics. *)
Definition store (out : list float32) (i : nat) (x : float32)
  : result (list float32) :=
  if (i <? length out)%nat
  then Ok (firstn i out ++ x :: skipn (S i) out)
  else Err IndexOutOfRange.

(** [for start := vecStart; start < vecEnd; start += 4], by the number of
    turns left. *)
Fixpoint vectorLoop (turns : nat) (in_ : bytes) (start : Z) (i : nat)
  (out : list float32) : result (list float32) :=
  match turns with
  | O => Ok out
  | S k =>
      word <- subslice in_ start (start + 4) ;;
      out <- store out i (Float32frombits (le_combine word)) ;;
      vectorLoop k in_ (start + 4) (S i) out
  end.

Definition VectorFromBinary (in_ : bytes) (buffer : slice float32)
  (targetVector : string) : result (slice float32) :=
  if len in_ =? 0 then Ok None else
  version <- (match in_ with
              | b :: _ => Ok (byte.unsigned b)
              | [] => Err IndexOutOfRange
              end) ;;
  if negb (version =? 1) then Err (UnsupportedVersion version) else
  if negb (String.eqb targetVector "")
  then
    let startPos := 1 + 8 + 1 + 16 + 8 + 8 in
    let rw := WithPosition startPos (NewReadWriter in_) in
    '(vectorLength, rw) <- ReadUint16 rw ;;
    let rw := MoveBufferPositionForward rw (uint64 vectorLength * 4) in
    '(classnameLength, rw) <- ReadUint16 rw ;;
    let rw := MoveBufferPositionForward rw (uint64 classnameLength) in
    '(schemaLength, rw) <- ReadUint32 rw ;;
    let rw := MoveBufferPositionForward rw (uint64 schemaLength) in
    '(metaLength, rw) <- ReadUint32 rw ;;
    let rw := MoveBufferPositionForward rw (uint64 metaLength) in
    '(vectorWeightsLength, rw) <- ReadUint32 rw ;;
    let rw := MoveBufferPositionForward rw (uint64 vectorWeightsLength) in
    match unmarshalTargetVectors rw with
    | Err _ => Err (TargetVectorUnreadable targetVector)
    | Ok (targetVectors, _) =>
        match map_get targetVector (elems targetVectors) with
        | Some vector => Ok (Some vector)
        | None => Err (NotFound targetVector)
        end
    end
  else
    lenBytes <- subslice in_ 42 44 ;;
    let vecLen := le_combine lenBytes in
    let out :=
      if len (elems buffer) >=? vecLen
      then match buffer with
           | Some b => Some (firstn (Z.to_nat vecLen) b)
           | None => None
           end
      else Some (repeat 0 (Z.to_nat vecLen)) in
    let vecStart := 44 in
    (* [vecLen*4] is a product of [uint16]s *)
    let vecEnd := vecStart + uint16 (vecLen * 4) in
    match out with
    | Some o =>
        o <- vectorLoop (Z.to_nat ((vecEnd - vecStart + 3) / 4)) in_ vecStart 0 o ;;
        Ok (Some o)
    | None =>
        (* a nil [out] has no element to store into *)
        if vecStart <? vecEnd then Err IndexOutOfRange else Ok None
    end.

(** ** Fetching many objects by doc id *)

(** The loop of [objectsByDocIDSequential]. *)
Fixpoint fetchLoop (b : bucket) (ids : list Z) (addl : additional.Properties)
  (props : option PropertyExtraction) (out : list (option Object)) (i : nat)
  (lsmBuf : bytes) : result (list (option Object) * nat) :=
  match ids with
  | [] => Ok (out, i)
  | id :: rest =>
      let docIDBuf := le_split 8 id in
      match GetBySecondaryWithBuffer b 0 docIDBuf lsmBuf with
      | (_, _, Some err) => Err err
      | (res, newBuf, None) =>
          let lsmBuf := newBuf in
          match res with
          | None => fetchLoop b rest addl props out i lsmBuf
          | Some res =>
              unmarshalled <- wrap_error "unmarshal data object at position"
                                (FromBinaryOptional res addl props) ;;
              fetchLoop b rest addl props
                (firstn i out ++ Some unmarshalled :: skipn (S i) out) (S i) lsmBuf
          end
      end
  end.

(** The scratch buffer comes from the pool of the package ([bufPool.Get]),
    which is not among the files at hand; only the bucket looks into it, so it
    starts empty here. *)
Definition objectsByDocIDSequential (bkt : option bucket) (ids : list Z)
  (addl : additional.Properties) (properties : option (list string))
  : result (list (option Object)) :=
  match bkt with
  | None => Err BucketNotFound
  | Some b =>
      let out := repeat None (length ids) in
      let lsmBuf : bytes := [] in
      let props :=
        match properties with
        | Some ps =>
            Some {| PropStrings := ps;
                    PropStringsList := map (fun p => [p]) ps |}
        | None => None
        end in
      '(out, i) <- fetchLoop b ids addl props out 0%nat lsmBuf ;;
      Ok (firstn i out)
  end.

(** [copy(out[start:end], objs)] *)
Definition copyInto {A : Type} (out : list A) (start end_ : nat) (objs : list A)
  : list A :=
  let n := Nat.min (end_ - start) (length objs) in
  firstn start out ++ firstn n objs ++ skipn (start + n) out.

(** The loop over the chunks. Every task works on its own range of [out],
    so the tasks are run here one after the other; of several failures the
    one of the earliest chunk is kept. *)
Fixpoint chunkLoop (turns : nat) (chunk : nat) (chunkSize : nat)
  (bkt : option bucket) (ids : list Z) (addProp : additional.Properties)
  (properties : option (list string)) (out : list (option Object))
  : result (list (option Object)) :=
  match turns with
  | O => Ok out
  | S k =>
      let start := (chunk * chunkSize)%nat in
      let end_ := (start + chunkSize)%nat in
      let end_ := if (length ids <? end_)%nat then length ids else end_ in
      if (length ids <=? start)%nat then Ok out
      else
        objs <- objectsByDocIDSequential bkt
                  (firstn (end_ - start) (skipn start ids)) addProp properties ;;
        chunkLoop k (S chunk) chunkSize bkt ids addProp properties
          (copyInto out start end_ objs)
  end.

(** [GOMAXPROCS] is the number of processors the runtime reports; the
    quotient of the two lengths is exact in [float64], so its ceiling is the
    ceiling of the integer quotient. *)
Definition objectsByDocIDParallel (GOMAXPROCS : Z) (bkt : option bucket)
  (ids : list Z) (addProp : additional.Properties)
  (properties : option (list string)) : result (list (option Object)) :=
  let parallel := 2 * GOMAXPROCS in
  let out := repeat None (length ids) in
  let chunkSize := Z.max ((len ids + parallel - 1) / parallel) 1 in
  chunkLoop (Z.to_nat parallel) 0 (Z.to_nat chunkSize) bkt ids addProp properties out.

Definition ObjectsByDocID (GOMAXPROCS : Z) (bkt : option bucket) (ids : list Z)
  (addl : additional.Properties) (properties : option (list string))
  : result (list (option Object)) :=
  if len ids =? 1
  then objectsByDocIDSequential bkt ids addl properties
  else objectsByDocIDParallel GOMAXPROCS bkt ids addl properties.

End Codec.

(** ** Projection to a search result *)

Definition clearClassification (r : SingleRef) : SingleRef :=
  {| Beacon := Beacon r; Href := Href r; RefClassification := None |}.

(** The receiver after the call, and the value returned. The map is shared
    between the receiver and the result: what the loop writes into it is
    written into the receiver's properties. *)
Definition PropertiesWithAdditional (ko : Object) (addl : additional.Properties)
  : Object * PropertySchema :=
  let properties := Properties ko in
  if additional.RefMeta addl then (ko, properties)
  else
    match properties with
    | VMap (Some asMap) =>
        let asMap :=
          map (fun kv =>
                 match snd kv with
                 | VMultipleRef asRefs =>
                     (fst kv, VMultipleRef (map clearClassification asRefs))
                 | _ => kv
                 end) asMap in
        (SetProperties ko (VMap (Some asMap)), VMap (Some asMap))
    | _ => (ko, properties)
    end.

Definition ExplainScore (ko : Object) : result string :=
  match AdditionalProperties ko with
  | Some props =>
      match map_get "explainScore" props with
      | Some VNil | None => Ok ""%string
      | Some (VString s) => Ok s
      | Some _ => Err TypeAssertionFailed
      end
  | None => Ok ""%string
  end.

(** [m[k]] of a possibly missing key: the zero value is nil. *)
Definition index (m : propmap) (k : string) : value :=
  match map_get k m with Some v => v | None => VNil end.

Definition asVectors (in_ : option (list (string * list float32)))
  : option (list (string * list float32)) :=
  match in_ with
  | Some ((_ :: _) as m) => Some (copy_map m)
  | _ => None
  end.

(** [SearchResult] returns the receiver as the call leaves it, and the result
    (or the panic of [ExplainScore]'s type assertion). *)
Definition SearchResult (ko : Object) (addl : additional.Properties)
  (tenant : string) : Object * result search.Result :=
  let '(ko, pwa) := PropertiesWithAdditional ko addl in
  let propertiesMap :=
    match pwa with
    | VMap (Some m) => m
    | _ => []
    end in
  let propertiesMap := map_set "id" (VUUID (ID ko)) propertiesMap in
  let ko := SetProperties ko (VMap (Some propertiesMap)) in
  let additionalProperties : propmap := [] in
  let additionalProperties :=
    match AdditionalProperties ko with
    | Some ap =>
        let a1 :=
          match map_get "interpretation" (additional.ModuleParams addl) with
          | Some (VBool true) =>
              map_set "interpretation" (index ap "interpretation") additionalProperties
          | _ => additionalProperties
          end in
        let a2 :=
          if additional.Classification addl
          then map_set "classification" (index ap "classification") a1
          else a1 in
        if additional.Group addl
        then map_set "group" (index ap "group") a2
        else a2
    | None => additionalProperties
    end in
  (ko,
   explainScore <- ExplainScore ko ;;
   let additionalProperties :=
     if negb (String.eqb explainScore "")
     then map_set "explainScore" (VString explainScore) additionalProperties
     else additionalProperties in
   Ok {| search.ID := ID ko;
         search.DocID := DocID ko;
         search.ClassName := Class ko;
         search.Schema := Properties ko;
         search.Vector := Vector ko;
         search.Vectors := asVectors (Vectors ko);
         search.Dims := VectorLen ko;
         search.Created := CreationTimeUnix ko;
         search.Updated := LastUpdateTimeUnix ko;
         search.AdditionalProperties := additionalProperties;
         search.ExplainScore := explainScore;
         search.IsConsistent := IsConsistent ko;
         search.Tenant := tenant |}).

(** ** A reference implementation of the libraries

    Small executable stand-ins for the libraries, on the part of their input
    language that the examples use: canonical UUID text, JSON without numbers
    and without escapes in strings (keys printed in the order of the list),
    msgpack maps of at most 15 short names with [uint32] values, and an
    enrichment that leaves the properties as they are. *)

Module Reference.

Definition hexval (b : byte) : option Z :=
  let v := byte.unsigned b in
  if (48 <=? v) && (v <=? 57) then Some (v - 48)
  else if (97 <=? v) && (v <=? 102) then Some (v - 87)
  else if (65 <=? v) && (v <=? 70) then Some (v - 55)
  else None.

Definition hexdigit (v : Z) : byte :=
  if v <? 10 then byte.of_Z (48 + v) else byte.of_Z (87 + v).

Fixpoint unhex (s : bytes) : option bytes :=
  match s with
  | [] => Some []
  | hi :: lo :: r =>
      match hexval hi, hexval lo, unhex r with
      | Some h, Some l, Some bs => Some (byte.of_Z (16 * h + l) :: bs)
      | _, _, _ => None
      end
  | _ => None
  end.

Definition hex (bs : bytes) : bytes :=
  flat_map (fun b => [hexdigit (byte.unsigned b / 16);
                      hexdigit (byte.unsigned b mod 16)]) bs.

Definition dash : byte := Byte.x2d.

Definition uuid_Parse (s : string) : result bytes :=
  let cs := list_byte_of_string s in
  let part lo n := firstn n (skipn lo cs) in
  if (length cs =? 36)%nat
     && forallb (fun i => Byte.eqb (nth i cs Byte.x00) dash) [8; 13; 18; 23]%nat
  then
    match unhex (part 0 8 ++ part 9 4 ++ part 14 4 ++ part 19 4 ++ part 24 12)%nat with
    | Some b => Ok b
    | None => Err MalformedUUID
    end
  else Err MalformedUUID.

Definition uuid_String (b : bytes) : string :=
  let part lo n := hex (firstn n (skipn lo b)) in
  string_of_list_byte
    (part 0 4 ++ [dash] ++ part 4 2 ++ [dash] ++ part 6 2 ++ [dash] ++
     part 8 2 ++ [dash] ++ part 10 6)%nat.

(** *** JSON *)

Definition quote : byte := Byte.x22.
Definition comma : byte := Byte.x2c.
Definition colon : byte := Byte.x3a.
Definition null : bytes := [Byte.x6e; Byte.x75; Byte.x6c; Byte.x6c].

Definition separated (parts : list bytes) : bytes :=
  match parts with
  | [] => []
  | p :: r => p ++ flat_map (fun q => comma :: q) r
  end.

Definition sequence {A : Type} (l : list (result A)) : result (list A) :=
  fold_right (fun r acc => x <- r ;; xs <- acc ;; Ok (x :: xs)) (Ok []) l.

Fixpoint json_Marshal (v : value) : result bytes :=
  match v with
  | VNil | VMap None => Ok null
  | VBool true => Ok (list_byte_of_string "true")
  | VBool false => Ok (list_byte_of_string "false")
  | VString s | VUUID s => Ok (quote :: list_byte_of_string s ++ [quote])
  | VSlice l =>
      parts <- sequence (map json_Marshal l) ;;
      Ok (Byte.x5b :: separated parts ++ [Byte.x5d])
  | VMap (Some m) =>
      parts <- sequence
                 (map (fun kv =>
                         b <- json_Marshal (snd kv) ;;
                         Ok (quote :: list_byte_of_string (fst kv) ++
                             [quote; colon] ++ b)) m) ;;
      Ok (Byte.x7b :: separated parts ++ [Byte.x7d])
  | _ => Err MalformedJSON
  end.

(** The text of a string up to its closing quote, and what follows. *)
Fixpoint scanString (s : bytes) : option (bytes * bytes) :=
  match s with
  | [] => None
  | b :: r =>
      if Byte.eqb b quote then Some ([], r)
      else match scanString r with
           | Some (t, r') => Some (b :: t, r')
           | None => None
           end
  end.

Fixpoint parseValue (fuel : nat) (s : bytes) : option (value * bytes) :=
  match fuel with
  | O => None
  | S fuel =>
      match s with
      | Byte.x6e :: Byte.x75 :: Byte.x6c :: Byte.x6c :: r => Some (VNil, r)
      | Byte.x74 :: Byte.x72 :: Byte.x75 :: Byte.x65 :: r => Some (VBool true, r)
      | Byte.x66 :: Byte.x61 :: Byte.x6c :: Byte.x73 :: Byte.x65 :: r =>
          Some (VBool false, r)
      | Byte.x22 :: r =>
          match scanString r with
          | Some (t, r') => Some (VString (string_of_list_byte t), r')
          | None => None
          end
      | Byte.x5b :: Byte.x5d :: r => Some (VSlice [], r)
      | Byte.x5b :: r =>
          match parseElements fuel r with
          | Some (l, r') => Some (VSlice l, r')
          | None => None
          end
      | Byte.x7b :: Byte.x7d :: r => Some (VMap (Some []), r)
      | Byte.x7b :: r =>
          match parseMembers fuel r with
          | Some (m, r') => Some (VMap (Some m), r')
          | None => None
          end
      | _ => None
      end
  end
with parseElements (fuel : nat) (s : bytes) : option (list value * bytes) :=
  match fuel with
  | O => None
  | S fuel =>
      match parseValue fuel s with
      | Some (v, Byte.x2c :: r) =>
          match parseElements fuel r with
          | Some (l, r') => Some (v :: l, r')
          | None => None
          end
      | Some (v, Byte.x5d :: r) => Some ([v], r)
      | _ => None
      end
  end
with parseMembers (fuel : nat) (s : bytes) : option (propmap * bytes) :=
  match fuel with
  | O => None
  | S fuel =>
      match s with
      | Byte.x22 :: r =>
          match scanString r with
          | Some (k, Byte.x3a :: r1) =>
              match parseValue fuel r1 with
              | Some (v, Byte.x2c :: r2) =>
                  match parseMembers fuel r2 with
                  | Some (m, r') => Some ((string_of_list_byte k, v) :: m, r')
                  | None => None
                  end
              | Some (v, Byte.x7d :: r2) => Some ([(string_of_list_byte k, v)], r2)
              | _ => None
              end
          | _ => None
          end
      | _ => None
      end
  end.

Definition json_Unmarshal_any (b : bytes) : result value :=
  match parseValue (S (length b)) b with
  | Some (v, []) => Ok v
  | _ => Err MalformedJSON
  end.

Definition json_Unmarshal_map (b : bytes) : result (option propmap) :=
  match json_Unmarshal_any b with
  | Ok VNil => Ok None
  | Ok (VMap m) => Ok m
  | _ => Err MalformedJSON
  end.

(** *** msgpack *)

Definition be32 (v : Z) : bytes := rev (le_split 4 v).

Definition msgpack_Marshal (m : list (string * Z)) : result bytes :=
  if (length m <? 16)%nat
     && forallb (fun kv => (String.length (fst kv) <? 32)%nat) m
  then
    Ok (byte.of_Z (128 + len m) ::
        flat_map (fun kv =>
                    byte.of_Z (160 + Z.of_nat (String.length (fst kv)))
                      :: list_byte_of_string (fst kv)
                      ++ Byte.xce :: be32 (snd kv)) m)
  else Err MalformedMsgpack.

Fixpoint unpackEntries (n : nat) (s : bytes) : option (list (string * Z)) :=
  match n with
  | O => match s with [] => Some [] | _ => None end
  | S k =>
      match s with
      | h :: r =>
          let l := Z.to_nat (byte.unsigned h - 160) in
          if (160 <=? byte.unsigned h) && (byte.unsigned h <? 192)
          then
            match skipn l r with
            | Byte.xce :: r1 =>
                if (4 <=? length r1)%nat
                then
                  match unpackEntries k (skipn 4 r1) with
                  | Some m =>
                      Some ((string_of_list_byte (firstn l r),
                             le_combine (rev (firstn 4 r1))) :: m)
                  | None => None
                  end
                else None
            | _ => None
            end
          else None
      | [] => None
      end
  end.

Definition msgpack_Unmarshal (b : bytes) : result (list (string * Z)) :=
  match b with
  | h :: r =>
      if (128 <=? byte.unsigned h) && (byte.unsigned h <? 144)
      then match unpackEntries (Z.to_nat (byte.unsigned h - 128)) r with
           | Some m => Ok m
           | None => Err MalformedMsgpack
           end
      else Err MalformedMsgpack
  | [] => Err MalformedMsgpack
  end.

(** *** jsonparser, on the same JSON *)

Definition classOf (v : value) : jsonparser.ValueType :=
  match v with
  | VNil => jsonparser.Null
  | VBool _ => jsonparser.Boolean
  | VFloat64 _ => jsonparser.Number
  | VString _ | VUUID _ => jsonparser.String
  | VSlice _ => jsonparser.Array
  | VMap _ => jsonparser.Object
  | _ => jsonparser.Unknown
  end.

(** The bytes of a value as the callbacks get them: a string without its
    quotes. *)
Definition rawOf (v : value) : bytes :=
  match v with
  | VString s => list_byte_of_string s
  | _ => match json_Marshal v with Ok b => b | Err _ => [] end
  end.

Definition jsonparser_EachKey (data : bytes) (paths : list (list string))
  : list (nat * bytes * jsonparser.ValueType) :=
  match json_Unmarshal_map data with
  | Ok (Some m) =>
      flat_map
        (fun kv =>
           flat_map
             (fun ip =>
                match snd ip with
                | [key] =>
                    if String.eqb key (fst kv)
                    then [(fst ip, rawOf (snd kv), classOf (snd kv))]
                    else []
                | _ => []
                end)
             (combine (seq 0 (length paths)) paths))
        m
  | _ => []
  end.

Definition jsonparser_ArrayEach (data : bytes)
  : list (bytes * jsonparser.ValueType) * option error :=
  match json_Unmarshal_any data with
  | Ok (VSlice l) => (map (fun v => (rawOf v, classOf v)) l, None)
  | _ => ([], Some MalformedJSON)
  end.

(** The string under [key] in the object that [data] starts with. *)
Definition jsonparser_GetString (data : bytes) (key : string) : result string :=
  match parseValue (S (length data)) data with
  | Some (VMap (Some m), _) =>
      match map_get key m with
      | Some (VString s) => Ok s
      | _ => Err MalformedJSON
      end
  | _ => Err MalformedJSON
  end.

Definition jsonparser_ParseBoolean (b : bytes) : result bool :=
  match json_Unmarshal_any b with
  | Ok (VBool t) => Ok t
  | _ => Err MalformedJSON
  end.

#[export] Instance externals : Externals :=
  Build_Externals uuid_Parse uuid_String
    json_Marshal json_Unmarshal_map json_Unmarshal_any
    (fun b => Ok b) (fun b => Ok ([], b)) (fun b => Ok b)
    msgpack_Marshal msgpack_Unmarshal
    jsonparser_EachKey jsonparser_ArrayEach
    jsonparser_GetString jsonparser_GetString
    (fun _ => Err MalformedJSON)
    (fun b => Ok (string_of_list_byte b))
    jsonparser_ParseBoolean
    (fun m _ => Ok m).

End Reference.

(** ** The layout of a version-1 frame

    The table that heads [MarshalBinary], as a record of the regions of a
    frame and the bytes they make. [f_named] is [None] for a frame that ends
    after the vector weights, as the frames written before named vectors
    existed do. *)

Record Frame : Type := {
  f_docID : Z;
  f_uuid : bytes;
  f_create : Z;
  f_update : Z;
  f_vector : list float32;
  f_class : bytes;
  f_props : bytes;
  f_meta : bytes;
  f_weights : bytes;
  f_named : option (bytes * bytes)
}.

Definition floatsBytes (v : list float32) : bytes :=
  flat_map (fun f => le_split 4 (Float32bits f)) v.

Definition recordBytes (v : list float32) : bytes :=
  le_split 2 (len v) ++ floatsBytes v.

Definition namedBytes (named : option (bytes * bytes)) : bytes :=
  match named with
  | Some (offsets, segment) =>
      le_split 4 (len offsets) ++ offsets ++ le_split 4 (len segment) ++ segment
  | None => []
  end.

(** The regions after the primary vector. *)
Definition tailBytes (F : Frame) : bytes :=
  le_split 2 (len (f_class F)) ++ f_class F ++
  le_split 4 (len (f_props F)) ++ f_props F ++
  le_split 4 (len (f_meta F)) ++ f_meta F ++
  le_split 4 (len (f_weights F)) ++ f_weights F ++
  namedBytes (f_named F).

Definition frameBytes (F : Frame) : bytes :=
  le_split 1 1 ++ le_split 8 (f_docID F) ++ le_split 1 1 ++ f_uuid F ++
  le_split 8 (f_create F) ++ le_split 8 (f_update F) ++
  le_split 2 (len (f_vector F)) ++ floatsBytes (f_vector F) ++
  tailBytes F.

Definition float32Ok (f : float32) : bool := (0 <=? f) && (f <? 2 ^ 32).

Definition vectorOk (v : list float32) : bool :=
  (len v <=? MaxUint16) && forallb float32Ok v.

Definition int64Ok (t : Z) : bool := (- 2 ^ 63 <=? t) && (t <? 2 ^ 63).

(** Every region but the primary vector fits its slot and its length
    prefix. *)
Definition regionsOk (F : Frame) : bool :=
  (0 <=? f_docID F) && (f_docID F <? 2 ^ 64) &&
  (length (f_uuid F) =? 16)%nat &&
  int64Ok (f_create F) && int64Ok (f_update F) &&
  (len (f_class F) <=? MaxUint16) &&
  (len (f_props F) <=? MaxUint32) &&
  (len (f_meta F) <=? MaxUint32) &&
  (len (f_weights F) <=? MaxUint32) &&
  match f_named F with
  | Some (offsets, segment) =>
      (len offsets <=? MaxUint32) && (len segment <=? MaxUint32)
  | None => true
  end.

Definition frameOk (F : Frame) : bool :=
  vectorOk (f_vector F) && regionsOk F.

(** The whole frame has a length that a [uint32] holds. *)
Definition frameFits (F : Frame) : bool := len (frameBytes F) <=? MaxUint32.

Fixpoint distinct (l : list string) : bool :=
  match l with
  | [] => true
  | x :: r => negb (existsb (String.eqb x) r) && distinct r
  end.

(** The values of an [Object] are values of their Go types: a [uint64], two
    [int64], [float32]s, and a map, whose keys are distinct. *)
Definition wellTyped (ko : Object) : bool :=
  (0 <=? DocID ko) && (DocID ko <? 2 ^ 64) &&
  int64Ok (CreationTimeUnix ko) && int64Ok (LastUpdateTimeUnix ko) &&
  forallb float32Ok (elems (Vector ko)) &&
  forallb (fun nv => forallb float32Ok (snd nv)) (elems (Vectors ko)) &&
  distinct (keys (elems (Vectors ko))).

(** The offsets of the records of the segment, in the order of the map. *)
Fixpoint offsetsOf (vectors : list (string * list float32)) (offset : Z)
  : list (string * Z) :=
  match vectors with
  | [] => []
  | (name, vec) :: rest => (name, offset) :: offsetsOf rest (offset + (2 + 4 * len vec))
  end.

Definition segmentOf (vectors : list (string * list float32)) : bytes :=
  flat_map (fun nv => recordBytes (snd nv)) vectors.

(** A record of the vector [vec] starts at offset [off] of the segment. *)
Definition recordAt (seg : bytes) (off : Z) (vec : list float32) : Prop :=
  exists s1 s2, seg = s1 ++ recordBytes vec ++ s2 /\ len s1 = off.

(** The ASCII bytes of [null]. *)
Definition nullBytes : bytes := [Byte.x6e; Byte.x75; Byte.x6c; Byte.x6c].

(** What a call of [FromBinaryOptional] retains of the properties and of the
    additional properties under a mask. *)
Definition maskedProps (addProp : additional.Properties) (F : Frame) : bytes :=
  if additional.NoProps addProp then [] else f_props F.

Definition maskedMeta (addProp : additional.Properties) (F : Frame) : bytes :=
  if additional.Classification addProp
     || (len (additional.ModuleParams addProp) >? 0)
  then f_meta F else [].

(** The object that [FromBinaryOptional] has assembled when it reaches the
    named vectors. *)
Definition headerObject (F : Frame) (vector : slice float32) : Object :=
  {| MarshallerVersion := 1;
     Object_ := setObjectVector models.zero vector;
     Vector := vector;
     VectorLen := len (f_vector F);
     BelongsToNode := ""; BelongsToShard := ""; IsConsistent := false;
     DocID := f_docID F;
     Vectors := None |}.

(** An object that carries the identity, the timestamps and the class of a
    frame and nothing that comes out of its JSON regions. *)
Definition identityObject (F : Frame) (uuid : string) (vector : slice float32)
  (vectors : option (list (string * list float32))) : Object :=
  {| MarshallerVersion := 1;
     Object_ :=
       {| models.Class := string_of_list_byte (f_class F);
          models.ID := uuid;
          models.CreationTimeUnix := f_create F;
          models.LastUpdateTimeUnix := f_update F;
          models.Properties := VNil;
          models.Additional := None;
          models.VectorWeights := VNil;
          models.Vector := vector;
          models.Vectors := option_map (@copy_map (list float32)) vectors |};
     Vector := vector;
     VectorLen := len (f_vector F);
     BelongsToNode := ""; BelongsToShard := ""; IsConsistent := false;
     DocID := f_docID F;
     Vectors := vectors |}.

(** ** States of the cursor *)

(** The cursor stands in front of [rest], which runs to the end of the
    buffer. *)
Definition Rest (rw : ReadWriter) (rest : bytes) : Prop :=
  exists pre, Buffer rw = pre ++ rest /\ Position rw = len pre.

(** The cursor of the encoder: [w] is written, [k] zero bytes are left. *)
Definition filled (w : bytes) (k : nat) : ReadWriter :=
  {| Position := len w; Buffer := w ++ repeat Byte.x00 k |}.

Section Layout.

Context {E : Externals}.

(** The packed offsets and the segment of the named vectors. *)
Definition namedOf (vectors : option (list (string * list float32)))
  : result (bytes * bytes) :=
  match vectors with
  | Some ((_ :: _) as vectors) =>
      offsets <- msgpack_Marshal (offsetsOf vectors 0) ;;
      Ok (offsets, segmentOf vectors)
  | _ => Ok ([], [])
  end.

(** The frame that the table prescribes for an object. *)
Definition frameOf (ko : Object) : result Frame :=
  idBytes <- uuid_Parse (ID ko) ;;
  schema <- json_Marshal (Properties ko) ;;
  meta <- json_Marshal (VMap (AdditionalProperties ko)) ;;
  vectorWeights <- json_Marshal (VectorWeights ko) ;;
  named <- namedOf (Vectors ko) ;;
  Ok {| f_docID := DocID ko;
        f_uuid := idBytes;
        f_create := CreationTimeUnix ko;
        f_update := LastUpdateTimeUnix ko;
        f_vector := elems (Vector ko);
        f_class := list_byte_of_string (Class ko);
        f_props := schema;
        f_meta := meta;
        f_weights := vectorWeights;
        f_named := Some named |}.

(** What [MarshalBinary] asks of an object and of its frame, the length of
    the primary vector apart. *)
Definition withinLimits (ko : Object) (F : Frame) : bool :=
  (MarshallerVersion ko =? 1) && wellTyped ko &&
  forallb (fun nv => vectorOk (snd nv)) (elems (Vectors ko)) &&
  regionsOk F && frameFits F.

(** An object that [MarshalBinary] accepts, with its frame. *)
Definition encodes (ko : Object) (F : Frame) : bool :=
  (len (elems (Vector ko)) <=? maxVectorLength) && withinLimits ko F.

(** The state of the cursor of a decoder when it reaches the named
    vectors of a frame. *)
Definition atNamed (F : Frame) : ReadWriter :=
  {| Position := len (frameBytes F) - len (namedBytes (f_named F));
     Buffer := frameBytes F |}.

(** The object that [FromBinaryUUIDOnly] returns when it reads the class
    where the class is. *)
Definition idAndClass (F : Frame) : Object :=
  setObject (SetDocID (setMarshallerVersion zeroObject 1) (f_docID F))
    (setIdentity models.zero (uuid_String (f_uuid F)) 0 0
       (string_of_list_byte (f_class F))).

(** The JSON regions of a frame are ones that the full decoder parses and
    enriches. *)
Definition regionsParse (F : Frame) : Prop :=
  exists ko,
    parseObject zeroObject (uuid_String (f_uuid F)) (f_create F) (f_update F)
      (string_of_list_byte (f_class F)) (f_props F) (f_meta F) (f_weights F)
      None 0 = Ok ko.

(** The packed offsets of a frame unpack to the offsets that were packed:
    the same entries, in some order; and a map with entries never packs to
    nothing. *)
Definition offsetsReadBack (F : Frame)
  (vectors : list (string * list float32)) : Prop :=
  match f_named F with
  | Some (b :: offsets, _) =>
      exists tvOffsets,
        msgpack_Unmarshal (b :: offsets) = Ok tvOffsets /\
        Permutation tvOffsets (offsetsOf vectors 0)
  | Some ([], _) => vectors = []
  | None => True
  end.

End Layout.

(** The libraries with every JSON call and the enrichment made to fail: a
    decoder that succeeds with them has not parsed any JSON. *)
Definition withoutJSON (E : Externals) : Externals :=
  Build_Externals (@uuid_Parse E) (@uuid_String E)
    (fun _ => Err MalformedJSON) (fun _ => Err MalformedJSON)
    (fun _ => Err MalformedJSON) (fun _ => Err MalformedJSON)
    (fun _ => Err MalformedJSON) (fun _ => Err MalformedJSON)
    (@msgpack_Marshal E) (@msgpack_Unmarshal E)
    (fun _ _ => []) (fun _ => ([], Some MalformedJSON))
    (fun _ _ => Err MalformedJSON) (fun _ _ => Err MalformedJSON)
    (fun _ => Err MalformedJSON) (fun _ => Err MalformedJSON)
    (fun _ => Err MalformedJSON)
    (fun _ _ => Err MalformedJSON).

(** The properties left by [FromObject]: the entries that are not nil. *)
Definition withoutNil (m : propmap) : propmap :=
  filter (fun kv => negb (is_nil (snd kv))) m.

(** ** Sample inputs

    Objects, frames and a bucket on which the statements below are run with
    the reference libraries. *)

Module Samples.

Import Reference.

(** The bits of 1.0, 2.0 and 3.0. *)
Definition one : float32 := 1065353216.
Definition two : float32 := 1073741824.
Definition three : float32 := 1077936128.

Definition thing (properties : PropertySchema) : models.Object :=
  {| models.Class := "Thing";
     models.ID := "11111111-1111-1111-1111-111111111111";
     models.CreationTimeUnix := 1000;
     models.LastUpdateTimeUnix := 2000;
     models.Properties := properties;
     models.Additional := None;
     models.VectorWeights := VNil;
     models.Vector := None;
     models.Vectors := None |}.

Definition stored (docID : Z) (vector : list float32)
  (vectors : option (list (string * list float32))) (properties : PropertySchema)
  : Object :=
  SetDocID (FromObject (thing properties) (Some vector) vectors) docID.

Definition emptyFrame : Frame :=
  {| f_docID := 0; f_uuid := []; f_create := 0; f_update := 0; f_vector := [];
     f_class := []; f_props := []; f_meta := []; f_weights := [];
     f_named := None |}.

Definition frameFor (ko : Object) : Frame :=
  match frameOf ko with Ok F => F | Err _ => emptyFrame end.

(** An object with a name, a property set to nil and two named vectors. *)
Definition properties : propmap :=
  [("age"%string, VNil); ("name"%string, VString "a")].

Definition named : Object :=
  stored 42 [one; two; three]
    (Some [("a"%string, [one]); ("b"%string, [two; three])])
    (VMap (Some properties)).

(** An object whose map of named vectors has an entry under the empty
    name. *)
Definition unnamed : Object :=
  stored 42 [] (Some [(""%string, [one])]) VNil.

(** Primary vectors of 16384, 65535 and 65536 elements. *)
Definition wrapping : Object := stored 7 (repeat one (Z.to_nat 16384)) None VNil.
Definition boundary : Object := stored 7 (repeat one (Z.to_nat 65535)) None VNil.
Definition beyond : Object := stored 7 (repeat one (Z.to_nat 65536)) None VNil.

(** A frame as written before named vectors existed: it ends after the
    vector weights. *)
Definition legacy : Frame :=
  {| f_docID := 42;
     f_uuid := repeat Byte.x11 16;
     f_create := 1000;
     f_update := 2000;
     f_vector := [one; two; three];
     f_class := list_byte_of_string "Thing";
     f_props := nullBytes;
     f_meta := nullBytes;
     f_weights := nullBytes;
     f_named := None |}.

(** A frame with neither properties nor additional properties, and [null]
    for weights. *)
Definition bare : Frame :=
  {| f_docID := 42;
     f_uuid := repeat Byte.x11 16;
     f_create := 1000;
     f_update := 2000;
     f_vector := [one; two; three];
     f_class := list_byte_of_string "Thing";
     f_props := [];
     f_meta := [];
     f_weights := nullBytes;
     f_named := Some ([], []) |}.

Definition noMask : additional.Properties :=
  {| additional.Vector := false; additional.NoProps := false;
     additional.Classification := false; additional.Group := false;
     additional.RefMeta := false; additional.ModuleParams := [];
     additional.Vectors := [] |}.

(** A bucket that holds an object under every doc id but 3. *)
Definition holed : bucket :=
  {| GetBySecondaryWithBuffer := fun _ key buf =>
       let id := le_combine key in
       if id =? 3 then (None, buf, None)
       else match MarshalBinary (stored id [one] None VNil) with
            | (Some data, None) => (Some data, buf, None)
            | (_, Some e) => (None, buf, Some e)
            | (None, None) => (None, buf, None)
            end |}.

(** What [FromBinaryOptional] makes of the object stored under [id]. *)
Definition fetched (id : Z) : Object :=
  match FromBinaryOptional (frameBytes (frameFor (stored id [one] None VNil)))
          noMask None with
  | Ok ko => ko
  | Err _ => zeroObject
  end.

End Samples.

(** What the projection makes of a property when the metadata of references
    is not asked for. *)
Definition withoutRefMeta (v : value) : value :=
  match v with
  | VMultipleRef refs => VMultipleRef (map clearClassification refs)
  | _ => v
  end.

(** The properties of an object as a map: nothing when they are not one. *)
Definition propertiesMap (ko : Object) : propmap :=
  match Properties ko with
  | VMap (Some m) => m
  | _ => []
  end.

(** ** The readers of the header *)

(** The errors of the two readers of the header: the one that
    [DocIDFromBinary] makes, [io.EOF] and [io.ErrUnexpectedEOF], and the error
    of a version other than 1. *)
Inductive headerError : Type :=
| BinaryDataTooShort
| EOF
| ErrUnexpectedEOF
| UnsupportedMarshallerVersion (version : Z).

(** [DocIDFromBinary] returns the pair of Go: the doc id (or 0) and the error
    (or nil). The slice [in[1:9]] is inside [in] once the length is
    checked. *)
Definition DocIDFromBinary (in_ : bytes) : Z * option headerError :=
  if len in_ <? 9
  then (0, Some BinaryDataTooShort)
  else (le_combine (firstn 8 (skipn 1 in_)), None).

(** [io.ReadFull] of [n] bytes from a [bytes.Reader] that has [r] left to
    read: the bytes and what is left after them; [io.EOF] when nothing is
    left, [io.ErrUnexpectedEOF] when fewer than [n] bytes are. *)
Definition io_ReadFull (r : bytes) (n : nat) : (bytes * bytes) + headerError :=
  if (n <=? length r)%nat then inl (firstn n r, skipn n r)
  else if (length r =? 0)%nat then inr EOF
  else inr ErrUnexpectedEOF.

(** [binary.Read] into a [uint8] or a [uint64] with the little-endian order:
    [io.ReadFull] of the size of the value, then the value of the bytes. *)
Definition binary_Read (r : bytes) (size : nat) : (Z * bytes) + headerError :=
  match io_ReadFull r size with
  | inl (bs, r) => inl (le_combine bs, r)
  | inr err => inr err
  end.

(** [DocIDAndTimeFromBinary] returns the triple of Go: doc id, update time
    and error; the first two are 0 with an error. *)
Definition DocIDAndTimeFromBinary (in_ : bytes) : Z * Z * option headerError :=
  let r := in_ in
  match binary_Read r 1 with
  | inr err => (0, 0, Some err)
  | inl (version, r) =>
      if negb (version =? 1)
      then (0, 0, Some (UnsupportedMarshallerVersion version))
      else
        match binary_Read r 8 with
        | inr err => (0, 0, Some err)
        | inl (docID, r) =>
            match io_ReadFull r (1 + 16 + 8 + 8) with
            | inr err => (0, 0, Some err)
            | inl (buf, _) =>
                let updateTime :=
                  int64 (le_combine (firstn 8 (skipn (1 + 16 + 8) buf))) in
                (docID, updateTime, None)
            end
        end
  end.

(** ** The properties of a stored frame, without the rest *)

Section PropertiesOnly.

Context {E : Externals}.

(** [UnmarshalPropertiesFromObject] returns the map as the call leaves it and
    the error it returns; a panic is an [Err]. The map is emptied once the
    version is checked. *)
Definition UnmarshalPropertiesFromObject (data : bytes) (properties : propmap)
  (aggregationProperties : list string) (propStrings : list (list string))
  : result (propmap * option error) :=
  version <- (match data with
              | b :: _ => Ok (byte.unsigned b)
              | [] => Err IndexOutOfRange
              end) ;;
  if negb (version =? 1)
  then Ok (properties, Some (UnsupportedVersion version))
  else
    let properties : propmap := [] in
    let startPos := 1 + 8 + 1 + 16 + 8 + 8 in
    let rw := WithPosition startPos (NewReadWriter data) in
    '(vectorLength, rw) <- ReadUint16 rw ;;
    let vectorLength := uint64 vectorLength in
    let rw := MoveBufferPositionForward rw (vectorLength * 4) in
    '(classnameLength, rw) <- ReadUint16 rw ;;
    let classnameLength := uint64 classnameLength in
    let rw := MoveBufferPositionForward rw classnameLength in
    '(propertyLength, rw) <- ReadUint32 rw ;;
    let propertyLength := uint64 propertyLength in
    region <- subslice (Buffer rw) (Position rw) (Position rw + propertyLength) ;;
    UnmarshalProperties region properties aggregationProperties propStrings.

End PropertiesOnly.

(** ** Validity, ownership and copies *)

Definition Valid (ko : Object) : bool :=
  negb (String.eqb (ID ko) "") && negb (String.eqb (Class ko) "").

Definition GetDocID (ko : Object) : Z := DocID ko.

Definition SetID (ko : Object) (id : string) : Object :=
  setObject ko
    (setIdentity (Object_ ko) id (models.CreationTimeUnix (Object_ ko))
       (models.LastUpdateTimeUnix (Object_ ko)) (models.Class (Object_ ko))).

Definition SetClass (ko : Object) (class : string) : Object :=
  setObject ko
    (setIdentity (Object_ ko) (models.ID (Object_ ko))
       (models.CreationTimeUnix (Object_ ko))
       (models.LastUpdateTimeUnix (Object_ ko)) class).

(** [make([]float32, len(orig))] and [copy]: the copy of a nil slice is an
    empty slice that is not nil. *)
Definition deepCopyVector (orig : slice float32) : slice float32 :=
  Some (elems orig).

(** The vectors under the names are lists here, which their copies equal;
    the map that comes back is never nil. *)
Definition deepCopyVectors (orig : option (list (string * list float32)))
  : option (list (string * list float32)) :=
  Some (fold_left
          (fun out kv => map_set (fst kv) (elems (deepCopyVector (Some (snd kv)))) out)
          (elems orig) []).

(** Every reference is copied as a struct. *)
Definition deepCopyMRef (orig : list SingleRef) : list SingleRef :=
  map (fun ref =>
         {| Beacon := Beacon ref; Href := Href ref;
            RefClassification := RefClassification ref |}) orig.

Definition deepCopyProperties (orig : PropertySchema) : PropertySchema :=
  match orig with
  | VNil => VNil
  | VMap asMap =>
      VMap (Some (fold_left
                    (fun out kv =>
                       match snd kv with
                       | VMultipleRef mref =>
                           map_set (fst kv) (VMultipleRef (deepCopyMRef mref)) out
                       | value => map_set (fst kv) value out
                       end)
                    (elems asMap) []))
  | _ => VNil
  end.

Definition deepCopyObject (orig : models.Object) : models.Object :=
  {| models.Class := models.Class orig;
     models.ID := models.ID orig;
     models.CreationTimeUnix := models.CreationTimeUnix orig;
     models.LastUpdateTimeUnix := models.LastUpdateTimeUnix orig;
     models.Vector := deepCopyVector (models.Vector orig);
     models.VectorWeights := models.VectorWeights orig;
     models.Additional := models.Additional orig;
     models.Properties := deepCopyProperties (models.Properties orig);
     models.Vectors := deepCopyVectors (models.Vectors orig) |}.

(** The fields that the literal does not name are zero in the copy. *)
Definition DeepCopyDangerous (ko : Object) : Object :=
  {| MarshallerVersion := MarshallerVersion ko;
     DocID := DocID ko;
     Object_ := deepCopyObject (Object_ ko);
     Vector := deepCopyVector (Vector ko);
     Vectors := deepCopyVectors (Vectors ko);
     VectorLen := 0; BelongsToNode := ""; BelongsToShard := "";
     IsConsistent := false |}.

(** ** Objects behind pointers

    The functions that take a [[]*Object] write into the objects that the
    pointers refer to, and two pointers of the slice may refer to the same
    object. The heap holds the objects by address; a pointer is an address, or
    nil. *)

Definition heap := list Object.
Definition pointer := option nat.

(** [*p]: nil panics. An address outside the heap does not occur in Go; it
    panics here as nil does. *)
Definition deref (h : heap) (p : pointer) : result (nat * Object) :=
  match p with
  | Some a =>
      match nth_error h a with
      | Some ko => Ok (a, ko)
      | None => Err (Panic "invalid memory address or nil pointer dereference")
      end
  | None => Err (Panic "invalid memory address or nil pointer dereference")
  end.

(** [*p = ko] at the address [a]. *)
Definition assign (h : heap) (a : nat) (ko : Object) : heap :=
  firstn a h ++ ko :: skipn (S a) h.

Definition setOwnership (ko : Object) (node shard : string) : Object :=
  {| MarshallerVersion := MarshallerVersion ko; Object_ := Object_ ko;
     Vector := Vector ko; VectorLen := VectorLen ko;
     BelongsToNode := node; BelongsToShard := shard;
     IsConsistent := IsConsistent ko; DocID := DocID ko; Vectors := Vectors ko |}.

(** [AddOwnership]: the heap after the call, or the panic of a nil
    pointer. *)
Fixpoint AddOwnership (h : heap) (objs : list pointer) (node shard : string)
  : result heap :=
  match objs with
  | [] => Ok h
  | p :: rest =>
      '(a, ko) <- deref h p ;;
      AddOwnership (assign h a (setOwnership ko node shard)) rest node shard
  end.

(** ** Search results of many objects *)

(** Modelled from the spec: the search-result envelope of section 4.6 with
    the fields [dist], [certainty] and [score] that the two convenience
    variants set ([search.Result], declared in package [entities/search]);
    [SearchResult] leaves the three at zero. *)
Record ScoredResult : Type := {
  Result_ : search.Result;
  Dist : float32;
  Certainty : float32;
  Score : float32
}.

Section Scored.

(** [float32(additional.DistToCertainty(float64(dist)))], of package
    [entities/additional]. *)
Variable DistToCertainty : float32 -> float32.

(** [elem.SearchResult(..)] through a pointer: the heap after the call and
    the result. *)
Definition SearchResultAt (h : heap) (p : pointer) (addl : additional.Properties)
  (tenant : string) : result (heap * search.Result) :=
  '(a, ko) <- deref h p ;;
  let '(ko, res) := SearchResult ko addl tenant in
  res <- res ;;
  Ok (assign h a ko, res).

Definition SearchResultWithDist (h : heap) (p : pointer)
  (addl : additional.Properties) (dist : float32) : result (heap * ScoredResult) :=
  '(h, res) <- SearchResultAt h p addl "" ;;
  Ok (h, {| Result_ := res; Dist := dist; Certainty := DistToCertainty dist;
            Score := 0 |}).

Definition SearchResultWithScoreAndTenant (h : heap) (p : pointer)
  (addl : additional.Properties) (score : float32) (tenant : string)
  : result (heap * ScoredResult) :=
  '(h, res) <- SearchResultAt h p addl tenant ;;
  Ok (h, {| Result_ := res; Dist := 0; Certainty := 0; Score := score |}).

Definition SearchResultWithScore (h : heap) (p : pointer)
  (addl : additional.Properties) (score : float32) : result (heap * ScoredResult) :=
  '(h, res) <- SearchResultAt h p addl "" ;;
  Ok (h, {| Result_ := res; Dist := 0; Certainty := 0; Score := score |}).

(** The loops fill [out[i]] for [i] from 0 on: the list of the results in
    that order. *)
Fixpoint SearchResults (h : heap) (in_ : list pointer)
  (addl : additional.Properties) (tenant : string)
  : result (heap * list search.Result) :=
  match in_ with
  | [] => Ok (h, [])
  | elem :: rest =>
      '(h, res) <- SearchResultAt h elem addl tenant ;;
      '(h, out) <- SearchResults h rest addl tenant ;;
      Ok (h, res :: out)
  end.

Fixpoint scoreLoop (h : heap) (in_ : list pointer) (i : nat) (scores : list float32)
  (addl : additional.Properties) (tenant : string)
  : result (heap * list ScoredResult) :=
  match in_ with
  | [] => Ok (h, [])
  | elem :: rest =>
      let score := if (i <? length scores)%nat then nth i scores 0 else 0 in
      '(h, res) <- SearchResultWithScoreAndTenant h elem addl score tenant ;;
      '(h, out) <- scoreLoop h rest (S i) scores addl tenant ;;
      Ok (h, res :: out)
  end.

Definition SearchResultsWithScore (h : heap) (in_ : list pointer)
  (scores : list float32) (addl : additional.Properties) (tenant : string)
  : result (heap * list ScoredResult) :=
  scoreLoop h in_ 0 scores addl tenant.

(** [dists[i]] is evaluated before the call: an index outside [dists]
    panics. *)
Fixpoint distLoop (h : heap) (in_ : list pointer) (i : nat) (dists : list float32)
  (addl : additional.Properties) : result (heap * list ScoredResult) :=
  match in_ with
  | [] => Ok (h, [])
  | elem :: rest =>
      dist <- (match nth_error dists i with
               | Some d => Ok d
               | None => Err IndexOutOfRange
               end) ;;
      '(h, res) <- SearchResultWithDist h elem addl dist ;;
      '(h, out) <- distLoop h rest (S i) dists addl ;;
      Ok (h, res :: out)
  end.

Definition SearchResultsWithDists (h : heap) (in_ : list pointer)
  (addl : additional.Properties) (dists : list float32)
  : result (heap * list ScoredResult) :=
  distLoop h in_ 0 dists addl.

End Scored.

(** ** The two halves of the projection *)

(** What the loop of [PropertiesWithAdditional] makes of an entry. *)
Definition clearRefs (kv : string * value) : string * value :=
  match snd kv with
  | VMultipleRef asRefs => (fst kv, VMultipleRef (map clearClassification asRefs))
  | _ => kv
  end.

(** The receiver as [SearchResult] leaves it: its properties are a map that
    holds the id, over what the properties held. *)
Definition projected (ko : Object) (addl : additional.Properties) : Object :=
  SetProperties ko
    (VMap (Some (map_set "id" (VUUID (ID ko))
                   (if additional.RefMeta addl then propertiesMap ko
                    else map clearRefs (propertiesMap ko))))).

(** The result that [SearchResult] builds, from the receiver as the first
    half of the call has left it. *)
Definition resultOf (ko : Object) (addl : additional.Properties) (tenant : string)
  : result search.Result :=
  let additionalProperties : propmap := [] in
  let additionalProperties :=
    match AdditionalProperties ko with
    | Some ap =>
        let a1 :=
          match map_get "interpretation" (additional.ModuleParams addl) with
          | Some (VBool true) =>
              map_set "interpretation" (index ap "interpretation") additionalProperties
          | _ => additionalProperties
          end in
        let a2 :=
          if additional.Classification addl
          then map_set "classification" (index ap "classification") a1
          else a1 in
        if additional.Group addl
        then map_set "group" (index ap "group") a2
        else a2
    | None => additionalProperties
    end in
  explainScore <- ExplainScore ko ;;
  let additionalProperties :=
    if negb (String.eqb explainScore "")
    then map_set "explainScore" (VString explainScore) additionalProperties
    else additionalProperties in
  Ok {| search.ID := ID ko;
        search.DocID := DocID ko;
        search.ClassName := Class ko;
        search.Schema := Properties ko;
        search.Vector := Vector ko;
        search.Vectors := asVectors (Vectors ko);
        search.Dims := VectorLen ko;
        search.Created := CreationTimeUnix ko;
        search.Updated := LastUpdateTimeUnix ko;
        search.AdditionalProperties := additionalProperties;
        search.ExplainScore := explainScore;
        search.IsConsistent := IsConsistent ko;
        search.Tenant := tenant |}.

(** The results of the scored variants for the results [rs] of the objects
    from the index [i] on: the score, or the distance and the certainty, of
    the index of each. *)
Definition scored (i : nat) (scores : list float32) (rs : list search.Result)
  : list ScoredResult :=
  map (fun ir => {| Result_ := snd ir; Dist := 0; Certainty := 0;
                    Score := nth (fst ir) scores 0 |})
    (combine (seq i (length rs)) rs).

Definition distanced (DistToCertainty : float32 -> float32) (i : nat)
  (dists : list float32) (rs : list search.Result) : list ScoredResult :=
  map (fun ir => {| Result_ := snd ir; Dist := nth (fst ir) dists 0;
                    Certainty := DistToCertainty (nth (fst ir) dists 0);
                    Score := 0 |})
    (combine (seq i (length rs)) rs).

(** What one call of the callback of [UnmarshalProperties] may change of the
    map: nothing under a name that is not requested, and no name comes in
    that is not requested. *)
Definition touches (aggregationProperties : list string) (m0 m1 : propmap) : Prop :=
  (forall k, ~ In k aggregationProperties -> map_get k m1 = map_get k m0) /\
  (forall k, In k (keys m1) -> In k (keys m0) \/ In k aggregationProperties).

(** ** A cursor over a buffer that was cut short *)

(** The buffer of the cursor holds the first [n] bytes of [whole], and the
    cursor stands in front of [rest], with which [whole] ends. *)
Definition Cut (whole : bytes) (n : nat) (rw : ReadWriter) (rest : bytes) : Prop :=
  exists pre,
    whole = pre ++ rest /\ Buffer rw = firstn n whole /\ Position rw = len pre.

(** ** What a fetch of many objects finds *)

(** The projection that the sequential fetch builds from the names of the
    properties. *)
Definition extractionOf (properties : option (list string))
  : option PropertyExtraction :=
  match properties with
  | Some ps => Some {| PropStrings := ps; PropStringsList := map (fun p => [p]) ps |}
  | None => None
  end.

(** The bucket holds a value under the doc id [id], whatever the scratch
    buffer it is given, and the optional decoder makes [ko] of the value. *)
Definition holds {E : Externals} (b : bucket) (addl : additional.Properties)
  (properties : option (list string)) (id : Z) (ko : Object) : Prop :=
  forall buf, exists data newBuf,
    GetBySecondaryWithBuffer b 0 (le_split 8 id) buf = (Some data, newBuf, None) /\
    FromBinaryOptional data addl (extractionOf properties) = Ok ko.

(** The fetch of the doc id [id] fails, whatever the scratch buffer: the
    bucket returns an error, or a value that the optional decoder refuses. *)
Definition fails {E : Externals} (b : bucket) (addl : additional.Properties)
  (properties : option (list string)) (id : Z) : Prop :=
  forall buf,
    match GetBySecondaryWithBuffer b 0 (le_split 8 id) buf with
    | (_, _, Some _) => True
    | (Some data, _, None) =>
        exists e, FromBinaryOptional data addl (extractionOf properties) = Err e
    | (None, _, None) => False
    end.

(** The slice of the results once the first [m] ids are fetched and all were
    found: an object in each of the first [m] slots, nil in the others. *)
Definition filledTo (obj : Z -> Object) (ids : list Z) (m : nat)
  : list (option Object) :=
  map (fun id => Some (obj id)) (firstn m ids) ++ repeat None (length ids - m).

(** ** More sample inputs *)

Module Cases.

Import Reference.

(** The encoding of [Samples.named], and what the full decoder makes of
    it. *)
Definition encoded : bytes := frameBytes (Samples.frameFor Samples.named).

Definition decoded : Object :=
  match FromBinary encoded with
  | Ok ko => ko
  | Err _ => zeroObject
  end.

(** A mask that asks for everything, and names one of the two named
    vectors. *)
Definition everything : additional.Properties :=
  {| additional.Vector := true; additional.NoProps := false;
     additional.Classification := true; additional.Group := false;
     additional.RefMeta := false; additional.ModuleParams := [];
     additional.Vectors := ["a"%string] |}.

Definition optional : Object :=
  match FromBinaryOptional encoded everything None with
  | Ok ko => ko
  | Err _ => zeroObject
  end.

(** The JSON of properties that hold a null and, after it, an array of one
    reference. *)
Definition nullThenRefs : bytes :=
  match json_Marshal
          (VMap (Some [("x"%string, VNil);
                       ("ref"%string,
                        VSlice [VMap (Some [("beacon"%string, VString "u")])])]))
  with
  | Ok b => b
  | Err _ => []
  end.

(** An object with additional properties, one of which no mask asks for,
    and a mask that asks for the classification. *)
Definition classified : Object :=
  setObject Samples.named
    {| models.Class := "Thing";
       models.ID := "11111111-1111-1111-1111-111111111111";
       models.CreationTimeUnix := 1000;
       models.LastUpdateTimeUnix := 2000;
       models.Properties := VMap (Some [("name"%string, VString "a")]);
       models.Additional :=
         Some [("classification"%string, VString "c");
               ("secret"%string, VString "s");
               ("explainScore"%string, VString "why")];
       models.VectorWeights := VNil;
       models.Vector := None;
       models.Vectors := None |}.

Definition askClassification : additional.Properties :=
  {| additional.Vector := false; additional.NoProps := false;
     additional.Classification := true; additional.Group := false;
     additional.RefMeta := false; additional.ModuleParams := [];
     additional.Vectors := [] |}.

(** A mask that asks for the additional properties and not for the
    properties. *)
Definition noProps : additional.Properties :=
  {| additional.Vector := false; additional.NoProps := true;
     additional.Classification := true; additional.Group := false;
     additional.RefMeta := false; additional.ModuleParams := [];
     additional.Vectors := [] |}.

(** The projection on the property [name]. *)
Definition onlyName : PropertyExtraction :=
  {| PropStrings := ["name"%string]; PropStringsList := [["name"%string]] |}.

(** A heap of two objects, and a slice whose first and last pointers refer
    to the same object. *)
Definition twoObjects : heap := [Samples.named; classified].

Definition pointers : list pointer := [Some 0%nat; Some 1%nat; Some 0%nat].

(** A bucket that fails on the doc id 3. *)
Definition failing : bucket :=
  {| GetBySecondaryWithBuffer := fun _ key buf =>
       if le_combine key =? 3 then (None, buf, Some (BucketFailure 5))
       else GetBySecondaryWithBuffer Samples.holed 0 key buf |}.

(** An object with a named vector of 65536 elements. *)
Definition longNamed : Object :=
  Samples.stored 7 [] (Some [("a"%string, repeat Samples.one (Z.to_nat 65536))]) VNil.

End Cases.

(** ** What the JSON library reads back *)

Section ReadBack.
Context {E : Externals}.

(** Two maps hold the same under every key, and one is nil when the other
    is. *)
Definition sameMap (a b : option propmap) : Prop :=
  (a = None <-> b = None) /\
  forall k, map_get k (elems a) = map_get k (elems b).

(** The properties [decoded] of a decoded object are the properties [orig]
    of the object that was encoded: a decoder always stores a map, which is
    nil for properties that were the nil interface or a nil map, and holds
    under every key what the map of [orig] holds. *)
Definition sameProperties (orig decoded : PropertySchema) : Prop :=
  match decoded with
  | VMap p =>
      match orig with
      | VNil => p = None
      | VMap m => sameMap m p
      | _ => False
      end
  | _ => False
  end.

(** A hit of a group with its additional properties typed by the JSON
    library: the map under [_additional] is printed and parsed as a
    [GroupHitAdditional]. *)
Definition hitTyped (hit typed : propmap) : Prop :=
  match map_get "_additional" hit with
  | Some (VMap a) =>
      exists b a',
        json_Marshal (VMap a) = Ok b /\
        json_Unmarshal_GroupHitAdditional b = Ok a' /\
        typed = map_set "_additional" (VGroupHitAdditional a') hit
  | _ => typed = hit
  end.

(** The value [typed] is what the JSON library makes of the value [generic]
    that it parsed under the key [k] of the additional properties: a JSON
    object under [classification] or [group] is printed and parsed again as
    a [Classification] or a [Group], every other value is itself. *)
Definition entryTyped (k : string) (generic typed : value) : Prop :=
  match generic with
  | VMap m =>
      if String.eqb k "classification" then
        exists b c,
          json_Marshal (VMap m) = Ok b /\
          json_Unmarshal_Classification b = Ok c /\
          typed = VClassification c
      else if String.eqb k "group" then
        exists b hits rest hits',
          json_Marshal (VMap m) = Ok b /\
          json_Unmarshal_Group b = Ok (hits, rest) /\
          Forall2 hitTyped hits hits' /\
          typed = VGroup hits' rest
      else typed = generic
  | _ => typed = generic
  end.

(** The JSON library reads the additional properties [orig] back from their
    text [meta]: the text is not empty, it parses to a map that is nil when
    [orig] is, and under every key [orig] holds the typed form of what was
    parsed. *)
Definition additionalReadBack (meta : bytes) (orig : option propmap) : Prop :=
  0 < len meta /\
  exists generic,
    json_Unmarshal_map meta = Ok generic /\
    (generic = None <-> orig = None) /\
    forall k,
      match map_get k (elems generic) with
      | Some v => exists v', map_get k (elems orig) = Some v' /\ entryTyped k v v'
      | None => map_get k (elems orig) = None
      end.

(** The JSON library and the enrichment read back what was printed for an
    object into the frame [F]: its properties, its additional properties and
    its vector weights. *)
Definition jsonReadsBack (ko : Object) (F : Frame) : Prop :=
  (exists parsed enriched,
      json_Unmarshal_map (f_props F) = Ok parsed /\
      enrichSchemaTypes parsed false = Ok enriched /\
      sameProperties (Properties ko) (VMap enriched)) /\
  additionalReadBack (f_meta F) (AdditionalProperties ko) /\
  json_Unmarshal_any (f_weights F) = Ok (VectorWeights ko).

End ReadBack.

(** An object at the boundary of the vector length. *)
Module Boundary.
(** An object with a primary vector of 65535 elements, a property and an
    additional property. *)
Definition thing : Object :=
  setObject
    (Samples.stored 7 (repeat Samples.one (Z.to_nat 65535)) None
       (VMap (Some [("name"%string, VString "a")])))
    {| models.Class := "Thing";
       models.ID := "11111111-1111-1111-1111-111111111111";
       models.CreationTimeUnix := 1000;
       models.LastUpdateTimeUnix := 2000;
       models.Properties := VMap (Some [("name"%string, VString "a")]);
       models.Additional := Some [("interpretation"%string, VString "x")];
       models.VectorWeights := VNil;
       models.Vector := None;
       models.Vectors := None |}.
End Boundary.

(** ** Reads past the end of a slice *)

(** The outcomes that stand for a read past the end of a slice: the index or
    slice expression out of range, the failure of the cursor outside its
    buffer, and the error that wraps either. None of them is raised by a
    check of the decoders themselves. *)
Fixpoint pastTheEnd (e : error) : bool :=
  match e with
  | Truncated | IndexOutOfRange => true
  | Wrapped _ cause => pastTheEnd cause
  | _ => false
  end.

(** * Properties

    ** Lengths and little-endian words *)

Lemma len_app {A} (a b : list A) : len (a ++ b) = len a + len b.
Proof. unfold len. rewrite length_app. lia. Qed.

Lemma len_nonneg {A} (a : list A) : 0 <= len a.
Proof. unfold len. lia. Qed.

Lemma len_le_split n v : len (le_split n v) = Z.of_nat n.
Proof. unfold len. now rewrite length_le_split. Qed.


Lemma le_combine_small n v :
  0 <= v < 2 ^ (Z.of_nat n * 8) -> le_combine (le_split n v) = v.
Proof. intros H. rewrite le_combine_split. now apply Z.mod_small. Qed.

Lemma le_split_mod n v : le_split n (v mod 2 ^ (Z.of_nat n * 8)) = le_split n v.
Proof.
  apply le_combine_inj.
  - now rewrite !length_le_split.
  - rewrite !le_combine_split. apply Z.mod_mod.
    apply Z.pow_nonzero; lia.
Qed.

Lemma skipn_exact {A} (pre rest : list A) : skipn (length pre) (pre ++ rest) = rest.
Proof. induction pre; cbn; auto. Qed.

Lemma firstn_exact {A} (bs rest : list A) : firstn (length bs) (bs ++ rest) = bs.
Proof. induction bs; cbn; congruence. Qed.


Lemma Rest_new data : Rest (NewReadWriter data) data.
Proof. exists []. split; reflexivity. Qed.


Lemma Rest_read rw bs rest n :
  Rest rw (bs ++ rest) -> n = len bs ->
  ReadBytesFromBuffer rw n = Ok (bs, MoveBufferPositionForward rw n).
Proof.
  intros (pre & Hb & Hp) ->. unfold ReadBytesFromBuffer, in_bounds.
  rewrite Hb, Hp, !len_app.
  pose proof (len_nonneg pre). pose proof (len_nonneg bs). pose proof (len_nonneg rest).
  replace ((0 <=? len pre) && (0 <=? len bs) && (len pre + len bs <=? len pre + (len bs + len rest)))
    with true by (symmetry; rewrite !andb_true_iff, !Z.leb_le; lia).
  unfold len. rewrite !Nat2Z.id.
  now rewrite skipn_exact, firstn_exact.
Qed.

Lemma Rest_forward rw bs rest n :
  Rest rw (bs ++ rest) -> n = len bs -> Rest (MoveBufferPositionForward rw n) rest.
Proof.
  intros (pre & Hb & Hp) ->. exists (pre ++ bs). cbn.
  rewrite Hb, Hp, len_app, app_assoc. auto.
Qed.

Lemma Rest_read_le w v rw rest :
  Rest rw (le_split w v ++ rest) -> 0 <= v < 2 ^ (Z.of_nat w * 8) ->
  read_le w rw = Ok (v, MoveBufferPositionForward rw (Z.of_nat w)).
Proof.
  intros H Hv. unfold read_le.
  rewrite (Rest_read rw (le_split w v) rest (Z.of_nat w) H) by now rewrite len_le_split.
  now rewrite le_combine_small.
Qed.

Lemma Rest_position rw rest : Rest rw rest -> Position rw = len (Buffer rw) - len rest.
Proof. intros (pre & Hb & Hp). rewrite Hb, Hp, len_app. lia. Qed.




Lemma skipn_repeat_add {A} (x : A) n k : skipn n (repeat x (n + k)) = repeat x k.
Proof. induction n; cbn; auto. Qed.

Lemma copy_filled w k bs :
  CopyBytesToBuffer (filled w (length bs + k)) bs = Ok (filled (w ++ bs) k).
Proof.
  unfold CopyBytesToBuffer, in_bounds, filled. cbn [Position Buffer].
  rewrite !len_app. unfold len at 6. rewrite repeat_length.
  pose proof (len_nonneg w). pose proof (len_nonneg bs).
  replace ((0 <=? len w) && (0 <=? len bs) && (len w + len bs <=? len w + Z.of_nat (length bs + k)))
    with true by (symmetry; unfold len in *; rewrite !andb_true_iff, !Z.leb_le; lia).
  f_equal. f_equal.
  unfold len. rewrite <- Nat2Z.inj_add, !Nat2Z.id.
  rewrite firstn_exact, skipn_app, skipn_all2 by lia.
  replace (length w + length bs - length w)%nat with (length bs) by lia.
  rewrite skipn_repeat_add, <- app_assoc. reflexivity.
Qed.


Lemma writeFloats_filled v : forall w k,
  writeFloats v (filled w (length (floatsBytes v) + k)) = Ok (filled (w ++ floatsBytes v) k).
Proof.
  induction v as [|f v IH]; intros w k; cbn [writeFloats floatsBytes flat_map].
  - now rewrite app_nil_r.
  - unfold WriteUint32. rewrite length_app, <- Nat.add_assoc.
    rewrite copy_filled. fold (floatsBytes v). rewrite IH, <- app_assoc. reflexivity.
Qed.

Lemma distinct_NoDup l : distinct l = true <-> NoDup l.
Proof.
  induction l as [|x r IH]; cbn.
  - split; auto using NoDup_nil.
  - rewrite andb_true_iff, negb_true_iff, IH. split.
    + intros [Hx Hr]. constructor; auto. intros Hin.
      assert (existsb (String.eqb x) r = true) as Ht
          by (apply existsb_exists; exists x; split; auto; apply String.eqb_refl).
      congruence.
    + intros Hn. inversion Hn as [|? ? Hx Hr]; subst. split; auto.
      destruct (existsb (String.eqb x) r) eqn:Hex; auto.
      apply existsb_exists in Hex as (y & Hy & Heq). apply String.eqb_eq in Heq. now subst.
Qed.

Lemma map_get_notin {V} k (m : list (string * V)) : ~ In k (keys m) -> map_get k m = None.
Proof.
  induction m as [|[k' v'] r IH]; cbn; auto. intros Hn.
  destruct (String.eqb_spec k k'); [ exfalso; auto | apply IH; auto ].
Qed.

Lemma map_get_in {V} k v (m : list (string * V)) :
  NoDup (keys m) -> In (k, v) m -> map_get k m = Some v.
Proof.
  induction m as [|[k' v'] r IH]; cbn; [ easy | ]. intros Hn [Heq | Hin].
  - inversion Heq; subst. now rewrite String.eqb_refl.
  - inversion Hn as [|? ? Hx Hr]; subst.
    destruct (String.eqb_spec k k') as [->|Hne]; [ | auto ].
    exfalso. apply Hx. unfold keys. apply in_map_iff. now exists (k', v).
Qed.

Lemma map_set_notin {V} k v (m : list (string * V)) :
  ~ In k (keys m) -> map_set k v m = m ++ [(k, v)].
Proof.
  induction m as [|[k' v'] r IH]; cbn; auto. intros Hn.
  destruct (String.eqb_spec k k'); [ exfalso; auto | rewrite IH; auto ].
Qed.

Lemma keys_app {V} (a b : list (string * V)) : keys (a ++ b) = keys a ++ keys b.
Proof. apply map_app. Qed.

Lemma len_floatsBytes v : len (floatsBytes v) = 4 * len v.
Proof.
  induction v as [|f v IH]; [reflexivity|].
  cbn [floatsBytes flat_map]. fold (floatsBytes v).
  rewrite len_app, len_le_split, IH. unfold len. cbn [length]. lia.
Qed.

Lemma len_recordBytes v : len (recordBytes v) = 2 + 4 * len v.
Proof. unfold recordBytes. now rewrite len_app, len_le_split, len_floatsBytes. Qed.

Lemma segmentOf_cons n v r : segmentOf ((n, v) :: r) = recordBytes v ++ segmentOf r.
Proof. reflexivity. Qed.

Lemma vectorOk_len v : vectorOk v = true -> len v <= MaxUint16.
Proof. unfold vectorOk. rewrite andb_true_iff, Z.leb_le. tauto. Qed.

Lemma gtb_false a b : a <= b -> (a >? b) = false.
Proof. intros. rewrite Z.gtb_ltb. now apply Z.ltb_ge. Qed.

Lemma assignOffsets_spec vs : forall acc seg order,
  NoDup (keys acc ++ keys vs) ->
  forallb (fun nv => vectorOk (snd nv)) vs = true ->
  0 <= seg -> seg + len (segmentOf vs) <= MaxUint32 ->
  assignOffsets vs acc seg order
  = Ok (acc ++ offsetsOf vs seg, seg + len (segmentOf vs), order ++ keys vs).
Proof.
  induction vs as [|[n v] r IH]; intros acc seg order Hnd Hok Hseg Hmax.
  - cbn. now rewrite !app_nil_r, Z.add_0_r.
  - cbn [assignOffsets offsetsOf keys map fst]. cbn [forallb snd] in Hok.
    apply andb_true_iff in Hok as [Hv Hr]. pose proof (vectorOk_len _ Hv) as Hl.
    rewrite segmentOf_cons, len_app, len_recordBytes in Hmax.
    pose proof (len_nonneg v). pose proof (len_nonneg (segmentOf r)).
    unfold maxVectorLength, maxTargetVectorsSegmentLength.
    rewrite (gtb_false (len v)), (gtb_false (seg + _)) by lia.
    rewrite map_set_notin.
    2:{ intros Hin. apply NoDup_remove_2 in Hnd. apply Hnd. apply in_or_app. now left. }
    rewrite IH; auto; try lia.
    + rewrite segmentOf_cons, len_app, len_recordBytes.
      unfold uint32, wrap. rewrite Z.mod_small by (unfold MaxUint32 in *; lia).
      rewrite <- !app_assoc. cbn [app]. rewrite <- Z.add_assoc. reflexivity.
    + rewrite keys_app. cbn [keys map fst app]. rewrite <- app_assoc. cbn [app].
      fold (keys r). fold (keys acc).
      exact Hnd.
Qed.



Lemma le_split_uint16 v : le_split 2 (uint16 v) = le_split 2 v.
Proof. exact (le_split_mod 2 v). Qed.
Lemma le_split_uint32 v : le_split 4 (uint32 v) = le_split 4 v.
Proof. exact (le_split_mod 4 v). Qed.
Lemma le_split_uint64 v : le_split 8 (uint64 v) = le_split 8 v.
Proof. exact (le_split_mod 8 v). Qed.

Lemma uint32_small v : 0 <= v <= MaxUint32 -> uint32 v = v.
Proof. intros. unfold uint32, wrap. apply Z.mod_small. unfold MaxUint32 in *. lia. Qed.
Lemma uint16_small v : 0 <= v <= MaxUint16 -> uint16 v = v.
Proof. intros. unfold uint16, wrap. apply Z.mod_small. unfold MaxUint16 in *. lia. Qed.
Lemma uint64_small v : 0 <= v < 2 ^ 64 -> uint64 v = v.
Proof. intros. unfold uint64, wrap. now apply Z.mod_small. Qed.

Lemma writeTargetVectors_filled all :
  NoDup (keys all) ->
  forall vs pre, all = pre ++ vs ->
  forall w k,
    writeTargetVectors (keys vs) all (filled w (length (segmentOf vs) + k))
    = Ok (filled (w ++ segmentOf vs) k).
Proof.
  intros Hnd vs. induction vs as [|[n v] r IH]; intros pre Hall w k.
  - cbn. now rewrite app_nil_r.
  - cbn [keys map fst writeTargetVectors].
    rewrite (map_get_in n v all Hnd) by (subst all; apply in_or_app; right; now left).
    unfold WriteUint16. rewrite le_split_uint16, segmentOf_cons.
    unfold recordBytes. rewrite !length_app, <- !Nat.add_assoc.
    rewrite copy_filled, writeFloats_filled.
    fold (keys r). rewrite (IH (pre ++ [(n, v)])) by (subst all; now rewrite <- app_assoc).
    now rewrite <- !app_assoc.
Qed.

Section EncoderFacts.
Context {E : Externals}.

Lemma marshalOffsets_named vectors offs seg :
  namedOf vectors = Ok (offs, seg) ->
  NoDup (keys (elems vectors)) ->
  forallb (fun nv => vectorOk (snd nv)) (elems vectors) = true ->
  len offs <= MaxUint32 -> len seg <= MaxUint32 ->
  marshalOffsets vectors = Ok (offs, len offs, len seg, keys (elems vectors))
  /\ seg = segmentOf (elems vectors).
Proof.
  intros Hn Hnd Hok Ho Hs. unfold namedOf, marshalOffsets in *.
  destruct vectors as [[|nv r]|]; try (inversion Hn; subst; split; reflexivity).
  cbn [elems] in *. set (vs := nv :: r) in *.
  destruct (msgpack_Marshal (offsetsOf vs 0)) as [o|] eqn:Hm; [ | discriminate ].
  inversion Hn; subst o seg; clear Hn.
  rewrite (assignOffsets_spec vs [] 0 []); auto; try lia.
  cbn [app]. rewrite Hm. cbn [wrap_error].
  unfold maxTargetVectorsOffsetsLength. rewrite gtb_false by lia.
  rewrite uint32_small by (pose proof (len_nonneg offs); lia).
  rewrite Z.add_0_l. auto.
Qed.

Lemma regionsOk_inv F :
  regionsOk F = true ->
  0 <= f_docID F < 2 ^ 64 /\ length (f_uuid F) = 16%nat /\
  int64Ok (f_create F) = true /\ int64Ok (f_update F) = true /\
  len (f_class F) <= MaxUint16 /\ len (f_props F) <= MaxUint32 /\
  len (f_meta F) <= MaxUint32 /\ len (f_weights F) <= MaxUint32 /\
  match f_named F with
  | Some (offsets, segment) => len offsets <= MaxUint32 /\ len segment <= MaxUint32
  | None => True
  end.
Proof.
  unfold regionsOk. rewrite !andb_true_iff, !Z.leb_le, Z.ltb_lt, Nat.eqb_eq.
  intros H. repeat split; try tauto.
  destruct (f_named F) as [[o s]|]; auto.
  destruct H as [_ H]. apply andb_true_iff in H. now rewrite !Z.leb_le in H.
Qed.

Lemma frameOk_inv F :
  frameOk F = true ->
  0 <= f_docID F < 2 ^ 64 /\ length (f_uuid F) = 16%nat /\
  int64Ok (f_create F) = true /\ int64Ok (f_update F) = true /\
  vectorOk (f_vector F) = true /\
  len (f_class F) <= MaxUint16 /\ len (f_props F) <= MaxUint32 /\
  len (f_meta F) <= MaxUint32 /\ len (f_weights F) <= MaxUint32 /\
  match f_named F with
  | Some (offsets, segment) => len offsets <= MaxUint32 /\ len segment <= MaxUint32
  | None => True
  end.
Proof.
  unfold frameOk. rewrite andb_true_iff. intros [Hv Hr].
  apply regionsOk_inv in Hr. tauto.
Qed.

Lemma withinLimits_inv ko F :
  withinLimits ko F = true ->
  MarshallerVersion ko = 1 /\ wellTyped ko = true /\
  forallb (fun nv => vectorOk (snd nv)) (elems (Vectors ko)) = true /\
  regionsOk F = true /\ len (frameBytes F) <= MaxUint32.
Proof.
  unfold withinLimits, frameFits. rewrite !andb_true_iff, Z.eqb_eq, Z.leb_le. tauto.
Qed.

Lemma wellTyped_inv ko :
  wellTyped ko = true ->
  0 <= DocID ko < 2 ^ 64 /\ int64Ok (CreationTimeUnix ko) = true /\
  int64Ok (LastUpdateTimeUnix ko) = true /\
  forallb float32Ok (elems (Vector ko)) = true /\
  forallb (fun nv => forallb float32Ok (snd nv)) (elems (Vectors ko)) = true /\
  NoDup (keys (elems (Vectors ko))).
Proof.
  unfold wellTyped. rewrite !andb_true_iff, distinct_NoDup, Z.leb_le, Z.ltb_lt. tauto.
Qed.

Lemma frameOf_inv ko F :
  frameOf ko = Ok F ->
  exists idBytes schema meta weights offs seg,
    uuid_Parse (ID ko) = Ok idBytes /\
    json_Marshal (Properties ko) = Ok schema /\
    json_Marshal (VMap (AdditionalProperties ko)) = Ok meta /\
    json_Marshal (VectorWeights ko) = Ok weights /\
    namedOf (Vectors ko) = Ok (offs, seg) /\
    F = {| f_docID := DocID ko; f_uuid := idBytes;
           f_create := CreationTimeUnix ko; f_update := LastUpdateTimeUnix ko;
           f_vector := elems (Vector ko);
           f_class := list_byte_of_string (Class ko);
           f_props := schema; f_meta := meta; f_weights := weights;
           f_named := Some (offs, seg) |}.
Proof.
  unfold frameOf. intros HF.
  destruct (uuid_Parse (ID ko)) as [idBytes|]; [ | discriminate ].
  destruct (json_Marshal (Properties ko)) as [schema|]; [ | discriminate ].
  destruct (json_Marshal (VMap (AdditionalProperties ko))) as [meta|]; [ | discriminate ].
  destruct (json_Marshal (VectorWeights ko)) as [weights|]; [ | discriminate ].
  destruct (namedOf (Vectors ko)) as [[offs seg]|]; [ | discriminate ].
  inversion HF. exists idBytes, schema, meta, weights, offs, seg. auto 10.
Qed.

Lemma encodes_frameOk ko F :
  frameOf ko = Ok F -> encodes ko F = true -> frameOk F = true.
Proof.
  intros HF Henc. unfold encodes in Henc. apply andb_true_iff in Henc as [Hl Hw].
  apply withinLimits_inv in Hw as (_ & Hwt & _ & Hr & _).
  apply wellTyped_inv in Hwt as (_ & _ & _ & Hvec & _).
  apply frameOf_inv in HF as (? & ? & ? & ? & ? & ? & _ & _ & _ & _ & _ & ->).
  unfold frameOk, vectorOk. cbn [f_vector]. unfold maxVectorLength in Hl.
  now rewrite Hl, Hvec, Hr.
Qed.

Lemma len_frameBytes F :
  len (frameBytes F)
  = 1 + 8 + 1 + len (f_uuid F) + 8 + 8 + 2 + 4 * len (f_vector F) +
    2 + len (f_class F) + 4 + len (f_props F) + 4 + len (f_meta F) +
    4 + len (f_weights F) + len (namedBytes (f_named F)).
Proof.
  unfold frameBytes, tailBytes.
  rewrite !len_app, !len_le_split, len_floatsBytes. lia.
Qed.

Lemma MarshalBinary_frame ko F :
  frameOf ko = Ok F -> encodes ko F = true ->
  MarshalBinary ko = (Some (frameBytes F), None).
Proof.
  intros HF Henc.
  pose proof (encodes_frameOk _ _ HF Henc) as Hok.
  unfold encodes in Henc. apply andb_true_iff in Henc as [_ Henc].
  apply withinLimits_inv in Henc as (Hver & Hwt & Hvs & _ & Hfit).
  apply wellTyped_inv in Hwt as (Hdoc & Hct & Hut & Hvec & Hnv & Hnd).
  apply frameOk_inv in Hok as (_ & Hid & _ & _ & Hv & Hcl & Hpr & Hme & Hwe & Hna).
  apply frameOf_inv in HF
    as (idBytes & schema & meta & weights & offs & seg & Hu & Hs & Hm & Hw & Hn & ->).
  cbn [f_uuid f_vector f_class f_props f_meta f_weights f_named] in *.
  destruct Hna as [Ho Hsg].
  destruct (marshalOffsets_named _ _ _ Hn Hnd Hvs Ho Hsg) as [Hmo Hseg].
  pose proof (vectorOk_len _ Hv) as Hvl.
  pose proof (len_nonneg (elems (Vector ko))).
  pose proof (len_nonneg (list_byte_of_string (Class ko))).
  pose proof (len_nonneg schema). pose proof (len_nonneg meta).
  pose proof (len_nonneg weights). pose proof (len_nonneg offs). pose proof (len_nonneg seg).
  unfold MarshalBinary.
  rewrite Hver, Hu, Hs, Hm, Hw, Hmo. cbn [negb Z.eqb Pos.eqb].
  unfold maxVectorLength, maxClassNameLength, maxSchemaLength, maxMetaLength,
    maxVectorWeightsLength.
  rewrite !gtb_false by lia.
  cbv zeta.
  rewrite (uint32_small (len (elems (Vector ko)))) by (unfold MaxUint16, MaxUint32 in *; lia).
  rewrite (uint32_small (len (list_byte_of_string (Class ko)))) by (unfold MaxUint16, MaxUint32 in *; lia).
  rewrite (uint32_small (len schema)), (uint32_small (len meta)),
    (uint32_small (len weights)), (uint32_small (len seg)) by lia.
  match goal with |- context [repeat Byte.x00 (Z.to_nat ?t)] =>
    replace t with (len (frameBytes
       {| f_docID := DocID ko; f_uuid := idBytes; f_create := CreationTimeUnix ko;
          f_update := LastUpdateTimeUnix ko; f_vector := elems (Vector ko);
          f_class := list_byte_of_string (Class ko); f_props := schema;
          f_meta := meta; f_weights := weights; f_named := Some (offs, seg) |}))
  end.
  2:{ rewrite uint32_small.
      - rewrite len_frameBytes. cbn [f_uuid f_vector f_class f_props f_meta f_weights f_named namedBytes].
        rewrite !len_app, !len_le_split. unfold len at 1. rewrite Hid. lia.
      - rewrite len_frameBytes in Hfit. cbn [f_uuid f_vector f_class f_props f_meta f_weights f_named namedBytes] in Hfit.
        rewrite !len_app, !len_le_split in Hfit. unfold len in Hfit at 1. rewrite Hid in Hfit. lia. }
  unfold len at 1. rewrite Nat2Z.id.
  change (NewReadWriter (repeat Byte.x00 ?n)) with (filled [] n).
  rewrite <- (app_nil_r (frameBytes _)) at 1.
  unfold frameBytes at 1, tailBytes, namedBytes.
  cbn [f_docID f_uuid f_create f_update f_vector f_class f_props f_meta f_weights f_named].
  rewrite <- !app_assoc, !length_app.
  unfold WriteByte, WriteUint64, WriteUint32, WriteUint16.
  rewrite ?le_split_uint64, ?le_split_uint32, ?le_split_uint16.
  rewrite !copy_filled, writeFloats_filled, !copy_filled.
  change (length (@nil byte)) with 0%nat. subst seg.
  assert (Hfin : forall w : bytes,
             Buffer (filled (w ++ segmentOf (elems (Vectors ko))) 0)
             = w ++ segmentOf (elems (Vectors ko))).
  { intros w. unfold filled. cbn [Buffer repeat]. now rewrite app_nil_r. }
  destruct offs as [|b offs].
  - change (len (@nil byte) >? 0) with false. cbv beta iota.
    change (length (@nil byte) + ?x)%nat with x.
    rewrite copy_filled, (writeTargetVectors_filled _ Hnd _ []) by reflexivity.
    rewrite Hfin. now rewrite <- !app_assoc.
  - rewrite (proj2 (Z.gtb_lt _ _)) by (unfold len; cbn [length]; lia).
    rewrite !copy_filled, (writeTargetVectors_filled _ Hnd _ []) by reflexivity.
    rewrite Hfin. now rewrite <- !app_assoc.
Qed.
End EncoderFacts.



Lemma Rest_ReadUint8 v rw rest :
  Rest rw (le_split 1 v ++ rest) -> 0 <= v < 256 ->
  ReadUint8 rw = Ok (v, MoveBufferPositionForward rw 1)
  /\ Rest (MoveBufferPositionForward rw 1) rest.
Proof.
  intros H Hv. split.
  - apply (Rest_read_le 1 v rw rest H). exact Hv.
  - apply (Rest_forward rw _ _ _ H). now rewrite len_le_split.
Qed.

Lemma Rest_ReadUint16 v rw rest :
  Rest rw (le_split 2 v ++ rest) -> 0 <= v <= MaxUint16 ->
  ReadUint16 rw = Ok (v, MoveBufferPositionForward rw 2)
  /\ Rest (MoveBufferPositionForward rw 2) rest.
Proof.
  intros H Hv. split.
  - apply (Rest_read_le 2 v rw rest H).
    change (2 ^ (Z.of_nat 2 * 8)) with 65536. unfold MaxUint16 in Hv. lia.
  - apply (Rest_forward rw _ _ _ H). now rewrite len_le_split.
Qed.

Lemma Rest_ReadUint32 v rw rest :
  Rest rw (le_split 4 v ++ rest) -> 0 <= v <= MaxUint32 ->
  ReadUint32 rw = Ok (v, MoveBufferPositionForward rw 4)
  /\ Rest (MoveBufferPositionForward rw 4) rest.
Proof.
  intros H Hv. split.
  - apply (Rest_read_le 4 v rw rest H).
    change (2 ^ (Z.of_nat 4 * 8)) with 4294967296. unfold MaxUint32 in Hv. lia.
  - apply (Rest_forward rw _ _ _ H). now rewrite len_le_split.
Qed.

Lemma Rest_ReadUint64 v rw rest :
  Rest rw (le_split 8 v ++ rest) -> 0 <= v < 2 ^ 64 ->
  ReadUint64 rw = Ok (v, MoveBufferPositionForward rw 8)
  /\ Rest (MoveBufferPositionForward rw 8) rest.
Proof.
  intros H Hv. split.
  - apply (Rest_read_le 8 v rw rest H). exact Hv.
  - apply (Rest_forward rw _ _ _ H). now rewrite len_le_split.
Qed.

Lemma Rest_ReadBytes bs rw rest n :
  Rest rw (bs ++ rest) -> n = len bs ->
  ReadBytesFromBuffer rw n = Ok (bs, MoveBufferPositionForward rw n)
  /\ Rest (MoveBufferPositionForward rw n) rest.
Proof.
  intros H Hn. split.
  - now apply (Rest_read rw bs rest).
  - now apply (Rest_forward rw bs rest).
Qed.

Lemma forward_forward rw a b :
  MoveBufferPositionForward (MoveBufferPositionForward rw a) b
  = MoveBufferPositionForward rw (a + b).
Proof. unfold MoveBufferPositionForward. cbn. f_equal. lia. Qed.

Lemma float32Ok_range f : float32Ok f = true -> 0 <= f <= MaxUint32.
Proof.
  unfold float32Ok, MaxUint32. rewrite andb_true_iff, Z.leb_le, Z.ltb_lt. lia.
Qed.

Lemma readFloats_Rest v : forall rw rest,
  forallb float32Ok v = true ->
  Rest rw (floatsBytes v ++ rest) ->
  readFloats (length v) rw = Ok (v, MoveBufferPositionForward rw (len (floatsBytes v))).
Proof.
  induction v as [|f v IH]; intros rw rest Hok R.
  - cbn. do 2 f_equal. destruct rw. unfold MoveBufferPositionForward. cbn. f_equal. lia.
  - cbn [forallb] in Hok. apply andb_true_iff in Hok as [Hf Hv].
    cbn [floatsBytes flat_map] in R. fold (floatsBytes v) in R. rewrite <- app_assoc in R.
    cbn [length readFloats].
    destruct (Rest_ReadUint32 _ _ _ R (float32Ok_range _ Hf)) as [-> R'].
    rewrite (IH _ _ Hv R'), forward_forward.
    cbn [floatsBytes flat_map]. fold (floatsBytes v).
    rewrite len_app, len_le_split. reflexivity.
Qed.

Lemma decodeFloats_floatsBytes v rest :
  forallb float32Ok v = true ->
  decodeFloats (length v) (floatsBytes v ++ rest) = v.
Proof.
  induction v as [|f v IH]; intros Hok; [ reflexivity | ].
  cbn [forallb] in Hok. apply andb_true_iff in Hok as [Hf Hv].
  cbn [length decodeFloats floatsBytes flat_map]. fold (floatsBytes v).
  rewrite <- app_assoc.
  rewrite (firstn_exact (le_split 4 (Float32bits f)) (floatsBytes v ++ rest)
           : firstn 4 _ = _).
  rewrite (skipn_exact (le_split 4 (Float32bits f)) (floatsBytes v ++ rest)
           : skipn 4 _ = _).
  rewrite IH by auto.
  rewrite le_combine_small; [ reflexivity | ].
  apply float32Ok_range in Hf. unfold MaxUint32 in Hf.
  change (2 ^ (Z.of_nat 4 * 8)) with 4294967296. unfold Float32bits. lia.
Qed.

Lemma int64_uint64 t : int64Ok t = true -> int64 (uint64 t) = t.
Proof.
  unfold int64Ok, int64, uint64, wrap. rewrite andb_true_iff, Z.leb_le, Z.ltb_lt.
  intros [Hl Hh]. rewrite Z.mod_mod by lia.
  destruct (Z.ltb_spec (t mod 2 ^ 64) (2 ^ 63)) as [H|H].
  - destruct (Z_lt_le_dec t 0).
    + rewrite <- (Z_mod_plus_full t 1 (2 ^ 64)) in H. rewrite Z.mod_small in H by lia. lia.
    + now rewrite Z.mod_small by lia.
  - destruct (Z_lt_le_dec t 0).
    + rewrite <- (Z_mod_plus_full t 1 (2 ^ 64)). rewrite Z.mod_small by lia. lia.
    + rewrite Z.mod_small in H by lia. lia.
Qed.

Lemma uint64_range v : 0 <= uint64 v < 2 ^ 64.
Proof. unfold uint64, wrap. apply Z.mod_pos_bound. lia. Qed.

Lemma Rest_eq rw rest :
  Rest rw rest ->
  rw = {| Position := len (Buffer rw) - len rest; Buffer := Buffer rw |}.
Proof.
  intros R. rewrite <- (Rest_position rw rest R). now destruct rw.
Qed.



Ltac lens :=
  repeat match goal with
         | |- context [len ?l] =>
             lazymatch goal with
             | _ : 0 <= len l |- _ => fail
             | _ => pose proof (len_nonneg l)
             end
         end.

Ltac bound := unfold MaxUint16, MaxUint32 in *; lia.


Lemma frameBytes_eq F :
  frameBytes F =
  le_split 1 1 ++ le_split 8 (f_docID F) ++ le_split 1 1 ++ f_uuid F ++
  le_split 8 (uint64 (f_create F)) ++ le_split 8 (uint64 (f_update F)) ++
  le_split 2 (len (f_vector F)) ++ floatsBytes (f_vector F) ++
  le_split 2 (len (f_class F)) ++ f_class F ++
  le_split 4 (len (f_props F)) ++ f_props F ++
  le_split 4 (len (f_meta F)) ++ f_meta F ++
  le_split 4 (len (f_weights F)) ++ f_weights F ++
  namedBytes (f_named F).
Proof. now rewrite !le_split_uint64. Qed.

Lemma Rest_atNamed F rw :
  Rest rw (namedBytes (f_named F)) -> Buffer rw = frameBytes F -> rw = atNamed F.
Proof.
  intros R HB. rewrite (Rest_eq rw _ R), HB. reflexivity.
Qed.

Section OptionalDecoderFacts.
Context {E : Externals}.

Lemma FromBinaryOptional_frame F addProp properties :
  frameOk F = true ->
  FromBinaryOptional (frameBytes F) addProp properties =
    let ko := headerObject F (if additional.Vector addProp
                              then Some (f_vector F) else None) in
    match (if len (additional.Vectors addProp) >? 0
           then
             '(vectors, rw) <- unmarshalTargetVectors (atNamed F) ;;
             let ko := setVectors ko vectors in
             match vectors with
             | Some vs =>
                 Ok (setObject ko (setObjectVectors (Object_ ko) (Some (copy_map vs))), rw)
             | None => Ok (ko, rw)
             end
           else Ok (ko, atNamed F)) with
    | Ok (ko, _) =>
        if needsEnrichment (maskedProps addProp F) (maskedMeta addProp F)
             (f_weights F) (len (f_weights F))
        then
          wrap_error "parse"
            (parseObject ko (uuid_String (f_uuid F)) (f_create F) (f_update F)
               (string_of_list_byte (f_class F))
               (maskedProps addProp F) (maskedMeta addProp F) (f_weights F)
               properties (len (f_props F)))
        else
          Ok (setObject ko
                (setIdentity (Object_ ko) (uuid_String (f_uuid F))
                   (f_create F) (f_update F) (string_of_list_byte (f_class F))))
    | Err e => Err e
    end.
Proof.
  intros Hok.
  apply frameOk_inv in Hok as (Hdoc & Hid & Hct & Hut & Hv & Hcl & Hpr & Hme & Hwe & Hna).
  pose proof (vectorOk_len _ Hv) as Hvl.
  assert (Hvf : forallb float32Ok (f_vector F) = true)
    by (unfold vectorOk in Hv; apply andb_true_iff in Hv; tauto).
  pose proof (len_nonneg (f_vector F)). pose proof (len_nonneg (f_class F)).
  pose proof (len_nonneg (f_props F)). pose proof (len_nonneg (f_meta F)).
  pose proof (len_nonneg (f_weights F)).
  unfold FromBinaryOptional.
  remember (frameBytes F) as B eqn:HB.
  assert (R : Rest (NewReadWriter B) B) by apply Rest_new.
  assert (HBuf : Buffer (NewReadWriter B) = B) by reflexivity.
  remember (NewReadWriter B) as rw0 eqn:Hrw0. clear Hrw0.
  rewrite HB, frameBytes_eq in R.
  destruct (Rest_ReadUint8 _ _ _ R ltac:(lia)) as [-> R1]. clear R.
  cbv zeta. cbn [MarshallerVersion setMarshallerVersion negb Z.eqb Pos.eqb].
  destruct (Rest_ReadUint64 _ _ _ R1 Hdoc) as [-> R2]. clear R1.
  apply (Rest_forward _ _ _ 1) in R2; [ | reflexivity ].
  destruct (Rest_ReadBytes _ _ _ 16 R2 ltac:(unfold len; now rewrite Hid)) as [-> R3]. clear R2.
  unfold uuid_FromBytes. rewrite Hid. cbn [Nat.eqb wrap_error].
  destruct (Rest_ReadUint64 _ _ _ R3 (uint64_range _)) as [-> R4]. clear R3.
  destruct (Rest_ReadUint64 _ _ _ R4 (uint64_range _)) as [-> R5]. clear R4.
  rewrite !int64_uint64 by assumption.
  destruct (Rest_ReadUint16 _ _ _ R5 ltac:(lia)) as [-> R6]. clear R5.
  rewrite (uint64_small (len (f_vector F))) by bound.
  destruct (Rest_ReadBytes _ _ _ (len (f_vector F) * 4) R6
              ltac:(rewrite len_floatsBytes; lia)) as [Hrd R7]. clear R6.
  match type of R7 with Rest ?rw _ => match goal with
  | |- context [if additional.Vector addProp then ?a else ?b] =>
      replace (if additional.Vector addProp then a else b)
        with (Ok ((if additional.Vector addProp then Some (f_vector F) else None), rw))
  end end.
  2:{ destruct (additional.Vector addProp); [ | reflexivity ].
      rewrite Hrd. unfold len at 2. rewrite Nat2Z.id.
      rewrite <- (app_nil_r (floatsBytes (f_vector F))), decodeFloats_floatsBytes; auto. }
  clear Hrd.
  destruct (Rest_ReadUint16 _ _ _ R7 ltac:(lia)) as [-> R8]. clear R7.
  rewrite (uint64_small (len (f_class F))) by bound.
  destruct (Rest_ReadBytes _ _ _ (len (f_class F)) R8 eq_refl) as [-> R9]. clear R8.
  destruct (Rest_ReadUint32 _ _ _ R9 ltac:(lia)) as [-> R10]. clear R9.
  rewrite (uint64_small (len (f_props F))) by bound.
  destruct (Rest_ReadBytes _ _ _ (len (f_props F)) R10 eq_refl) as [Hrd R11]. clear R10.
  match type of R11 with Rest ?rw _ => match goal with
  | |- context [if additional.NoProps addProp then ?a else ?b] =>
      replace (if additional.NoProps addProp then a else b)
        with (Ok (maskedProps addProp F, rw))
  end end.
  2:{ unfold maskedProps. destruct (additional.NoProps addProp); [ reflexivity | ].
      now rewrite Hrd. }
  clear Hrd.
  destruct (Rest_ReadUint32 _ _ _ R11 ltac:(lia)) as [-> R12]. clear R11.
  rewrite (uint64_small (len (f_meta F))) by bound.
  destruct (Rest_ReadBytes _ _ _ (len (f_meta F)) R12 eq_refl) as [Hrd R13]. clear R12.
  match type of R13 with Rest ?rw _ => match goal with
  | |- context [if additional.Classification addProp || ?c then ?a else ?b] =>
      replace (if additional.Classification addProp || c then a else b)
        with (Ok (maskedMeta addProp F, rw))
  end end.
  2:{ unfold maskedMeta.
      destruct (additional.Classification addProp
                || (len (additional.ModuleParams addProp) >? 0)); [ | reflexivity ].
      now rewrite Hrd. }
  clear Hrd.
  destruct (Rest_ReadUint32 _ _ _ R13 ltac:(lia)) as [-> R14]. clear R13.
  rewrite (uint64_small (len (f_weights F))) by bound.
  destruct (Rest_ReadBytes _ _ _ (len (f_weights F)) R14 eq_refl) as [-> R15]. clear R14.
  rewrite (Rest_atNamed F _ R15) by (cbn [Buffer MoveBufferPositionForward]; congruence).
  reflexivity.
Qed.
End OptionalDecoderFacts.



Lemma Rest_subslice rw bs rest B n :
  Rest rw (bs ++ rest) -> Buffer rw = B -> n = len bs ->
  subslice B (Position rw) (Position rw + n) = Ok bs.
Proof.
  intros (pre & Hb & Hp) HB ->. unfold subslice. rewrite <- HB, Hb, Hp, !len_app.
  pose proof (len_nonneg pre). pose proof (len_nonneg bs). pose proof (len_nonneg rest).
  replace ((0 <=? len pre) && (len pre <=? len pre + len bs)
           && (len pre + len bs <=? len pre + (len bs + len rest)))
    with true by (symmetry; rewrite !andb_true_iff, !Z.leb_le; lia).
  replace (len pre + len bs - len pre) with (len bs) by lia.
  unfold len. rewrite !Nat2Z.id. now rewrite skipn_exact, firstn_exact.
Qed.

Lemma Rest_with pre rest pos B :
  B = pre ++ rest -> pos = len pre -> Rest (WithPosition pos (NewReadWriter B)) rest.
Proof. intros -> ->. exists pre. split; reflexivity. Qed.


Section DecoderFacts.
Context {E : Externals}.

Lemma UnmarshalBinary_frame ko F :
  frameOk F = true ->
  UnmarshalBinary ko (frameBytes F) =
    '(vectors, _) <- unmarshalTargetVectors (atNamed F) ;;
    parseObject
      (setVectors
         (setVector
            (setVectorLen (SetDocID (setMarshallerVersion ko 1) (f_docID F))
               (len (f_vector F)))
            (Some (f_vector F)))
         vectors)
      (uuid_String (f_uuid F)) (f_create F) (f_update F)
      (string_of_list_byte (f_class F))
      (f_props F) (f_meta F) (f_weights F) None 0.
Proof.
  intros Hok.
  apply frameOk_inv in Hok as (Hdoc & Hid & Hct & Hut & Hv & Hcl & Hpr & Hme & Hwe & Hna).
  pose proof (vectorOk_len _ Hv) as Hvl.
  assert (Hvf : forallb float32Ok (f_vector F) = true)
    by (unfold vectorOk in Hv; apply andb_true_iff in Hv; tauto).
  pose proof (len_nonneg (f_vector F)). pose proof (len_nonneg (f_class F)).
  pose proof (len_nonneg (f_props F)). pose proof (len_nonneg (f_meta F)).
  pose proof (len_nonneg (f_weights F)).
  unfold UnmarshalBinary.
  assert (R : Rest (WithPosition 1 (NewReadWriter (frameBytes F)))
                (le_split 8 (f_docID F) ++ le_split 1 1 ++ f_uuid F ++
                 le_split 8 (uint64 (f_create F)) ++ le_split 8 (uint64 (f_update F)) ++
                 le_split 2 (len (f_vector F)) ++ floatsBytes (f_vector F) ++
                 le_split 2 (len (f_class F)) ++ f_class F ++
                 le_split 4 (len (f_props F)) ++ f_props F ++
                 le_split 4 (len (f_meta F)) ++ f_meta F ++
                 le_split 4 (len (f_weights F)) ++ f_weights F ++
                 namedBytes (f_named F))).
  { apply (Rest_with (le_split 1 1)); [ apply frameBytes_eq | reflexivity ]. }
  assert (HBuf : Buffer (WithPosition 1 (NewReadWriter (frameBytes F))) = frameBytes F)
    by reflexivity.
  remember (WithPosition 1 (NewReadWriter (frameBytes F))) as rw0 eqn:Hrw0. clear Hrw0.
  replace (match frameBytes F with
           | [] => Err IndexOutOfRange
           | b :: _ => Ok (byte.unsigned b)
           end) with (@Ok Z 1) by reflexivity.
  cbv zeta. cbn [negb Z.eqb Pos.eqb].
  destruct (Rest_ReadUint64 _ _ _ R Hdoc) as [-> R2]. clear R.
  apply (Rest_forward _ _ _ 1) in R2; [ | reflexivity ].
  rewrite (Rest_subslice _ _ _ (frameBytes F) 16 R2)
    by (auto; unfold len; now rewrite Hid).
  unfold uuid_FromBytes. rewrite Hid. cbn [Nat.eqb].
  apply (Rest_forward _ _ _ 16) in R2; [ | unfold len; now rewrite Hid ].
  destruct (Rest_ReadUint64 _ _ _ R2 (uint64_range _)) as [-> R4]. clear R2.
  destruct (Rest_ReadUint64 _ _ _ R4 (uint64_range _)) as [-> R5]. clear R4.
  rewrite !int64_uint64 by assumption.
  destruct (Rest_ReadUint16 _ _ _ R5 ltac:(lia)) as [-> R6]. clear R5.
  unfold len at 1. rewrite Nat2Z.id.
  rewrite (readFloats_Rest _ _ _ Hvf R6).
  apply (Rest_forward _ _ _ (len (floatsBytes (f_vector F)))) in R6; [ | reflexivity ].
  destruct (Rest_ReadUint16 _ _ _ R6 ltac:(lia)) as [-> R8]. clear R6.
  unfold CopyBytesFromBuffer.
  rewrite (uint64_small (len (f_class F))) by bound.
  destruct (Rest_ReadBytes _ _ _ (len (f_class F)) R8 eq_refl) as [-> R9]. clear R8.
  cbn [wrap_error].
  destruct (Rest_ReadUint32 _ _ _ R9 ltac:(lia)) as [-> R10]. clear R9.
  rewrite (uint64_small (len (f_props F))) by bound.
  destruct (Rest_ReadBytes _ _ _ (len (f_props F)) R10 eq_refl) as [-> R11]. clear R10.
  cbn [wrap_error].
  destruct (Rest_ReadUint32 _ _ _ R11 ltac:(lia)) as [-> R12]. clear R11.
  rewrite (uint64_small (len (f_meta F))) by bound.
  destruct (Rest_ReadBytes _ _ _ (len (f_meta F)) R12 eq_refl) as [-> R13]. clear R12.
  cbn [wrap_error].
  destruct (Rest_ReadUint32 _ _ _ R13 ltac:(lia)) as [-> R14]. clear R13.
  rewrite (uint64_small (len (f_weights F))) by bound.
  destruct (Rest_ReadBytes _ _ _ (len (f_weights F)) R14 eq_refl) as [-> R15]. clear R14.
  cbn [wrap_error].
  rewrite (Rest_atNamed F _ R15) by (cbn [Buffer MoveBufferPositionForward]; congruence).
  reflexivity.
Qed.

Lemma VectorFromBinary_named_frame F buffer targetVector :
  frameOk F = true -> targetVector <> ""%string ->
  VectorFromBinary (frameBytes F) buffer targetVector =
    match unmarshalTargetVectors (atNamed F) with
    | Err _ => Err (TargetVectorUnreadable targetVector)
    | Ok (targetVectors, _) =>
        match map_get targetVector (elems targetVectors) with
        | Some vector => Ok (Some vector)
        | None => Err (NotFound targetVector)
        end
    end.
Proof.
  intros Hok Hne.
  apply frameOk_inv in Hok as (Hdoc & Hid & Hct & Hut & Hv & Hcl & Hpr & Hme & Hwe & Hna).
  pose proof (vectorOk_len _ Hv) as Hvl.
  pose proof (len_nonneg (f_vector F)). pose proof (len_nonneg (f_class F)).
  pose proof (len_nonneg (f_props F)). pose proof (len_nonneg (f_meta F)).
  pose proof (len_nonneg (f_weights F)).
  unfold VectorFromBinary.
  replace (len (frameBytes F) =? 0) with false.
  2:{ symmetry. apply Z.eqb_neq. rewrite len_frameBytes.
      pose proof (len_nonneg (f_uuid F)).
      pose proof (len_nonneg (namedBytes (f_named F))). lia. }
  replace (match frameBytes F with
           | [] => Err IndexOutOfRange
           | b :: _ => Ok (byte.unsigned b)
           end) with (@Ok Z 1) by reflexivity.
  cbn [negb Z.eqb Pos.eqb].
  replace (String.eqb targetVector "") with false
    by (symmetry; now apply String.eqb_neq).
  cbn [negb]. cbv zeta.
  assert (R : Rest (WithPosition (1 + 8 + 1 + 16 + 8 + 8) (NewReadWriter (frameBytes F)))
                (le_split 2 (len (f_vector F)) ++ floatsBytes (f_vector F) ++
                 le_split 2 (len (f_class F)) ++ f_class F ++
                 le_split 4 (len (f_props F)) ++ f_props F ++
                 le_split 4 (len (f_meta F)) ++ f_meta F ++
                 le_split 4 (len (f_weights F)) ++ f_weights F ++
                 namedBytes (f_named F))).
  { apply (Rest_with (le_split 1 1 ++ le_split 8 (f_docID F) ++ le_split 1 1 ++
                      f_uuid F ++ le_split 8 (f_create F) ++ le_split 8 (f_update F))).
    - unfold frameBytes, tailBytes. now rewrite <- !app_assoc.
    - rewrite !len_app, !len_le_split. unfold len. rewrite Hid. reflexivity. }
  assert (HBuf : Buffer (WithPosition (1 + 8 + 1 + 16 + 8 + 8)
                           (NewReadWriter (frameBytes F))) = frameBytes F) by reflexivity.
  remember (WithPosition (1 + 8 + 1 + 16 + 8 + 8) (NewReadWriter (frameBytes F)))
    as rw0 eqn:Hrw0. clear Hrw0.
  destruct (Rest_ReadUint16 _ _ _ R ltac:(lia)) as [-> R1]. clear R.
  rewrite (uint64_small (len (f_vector F))) by bound.
  apply (Rest_forward _ _ _ (len (f_vector F) * 4)) in R1;
    [ | rewrite len_floatsBytes; lia ].
  destruct (Rest_ReadUint16 _ _ _ R1 ltac:(lia)) as [-> R2]. clear R1.
  rewrite (uint64_small (len (f_class F))) by bound.
  apply (Rest_forward _ _ _ (len (f_class F))) in R2; [ | reflexivity ].
  destruct (Rest_ReadUint32 _ _ _ R2 ltac:(lia)) as [-> R3]. clear R2.
  rewrite (uint64_small (len (f_props F))) by bound.
  apply (Rest_forward _ _ _ (len (f_props F))) in R3; [ | reflexivity ].
  destruct (Rest_ReadUint32 _ _ _ R3 ltac:(lia)) as [-> R4]. clear R3.
  rewrite (uint64_small (len (f_meta F))) by bound.
  apply (Rest_forward _ _ _ (len (f_meta F))) in R4; [ | reflexivity ].
  destruct (Rest_ReadUint32 _ _ _ R4 ltac:(lia)) as [-> R5]. clear R4.
  rewrite (uint64_small (len (f_weights F))) by bound.
  apply (Rest_forward _ _ _ (len (f_weights F))) in R5; [ | reflexivity ].
  rewrite (Rest_atNamed F _ R5) by (cbn [Buffer MoveBufferPositionForward]; congruence).
  reflexivity.
Qed.
End DecoderFacts.




Lemma Rest_atNamed_intro F : Rest (atNamed F) (namedBytes (f_named F)).
Proof.
  unfold atNamed, frameBytes, tailBytes. repeat rewrite app_assoc.
  eexists. split; [ reflexivity | ]. cbn [Position]. rewrite len_app. lia.
Qed.

Lemma map_get_map_set {V} k n (v : V) m :
  map_get k (map_set n v m) = if String.eqb k n then Some v else map_get k m.
Proof.
  induction m as [|[k' v'] r IH]; cbn.
  - reflexivity.
  - destruct (String.eqb_spec n k') as [->|Hn]; cbn.
    + destruct (String.eqb k k'); reflexivity.
    + rewrite IH. destruct (String.eqb_spec k k') as [->|Hk]; [ | reflexivity ].
      destruct (String.eqb_spec k' n); [ congruence | reflexivity ].
Qed.

Lemma to_nat_len {A} (l : list A) : Z.to_nat (len l) = length l.
Proof. unfold len. apply Nat2Z.id. Qed.

Section NamedVectorFacts.
Context {E : Externals}.

Lemma unmarshalTargetVectors_absent F :
  f_named F = None -> unmarshalTargetVectors (atNamed F) = Ok (None, atNamed F).
Proof.
  intros Hn. unfold unmarshalTargetVectors, atNamed. cbn [Position Buffer].
  rewrite Hn. cbn [namedBytes]. change (len (@nil byte)) with 0.
  rewrite Z.sub_0_r, Z.ltb_irrefl. reflexivity.
Qed.

Lemma atNamed_inside F o s :
  f_named F = Some (o, s) ->
  (Position (atNamed F) <? len (Buffer (atNamed F))) = true.
Proof.
  intros Hn. unfold atNamed. cbn [Position Buffer]. rewrite Hn. cbn [namedBytes].
  rewrite !len_app, !len_le_split. apply Z.ltb_lt.
  pose proof (len_nonneg o). pose proof (len_nonneg s). lia.
Qed.

Lemma unmarshalTargetVectors_empty F seg :
  f_named F = Some ([], seg) -> len seg <= MaxUint32 ->
  exists rw, unmarshalTargetVectors (atNamed F) = Ok (None, rw).
Proof.
  intros Hn Hs. pose proof (Rest_atNamed_intro F) as R. rewrite Hn in R.
  cbn [namedBytes app] in R.
  unfold unmarshalTargetVectors. rewrite (atNamed_inside F _ _ Hn).
  unfold ReadBytesFromBufferWithUint32LengthIndicator.
  change (len (@nil byte)) with 0 in R.
  destruct (Rest_ReadUint32 _ _ _ R ltac:(bound)) as [-> R1]. clear R.
  destruct (Rest_ReadBytes [] _ _ 0 R1 eq_refl) as [-> R2]. clear R1.
  pose proof (len_nonneg seg).
  destruct (Rest_ReadUint32 _ _ _ R2 ltac:(lia)) as [-> R3].
  change (len (@nil byte) >? 0) with false. cbv beta iota zeta. eauto.
Qed.

Lemma readTargetVectors_spec B pre seg vs :
  B = pre ++ seg ->
  forall tv acc rw,
    Buffer rw = B ->
    (forall n off, In (n, off) tv ->
       exists v, map_get n vs = Some v /\ recordAt seg off v /\
                 vectorOk v = true) ->
    exists res rw',
      readTargetVectors tv (len pre) acc rw = Ok (res, rw') /\
      Buffer rw' = B /\
      forall k, map_get k res
                = if existsb (String.eqb k) (keys tv) then map_get k vs
                  else map_get k acc.
Proof.
  intros HB tv. induction tv as [|[n off] r IH]; intros acc rw Hbuf Hin.
  - exists acc, rw. cbn. auto.
  - destruct (Hin n off (or_introl eq_refl)) as (v & Hget & (s1 & s2 & Hseg & Hoff) & Hv).
    cbn [readTargetVectors].
    assert (R : Rest (MoveBufferToAbsolutePosition rw (len pre + off))
                  (le_split 2 (len v) ++ floatsBytes v ++ s2)).
    { exists (pre ++ s1). cbn [Buffer Position MoveBufferToAbsolutePosition]. split.
      - rewrite Hbuf, HB, Hseg. unfold recordBytes. now rewrite <- !app_assoc.
      - rewrite len_app. lia. }
    pose proof (len_nonneg v). pose proof (vectorOk_len _ Hv).
    assert (Hvf : forallb float32Ok v = true)
      by (unfold vectorOk in Hv; apply andb_true_iff in Hv; tauto).
    destruct (Rest_ReadUint16 _ _ _ R ltac:(lia)) as [-> R1].
    rewrite to_nat_len, (readFloats_Rest _ _ _ Hvf R1).
    destruct (IH (map_set n v acc)
                (MoveBufferPositionForward
                   (MoveBufferPositionForward
                      (MoveBufferToAbsolutePosition rw (len pre + off)) 2)
                   (len (floatsBytes v))))
      as (res & rw' & Hrd & Hb' & Hres).
    + exact Hbuf.
    + intros n' off' H'. apply Hin. now right.
    + exists res, rw'. split; [ exact Hrd | split; [ exact Hb' | ] ].
      intros k. rewrite Hres, map_get_map_set. cbn [keys map fst existsb].
      fold (keys r).
      destruct (String.eqb_spec k n) as [->|Hk]; cbn [orb].
      * destruct (existsb (String.eqb n) (keys r)); auto.
      * reflexivity.
Qed.

Lemma unmarshalTargetVectors_named F offs seg tv vs :
  f_named F = Some (offs, seg) -> offs <> [] ->
  len offs <= MaxUint32 -> len seg <= MaxUint32 ->
  msgpack_Unmarshal offs = Ok tv ->
  (forall n off, In (n, off) tv ->
     exists v, map_get n vs = Some v /\ recordAt seg off v /\ vectorOk v = true) ->
  exists res rw,
    unmarshalTargetVectors (atNamed F) = Ok (Some res, rw) /\
    forall k, map_get k res
              = if existsb (String.eqb k) (keys tv) then map_get k vs else None.
Proof.
  intros Hn Hne Ho Hs Hm Hin.
  pose proof (Rest_atNamed_intro F) as R. rewrite Hn in R. cbn [namedBytes] in R.
  unfold unmarshalTargetVectors. rewrite (atNamed_inside F _ _ Hn).
  unfold ReadBytesFromBufferWithUint32LengthIndicator.
  pose proof (len_nonneg offs). pose proof (len_nonneg seg).
  destruct (Rest_ReadUint32 _ _ _ R ltac:(lia)) as [-> R1]. clear R.
  destruct (Rest_ReadBytes _ _ _ (len offs) R1 eq_refl) as [-> R2]. clear R1.
  destruct (Rest_ReadUint32 _ _ _ R2 ltac:(lia)) as [-> R3]. clear R2.
  replace (len offs >? 0) with true
    by (symmetry; apply Z.gtb_lt; destruct offs; [ congruence | unfold len; cbn; lia ]).
  rewrite Hm. cbn [wrap_error]. cbv zeta.
  destruct R3 as (pre & Hb & Hp). rewrite Hp.
  destruct (readTargetVectors_spec _ pre seg vs Hb tv [] _ eq_refl Hin)
    as (res & rw' & -> & _ & Hres).
  exists res. eexists. split; [ reflexivity | exact Hres ].
Qed.
End NamedVectorFacts.


Lemma keys_offsetsOf vs : forall base, keys (offsetsOf vs base) = keys vs.
Proof.
  induction vs as [|[n v] r IH]; intros base; cbn; [ reflexivity | ].
  f_equal. apply IH.
Qed.

Lemma map_get_Some_in {V} k (v : V) m : map_get k m = Some v -> In k (keys m).
Proof.
  induction m as [|[k' v'] r IH]; cbn; [ discriminate | ].
  destruct (String.eqb_spec k k') as [->|Hne]; auto.
Qed.

Lemma offsetsOf_record vs : forall base n off,
  NoDup (keys vs) ->
  forallb (fun nv => vectorOk (snd nv)) vs = true ->
  In (n, off) (offsetsOf vs base) ->
  exists v, map_get n vs = Some v /\
            (exists s1 s2, segmentOf vs = s1 ++ recordBytes v ++ s2 /\ len s1 = off - base) /\
            vectorOk v = true.
Proof.
  induction vs as [|[n0 v0] r IH]; intros base n off Hnd Hok Hin; [ destruct Hin | ].
  cbn [forallb snd] in Hok. apply andb_true_iff in Hok as [Hv0 Hr].
  cbn [keys map fst] in Hnd. inversion Hnd as [|? ? Hx Hnd']; subst.
  cbn [offsetsOf] in Hin. destruct Hin as [Heq | Hin].
  - inversion Heq; subst. exists v0. cbn [map_get]. rewrite String.eqb_refl.
    split; [ reflexivity | split; [ | assumption ] ].
    exists [], (segmentOf r). split; [ reflexivity | unfold len; cbn; lia ].
  - destruct (IH _ _ _ Hnd' Hr Hin) as (v & Hget & (s1 & s2 & Hseg & Hlen) & Hv).
    exists v. split; [ | split; [ | assumption ] ].
    + cbn [map_get]. destruct (String.eqb_spec n n0) as [->|Hne]; [ | assumption ].
      exfalso. apply Hx. exact (map_get_Some_in _ _ _ Hget).
    + exists (recordBytes v0 ++ s1), s2. split.
      * rewrite segmentOf_cons, Hseg. now rewrite <- app_assoc.
      * rewrite len_app, len_recordBytes. lia.
Qed.

Lemma existsb_eqb_In k l : existsb (String.eqb k) l = true <-> In k l.
Proof.
  rewrite existsb_exists. split.
  - intros (x & Hx & Heq). apply String.eqb_eq in Heq. now subst.
  - intros H. exists k. split; [ assumption | apply String.eqb_refl ].
Qed.

Section EncodedVectorFacts.
Context {E : Externals}.

Lemma unmarshalTargetVectors_encoded ko F :
  frameOf ko = Ok F -> encodes ko F = true ->
  offsetsReadBack F (elems (Vectors ko)) ->
  exists tvs rw,
    unmarshalTargetVectors (atNamed F) = Ok (tvs, rw) /\
    forall k, map_get k (elems tvs) = map_get k (elems (Vectors ko)).
Proof.
  intros HF Henc Hback.
  unfold encodes in Henc. apply andb_true_iff in Henc as [_ Henc].
  apply withinLimits_inv in Henc as (_ & Hwt & Hvs & Hr & _).
  apply wellTyped_inv in Hwt as (_ & _ & _ & _ & _ & Hnd).
  apply regionsOk_inv in Hr as (_ & _ & _ & _ & _ & _ & _ & _ & Hna).
  apply frameOf_inv in HF
    as (idBytes & schema & meta & weights & offs & seg & _ & _ & _ & _ & Hn & ->).
  unfold offsetsReadBack in Hback. cbn [f_named] in *. destruct Hna as [Ho Hs].
  set (F := {| f_docID := DocID ko; f_uuid := idBytes; f_create := CreationTimeUnix ko;
               f_update := LastUpdateTimeUnix ko; f_vector := elems (Vector ko);
               f_class := list_byte_of_string (Class ko); f_props := schema;
               f_meta := meta; f_weights := weights; f_named := Some (offs, seg) |}).
  destruct offs as [|b offs].
  - destruct (unmarshalTargetVectors_empty F seg eq_refl Hs) as (rw & Hrw).
    exists None, rw. split; [ exact Hrw | ]. intros k. now rewrite Hback.
  - destruct Hback as (tv & Hun & Hperm).
    unfold namedOf in Hn. destruct (Vectors ko) as [[|nv r]|]; try discriminate.
    cbn [elems] in *. set (vs := nv :: r) in *.
    destruct (msgpack_Marshal (offsetsOf vs 0)); [ | discriminate ].
    inversion Hn; subst.
    destruct (unmarshalTargetVectors_named F (b :: offs) (segmentOf vs) tv vs eq_refl
                ltac:(discriminate) Ho Hs Hun) as (res & rw & Hrd & Hres).
    + intros n off Hin. apply (Permutation_in _ Hperm) in Hin.
      destruct (offsetsOf_record vs 0 n off Hnd Hvs Hin) as (v & Hg & (s1 & s2 & Hsg & Hl) & Hv).
      exists v. split; [ assumption | split; [ | assumption ] ].
      exists s1, s2. split; [ assumption | lia ].
    + exists (Some res), rw. split; [ exact Hrd | ]. intros k. cbn [elems].
      rewrite Hres. destruct (existsb (String.eqb k) (keys tv)) eqn:Hex; [ reflexivity | ].
      symmetry. apply map_get_notin. intros Hin.
      assert (In k (keys tv)) as Hk.
      { apply (Permutation_in k (l := keys (offsetsOf vs 0))).
        - unfold keys. apply Permutation_map. now apply Permutation_sym.
        - now rewrite keys_offsetsOf. }
      apply existsb_eqb_In in Hk. congruence.
Qed.

Lemma parseObject_receiver ko uuid create update className propsB additionalB
  vectorWeightsB properties propLength :
  parseObject ko uuid create update className propsB additionalB vectorWeightsB
    properties propLength
  = (o <- parseObject zeroObject uuid create update className propsB additionalB
            vectorWeightsB properties propLength ;;
     Ok (setObject ko (Object_ o))).
Proof.
  unfold parseObject.
  repeat match goal with
         | |- context [match ?x with Ok _ => _ | Err _ => _ end] =>
             lazymatch x with
             | context [match _ with _ => _ end] => fail
             | _ => destruct x
             end
         | |- context [match ?x with Some _ => _ | None => _ end] => destruct x
         | |- context [let (_, _) := ?x in _] => destruct x
         | |- context [if ?x then _ else _] => destruct x
         end; try reflexivity.
Qed.
End EncodedVectorFacts.


Section RoundTrip.
Context {E : Externals}.

(** Encoding an accepted object and decoding the frame in full gives the
    object back, field by field. *)
Lemma round_trip ko F :
  frameOf ko = Ok F -> encodes ko F = true ->
  regionsParse F -> offsetsReadBack F (elems (Vectors ko)) ->
  exists ko',
    MarshalBinary ko = (Some (frameBytes F), None) /\
    FromBinary (frameBytes F) = Ok ko' /\
    MarshallerVersion ko' = 1 /\
    DocID ko' = DocID ko /\
    Vector ko' = Some (elems (Vector ko)) /\
    VectorLen ko' = len (elems (Vector ko)) /\
    Class ko' = Class ko /\
    uuid_Parse (ID ko) = Ok (f_uuid F) /\
    ID ko' = uuid_String (f_uuid F) /\
    CreationTimeUnix ko' = CreationTimeUnix ko /\
    LastUpdateTimeUnix ko' = LastUpdateTimeUnix ko /\
    (forall k, map_get k (elems (Vectors ko')) = map_get k (elems (Vectors ko))) /\
    (forall o,
        parseObject zeroObject (uuid_String (f_uuid F)) (f_create F) (f_update F)
          (string_of_list_byte (f_class F)) (f_props F) (f_meta F) (f_weights F)
          None 0 = Ok o ->
        Object_ ko' = Object_ o).
Proof.
  intros HF Henc (o & Hparse) Hback.
  pose proof (MarshalBinary_frame ko F HF Henc) as Hm.
  pose proof (encodes_frameOk ko F HF Henc) as Hok.
  destruct (unmarshalTargetVectors_encoded ko F HF Henc Hback) as (tvs & rw & Hun & Hget).
  unfold FromBinary. rewrite (UnmarshalBinary_frame _ F Hok), Hun.
  rewrite parseObject_receiver, Hparse.
  eexists. split; [ exact Hm | split; [ reflexivity | ] ].
  apply frameOf_inv in HF
    as (idBytes & schema & meta & weights & offs & seg & Hu & _ & _ & _ & _ & HFeq).
  assert (Hcls : models.Class (Object_ o) = Class ko /\
                 models.ID (Object_ o) = uuid_String (f_uuid F) /\
                 models.CreationTimeUnix (Object_ o) = CreationTimeUnix ko /\
                 models.LastUpdateTimeUnix (Object_ o) = LastUpdateTimeUnix ko).
  { subst F. cbn [f_uuid f_create f_update f_class f_props f_meta f_weights] in Hparse.
    rewrite string_of_list_byte_of_string in Hparse. unfold parseObject in Hparse.
    repeat match type of Hparse with
           | context [match ?x with Ok _ => _ | Err _ => _ end] =>
               lazymatch x with
               | context [match _ with _ => _ end] => fail
               | _ => destruct x; try discriminate
               end
           | context [if ?x then _ else _] => destruct x
           | context [match ?x with Some _ => _ | None => _ end] => destruct x
           end;
      inversion Hparse; subst o; cbn; auto. }
  destruct Hcls as (Hc & Hi & Hct & Hut).
  subst F. cbn [f_docID f_uuid f_vector] in *.
  cbn [MarshallerVersion DocID Vector VectorLen Vectors Object_ setObject setVectors
       setVector setVectorLen SetDocID setMarshallerVersion zeroObject].
  unfold Class, ID, CreationTimeUnix, LastUpdateTimeUnix in *.
  cbn [Object_ setObject].
  repeat split; auto.
  intros o' Ho'. congruence.
Qed.
End RoundTrip.


Lemma regionsParse_intro {E : Externals} F ko :
  parseObject zeroObject (uuid_String (f_uuid F)) (f_create F) (f_update F)
    (string_of_list_byte (f_class F)) (f_props F) (f_meta F) (f_weights F)
    None 0 = Ok ko ->
  regionsParse F.
Proof. intros H. now exists ko. Qed.

Lemma needsEnrichment_false {E : Externals} weights :
  weights = [] \/ weights = nullBytes ->
  needsEnrichment [] [] weights (len weights) = false.
Proof. intros [-> | ->]; reflexivity. Qed.

Lemma parseObject_withoutJSON (E : Externals) ko uuid create update className propsB
  additionalB vectorWeightsB properties propLength :
  exists e,
    parseObject (E := withoutJSON E) ko uuid create update className propsB additionalB
      vectorWeightsB properties propLength = Err e.
Proof.
  unfold parseObject. cbn.
  destruct properties as [p|]; [ | eauto ].
  destruct (propLength =? 0); [ eauto | ].
  destruct (len propsB >=? propLength); cbn; eauto.
Qed.

(** C9: the vector reader applied to an empty slice returns the nil vector and
    no error, whatever the scratch buffer and the target name. The version is
    checked, and the bytes at offset 42 are read, on a slice that is not
    empty only: there a first byte other than 1 is the error of an
    unsupported version, and a version-1 slice too short to hold the length
    field makes the read at offset 42 fail. *)
Theorem VectorFromBinary_empty {E : Externals} (buffer : slice float32)
  (targetVector : string) :
  VectorFromBinary [] buffer targetVector = Ok None /\
  (forall (b : byte) (rest : bytes),
      byte.unsigned b <> 1 ->
      VectorFromBinary (b :: rest) buffer targetVector
      = Err (UnsupportedVersion (byte.unsigned b))) /\
  (forall (b : byte) (rest : bytes),
      byte.unsigned b = 1 -> len (b :: rest) < 44 ->
      VectorFromBinary (b :: rest) buffer "" = Err IndexOutOfRange).
Proof.
  assert (Hlen : forall (b : byte) rest, (len (b :: rest) =? 0) = false).
  { intros b rest. apply Z.eqb_neq. unfold len. cbn [length]. lia. }
  split; [ reflexivity | split ].
  - intros b rest Hb. unfold VectorFromBinary. rewrite Hlen.
    now rewrite (proj2 (Z.eqb_neq _ _) Hb).
  - intros b rest Hb Hshort. unfold VectorFromBinary. rewrite Hlen, Hb.
    cbn [negb Z.eqb Pos.eqb String.eqb]. unfold subslice.
    now rewrite (proj2 (Z.leb_gt _ _) Hshort), andb_false_r.
Qed.

Lemma VectorFromBinary_empty_witness :
  VectorFromBinary (E := Reference.externals) [Byte.x02] None ""
  = Err (UnsupportedVersion 2)
  /\ VectorFromBinary (E := Reference.externals) [Byte.x01; Byte.x2a] None ""
     = Err IndexOutOfRange.
Proof.
  destruct (VectorFromBinary_empty (E := Reference.externals) None "")
    as (_ & Hversion & Hshort).
  split.
  - apply (Hversion Byte.x02 []). discriminate.
  - apply (Hshort Byte.x01 [Byte.x2a]); reflexivity.
Defined.

(** C5: a sound version-1 frame that ends after the vector weights decodes in
    full to an object without named vectors: the reader of the named vectors
    finds its cursor at the end of the buffer and reports no section. *)
Theorem legacy_frame_decodes {E : Externals} (F : Frame) :
  frameOk F = true -> f_named F = None -> regionsParse F ->
  Position (atNamed F) = len (Buffer (atNamed F)) /\
  unmarshalTargetVectors (atNamed F) = Ok (None, atNamed F) /\
  exists ko,
    FromBinary (frameBytes F) = Ok ko /\
    Vectors ko = None /\ models.Vectors (Object_ ko) = None /\
    DocID ko = f_docID F /\ Vector ko = Some (f_vector F) /\
    ID ko = uuid_String (f_uuid F) /\
    Class ko = string_of_list_byte (f_class F).
Proof.
  intros Hok Hn (o & Hparse). split; [ | split ].
  - unfold atNamed. cbn [Position Buffer]. rewrite Hn. cbn [namedBytes].
    change (len (@nil byte)) with 0. lia.
  - now apply unmarshalTargetVectors_absent.
  - unfold FromBinary.
    rewrite (UnmarshalBinary_frame _ F Hok), (unmarshalTargetVectors_absent F Hn).
    rewrite parseObject_receiver, Hparse.
    eexists. split; [ reflexivity | ].
    unfold parseObject in Hparse.
    repeat match type of Hparse with
           | context [match ?x with Ok _ => _ | Err _ => _ end] =>
               lazymatch x with
               | context [match _ with _ => _ end] => fail
               | _ => destruct x; try discriminate
               end
           | context [if ?x then _ else _] => destruct x
           | context [match ?x with Some _ => _ | None => _ end] => destruct x
           end;
      inversion Hparse; subst o; cbn; auto 10.
Qed.

Lemma legacy_frame_decodes_witness :
  exists ko,
    FromBinary (E := Reference.externals) (frameBytes Samples.legacy) = Ok ko /\
    Vectors ko = None.
Proof.
  destruct (legacy_frame_decodes (E := Reference.externals) Samples.legacy)
    as (_ & _ & ko & H & Hv & _).
  - vm_compute. reflexivity.
  - reflexivity.
  - eapply regionsParse_intro. vm_compute. reflexivity.
  - exists ko. split; assumption.
Defined.

(** C4: on a sound frame whose properties are empty or masked off, whose
    additional properties are empty or not asked for, and whose vector weights
    are empty or the four bytes of null, the optional decoder returns the
    object that carries the identity, the timestamps and the class of the
    frame, with no properties, no additional properties and no weights; it
    returns the same with libraries whose every JSON call fails, so it has
    parsed no JSON. [vectors] is what the reader of the named vectors gives
    when the mask asks for them. *)
Theorem fast_path_parses_no_JSON {E : Externals} (F : Frame)
  (addProp : additional.Properties) (properties : option PropertyExtraction)
  (vectors : option (list (string * list float32))) :
  frameOk F = true ->
  maskedProps addProp F = [] ->
  maskedMeta addProp F = [] ->
  f_weights F = [] \/ f_weights F = nullBytes ->
  match additional.Vectors addProp with
  | [] => vectors = None
  | _ => exists rw, unmarshalTargetVectors (atNamed F) = Ok (vectors, rw)
  end ->
  let ko := identityObject F (uuid_String (f_uuid F))
              (if additional.Vector addProp then Some (f_vector F) else None)
              vectors in
  FromBinaryOptional (frameBytes F) addProp properties = Ok ko /\
  FromBinaryOptional (E := withoutJSON E) (frameBytes F) addProp properties = Ok ko /\
  (forall ko0 uuid create update className propsB additionalB vectorWeightsB propLength,
      exists e,
        parseObject (E := withoutJSON E) ko0 uuid create update className propsB
          additionalB vectorWeightsB properties propLength = Err e).
Proof.
  intros Hok Hp Hm Hw Hv ko.
  assert (Hgen : forall E' : Externals,
             @uuid_String E' = @uuid_String E ->
             @msgpack_Unmarshal E' = @msgpack_Unmarshal E ->
             FromBinaryOptional (E := E') (frameBytes F) addProp properties = Ok ko).
  { intros E' Hu Hmp.
    rewrite (FromBinaryOptional_frame (E := E') F addProp properties Hok).
    rewrite Hp, Hm, (needsEnrichment_false (E := E') _ Hw). cbv zeta.
    assert (Hun : unmarshalTargetVectors (E := E') (atNamed F)
                  = unmarshalTargetVectors (E := E) (atNamed F)).
    { unfold unmarshalTargetVectors. now rewrite Hmp. }
    rewrite Hun, Hu. subst ko.
    destruct (additional.Vectors addProp) as [|v r].
    - subst vectors. reflexivity.
    - destruct Hv as (rw & ->).
      replace (len (v :: r) >? 0) with true
        by (symmetry; apply Z.gtb_lt; unfold len; cbn [length]; lia).
      destruct vectors; reflexivity. }
  split; [ apply Hgen; reflexivity | split; [ apply Hgen; reflexivity | ] ].
  intros. apply parseObject_withoutJSON.
Qed.

Lemma fast_path_parses_no_JSON_witness :
  FromBinaryOptional (E := withoutJSON Reference.externals) (frameBytes Samples.bare)
    Samples.noMask None
  = Ok (identityObject Samples.bare
          (uuid_String (Externals := Reference.externals) (f_uuid Samples.bare)) None None).
Proof.
  refine (proj1 (proj2 (fast_path_parses_no_JSON (E := Reference.externals)
                          Samples.bare Samples.noMask None None _ _ _ _ _))).
  - vm_compute. reflexivity.
  - reflexivity.
  - reflexivity.
  - right. reflexivity.
  - reflexivity.
Defined.


(** C6, as stated, fails at the empty name: the map of named vectors of
    [Samples.unnamed] has an entry under the empty name, and the vector reader
    asked for that name returns the (empty) primary vector, not the entry. *)
Lemma named_vector_lookup_counterexample :
  ~ (forall (ko : Object) (data : bytes) (k : string) (v : list float32),
        MarshalBinary (E := Reference.externals) ko = (Some data, None) ->
        map_get k (elems (Vectors ko)) = Some v ->
        VectorFromBinary (E := Reference.externals) data None k = Ok (Some v)).
Proof.
  intros H.
  specialize (H Samples.unnamed (frameBytes (Samples.frameFor Samples.unnamed))
                ""%string [Samples.one]).
  assert (Hm : MarshalBinary (E := Reference.externals) Samples.unnamed
               = (Some (frameBytes (Samples.frameFor Samples.unnamed)), None))
    by (vm_compute; reflexivity).
  specialize (H Hm eq_refl). vm_compute in H. discriminate H.
Qed.

(** C6, amended: for every accepted object and every name but the empty one,
    the vector reader applied to the encoded object with that name returns the
    vector that the map of named vectors holds under it, and the not-found
    error when the map holds none. *)
Theorem named_vector_lookup {E : Externals} (ko : Object) (F : Frame)
  (buffer : slice float32) (k : string) :
  frameOf ko = Ok F -> encodes ko F = true ->
  offsetsReadBack F (elems (Vectors ko)) ->
  k <> ""%string ->
  MarshalBinary ko = (Some (frameBytes F), None) /\
  VectorFromBinary (frameBytes F) buffer k =
    match map_get k (elems (Vectors ko)) with
    | Some v => Ok (Some v)
    | None => Err (NotFound k)
    end.
Proof.
  intros HF Henc Hback Hk. split; [ now apply MarshalBinary_frame | ].
  rewrite (VectorFromBinary_named_frame F buffer k (encodes_frameOk ko F HF Henc) Hk).
  destruct (unmarshalTargetVectors_encoded ko F HF Henc Hback) as (tvs & rw & -> & Hget).
  now rewrite Hget.
Qed.

Lemma named_vector_lookup_witness :
  VectorFromBinary (E := Reference.externals)
    (frameBytes (Samples.frameFor Samples.named)) None "b"
  = Ok (Some [Samples.two; Samples.three])
  /\ VectorFromBinary (E := Reference.externals)
       (frameBytes (Samples.frameFor Samples.named)) None "c"
     = Err (NotFound "c").
Proof.
  split.
  - refine (proj2 (named_vector_lookup (E := Reference.externals) Samples.named
                     (Samples.frameFor Samples.named) None "b" _ _ _ _)).
    + vm_compute. reflexivity.
    + vm_compute. reflexivity.
    + exists (offsetsOf (elems (Vectors Samples.named)) 0). split.
      * vm_compute. reflexivity.
      * apply Permutation_refl.
    + discriminate.
  - refine (proj2 (named_vector_lookup (E := Reference.externals) Samples.named
                     (Samples.frameFor Samples.named) None "c" _ _ _ _)).
    + vm_compute. reflexivity.
    + vm_compute. reflexivity.
    + exists (offsetsOf (elems (Vectors Samples.named)) 0). split.
      * vm_compute. reflexivity.
      * apply Permutation_refl.
    + discriminate.
Defined.

Lemma map_get_filter {V} (P : V -> bool) k (m : list (string * V)) :
  NoDup (keys m) ->
  map_get k (filter (fun kv => P (snd kv)) m)
  = match map_get k m with
    | Some v => if P v then Some v else None
    | None => None
    end.
Proof.
  induction m as [|[k' v'] r IH]; intros Hnd; [ reflexivity | ].
  cbn [keys map fst] in Hnd. inversion Hnd as [|? ? Hx Hr]; subst.
  cbn [filter snd map_get]. destruct (String.eqb_spec k k') as [->|Hne].
  - destruct (P v') eqn:HP.
    + cbn [map_get]. now rewrite String.eqb_refl.
    + rewrite (IH Hr). rewrite (map_get_notin k' r Hx). reflexivity.
  - destruct (P v'); [ cbn [map_get] | ].
    + destruct (String.eqb_spec k k'); [ congruence | now apply IH ].
    + now apply IH.
Qed.

(** C7: an object built by [FromObject] from properties [m] has the entries of
    [m] that are not nil for properties; when the JSON library and the
    enrichment give back the properties they were given, the object decoded
    in full from its encoding holds under every key what [m] held, except
    under the keys that [m] bound to nil, which it does not hold. *)
Theorem nil_properties_are_stripped {E : Externals} (object : models.Object)
  (vector : slice float32) (vectors : option (list (string * list float32)))
  (m : propmap) (F : Frame) :
  let ko := FromObject object vector vectors in
  models.Properties object = VMap (Some m) ->
  NoDup (keys m) ->
  frameOf ko = Ok F -> encodes ko F = true ->
  regionsParse F -> offsetsReadBack F (elems (Vectors ko)) ->
  (exists m1 m2,
      json_Unmarshal_map (f_props F) = Ok m1 /\
      enrichSchemaTypes m1 false = Ok (Some m2) /\
      forall k, map_get k m2 = map_get k (withoutNil m)) ->
  Properties ko = VMap (Some (withoutNil m)) /\
  json_Marshal (VMap (Some (withoutNil m))) = Ok (f_props F) /\
  exists ko' m',
    MarshalBinary ko = (Some (frameBytes F), None) /\
    FromBinary (frameBytes F) = Ok ko' /\
    Properties ko' = VMap (Some m') /\
    forall k,
      map_get k m' = match map_get k m with
                     | Some VNil => None
                     | other => other
                     end.
Proof.
  intros ko Hp Hnd HF Henc Hparse Hback (m1 & m2 & Hj & He & Hsame).
  assert (Hko : Properties ko = VMap (Some (withoutNil m))).
  { subst ko. unfold FromObject, Properties. cbn [Object_]. rewrite Hp. reflexivity. }
  split; [ exact Hko | ].
  split.
  { apply frameOf_inv in HF as (? & schema & ? & ? & ? & ? & _ & Hs & _ & _ & _ & ->).
    cbn [f_props]. now rewrite <- Hko. }
  destruct (round_trip ko F HF Henc Hparse Hback)
    as (ko' & Hmb & Hfb & _ & _ & _ & _ & _ & _ & _ & _ & _ & _ & Hobj).
  destruct Hparse as (o & Ho). specialize (Hobj o Ho).
  exists ko', m2. split; [ exact Hmb | split; [ exact Hfb | ] ].
  unfold parseObject in Ho. rewrite Hj in Ho. rewrite He in Ho. cbn [wrap_error] in Ho.
  split.
  - unfold Properties. rewrite Hobj.
    repeat match type of Ho with
           | context [match ?x with Ok _ => _ | Err _ => _ end] =>
               lazymatch x with
               | context [match _ with _ => _ end] => fail
               | _ => destruct x; try discriminate
               end
           | context [if ?x then _ else _] => destruct x
           | context [match ?x with Some _ => _ | None => _ end] => destruct x
           end;
      inversion Ho; subst o; reflexivity.
  - intros k. rewrite Hsame. unfold withoutNil.
    rewrite (map_get_filter (fun v => negb (is_nil v)) k m Hnd).
    destruct (map_get k m) as [[]|]; reflexivity.
Qed.


Lemma frameFor_ok {E : Externals} (frameFor : Object -> Frame) ko :
  (forall ko, frameFor ko = match frameOf ko with Ok F => F | Err _ => Samples.emptyFrame end) ->
  (match frameOf ko with Ok _ => true | Err _ => false end) = true ->
  frameOf ko = Ok (frameFor ko).
Proof. intros Hf H. rewrite Hf. destruct (frameOf ko); [ reflexivity | discriminate ]. Qed.

Lemma nil_properties_are_stripped_witness :
  exists ko' m',
    FromBinary (E := Reference.externals)
      (frameBytes (Samples.frameFor
                     (FromObject (Samples.thing (VMap (Some Samples.properties)))
                        (Some [Samples.one]) None))) = Ok ko' /\
    Properties ko' = VMap (Some m') /\
    map_get "age" m' = None /\ map_get "name" m' = Some (VString "a").
Proof.
  destruct (nil_properties_are_stripped (E := Reference.externals)
              (Samples.thing (VMap (Some Samples.properties))) (Some [Samples.one]) None
              Samples.properties
              (Samples.frameFor
                 (FromObject (Samples.thing (VMap (Some Samples.properties)))
                    (Some [Samples.one]) None)))
    as (_ & _ & ko' & m' & _ & Hd & Hp & Hk).
  - reflexivity.
  - apply distinct_NoDup. reflexivity.
  - vm_compute. reflexivity.
  - vm_compute. reflexivity.
  - eapply regionsParse_intro. vm_compute. reflexivity.
  - reflexivity.
  - exists (Some [("name"%string, VString "a")]), [("name"%string, VString "a")].
    split; [ vm_compute; reflexivity | split; [ reflexivity | ] ].
    intros k. reflexivity.
  - exists ko', m'. split; [ exact Hd | split; [ exact Hp | ] ].
    split; [ exact (Hk "age"%string) | exact (Hk "name"%string) ].
Defined.

Section ReadBackFacts.
Context {E : Externals}.

Lemma recastHits_typed hits hits' :
  Forall2 hitTyped hits hits' -> recastHits hits = Ok hits'.
Proof.
  induction 1 as [|hit typed hits hits' Hh _ IH]; [ reflexivity | ].
  cbn [recastHits]. rewrite IH. unfold hitTyped in Hh.
  destruct (map_get "_additional" hit) as [[]|]; try (subst typed; reflexivity).
  destruct Hh as (b & a' & -> & -> & ->). reflexivity.
Qed.

Lemma recast_typed (generic : propmap) (orig : option propmap) :
  (forall k,
      match map_get k generic with
      | Some v => exists v', map_get k (elems orig) = Some v' /\ entryTyped k v v'
      | None => map_get k (elems orig) = None
      end) ->
  exists typed,
    (m <- recastClassification generic ;; recastGroup m) = Ok typed /\
    forall k, map_get k typed = map_get k (elems orig).
Proof.
  intros H.
  assert (Hc : exists m1,
             recastClassification generic = Ok m1 /\
             (forall k, k <> "classification"%string -> map_get k m1 = map_get k generic) /\
             map_get "classification" m1 = map_get "classification" (elems orig)).
  { unfold recastClassification. pose proof (H "classification"%string) as Hk.
    destruct (map_get "classification" generic) as [v|] eqn:Hg.
    - destruct Hk as (v' & Ho & Ht).
      destruct v; cbn [entryTyped] in Ht;
        try (subst v'; eexists; split; [ reflexivity | split; [ reflexivity | congruence ] ]).
      change (String.eqb "classification" "classification") with true in Ht.
      destruct Ht as (b & c & -> & -> & ->).
      eexists. split; [ reflexivity | split ].
      + intros k Hne. rewrite map_get_map_set.
        destruct (String.eqb_spec k "classification"); [ congruence | reflexivity ].
      + rewrite map_get_map_set, String.eqb_refl. now rewrite Ho.
    - eexists. split; [ reflexivity | split; [ reflexivity | congruence ] ]. }
  destruct Hc as (m1 & -> & Hother & Hcls).
  assert (Hg : exists m2,
             recastGroup m1 = Ok m2 /\
             (forall k, k <> "group"%string -> map_get k m2 = map_get k m1) /\
             map_get "group" m2 = map_get "group" (elems orig)).
  { unfold recastGroup. pose proof (H "group"%string) as Hk.
    rewrite (Hother "group"%string) by discriminate.
    destruct (map_get "group" generic) as [v|] eqn:Hg.
    - destruct Hk as (v' & Ho & Ht).
      destruct v; cbn [entryTyped] in Ht;
        try (subst v'; eexists; split; [ reflexivity | split; [ reflexivity | ] ];
             rewrite (Hother "group"%string) by discriminate; congruence).
      change (String.eqb "group" "classification") with false in Ht.
      change (String.eqb "group" "group") with true in Ht.
      destruct Ht as (b & hits & rest & hits' & -> & -> & Hhits & ->).
      rewrite (recastHits_typed _ _ Hhits).
      eexists. split; [ reflexivity | split ].
      + intros k Hne. rewrite map_get_map_set.
        destruct (String.eqb_spec k "group"); [ congruence | reflexivity ].
      + rewrite map_get_map_set, String.eqb_refl. now rewrite Ho.
    - eexists. split; [ reflexivity | split; [ reflexivity | ] ].
      rewrite (Hother "group"%string) by discriminate. congruence. }
  destruct Hg as (m2 & -> & Hother2 & Hgrp).
  exists m2. split; [ reflexivity | ].
  intros k.
  destruct (String.eqb_spec k "group") as [->|Hng]; [ exact Hgrp | ].
  rewrite (Hother2 k Hng).
  destruct (String.eqb_spec k "classification") as [->|Hnc]; [ exact Hcls | ].
  rewrite (Hother k Hnc).
  specialize (H k). destruct (map_get k generic) as [v|]; [ | congruence ].
  destruct H as (v' & -> & Ht). f_equal.
  unfold entryTyped in Ht.
  apply String.eqb_neq in Hng, Hnc. rewrite Hng, Hnc in Ht.
  destruct v; congruence.
Qed.

(** Under the readings of the JSON library, [parseObject] stores what was
    printed. *)
Lemma parseObject_readsBack ko F receiver uuid create update className :
  jsonReadsBack ko F ->
  exists o,
    parseObject receiver uuid create update className
      (f_props F) (f_meta F) (f_weights F) None 0 = Ok o /\
    sameProperties (Properties ko) (Properties o) /\
    sameMap (AdditionalProperties o) (AdditionalProperties ko) /\
    VectorWeights o = VectorWeights ko.
Proof.
  intros ((parsed & enriched & Hp & He & Hsame) & (Hlen & generic & Hm & Hnil & Hk) & Hw).
  unfold parseObject. rewrite Hp, He. cbn [wrap_error].
  rewrite (proj2 (Z.gtb_lt _ _) Hlen), Hm.
  destruct generic as [g|].
  - destruct (recast_typed g (AdditionalProperties ko) Hk) as (typed & Hr & Hget).
    destruct (recastClassification g) as [m1|] eqn:Hc; [ | discriminate ].
    rewrite Hr, Hw. eexists. split; [ reflexivity | ].
    unfold Properties, AdditionalProperties, VectorWeights.
    cbn [Object_ setObject models.Properties models.Additional models.VectorWeights].
    split; [ exact Hsame | split; [ | reflexivity ] ].
    split; [ | exact Hget ].
    split; [ discriminate | ].
    intros Hnone. apply Hnil in Hnone. discriminate.
  - rewrite Hw. eexists. split; [ reflexivity | ].
    unfold Properties, AdditionalProperties, VectorWeights.
    cbn [Object_ setObject models.Properties models.Additional models.VectorWeights].
    split; [ exact Hsame | split; [ | reflexivity ] ].
    split; [ split; [ intros _; now apply Hnil | reflexivity ] | ].
    intros k. symmetry. exact (Hk k).
Qed.

End ReadBackFacts.

(** C8: an object that the encoder accepts and whose primary vector has
    exactly 65535 elements is encoded, and the full decoder gives it back:
    version, doc id, vector, class, id in canonical text, timestamps, the
    named vectors under every name and, when the JSON library and the
    enrichment read back what they printed, the properties and the
    additional properties under every key and the vector weights. An object
    whose primary vector has more than 65535 elements is not encoded: no
    buffer comes back, and when its version is 1 and its id is a UUID the
    error is the one of a vector too long. *)
Theorem vector_length_boundary {E : Externals} :
  (forall (ko : Object) (F : Frame),
      len (elems (Vector ko)) = 65535 ->
      frameOf ko = Ok F -> withinLimits ko F = true ->
      offsetsReadBack F (elems (Vectors ko)) ->
      jsonReadsBack ko F ->
      exists ko',
        MarshalBinary ko = (Some (frameBytes F), None) /\
        FromBinary (frameBytes F) = Ok ko' /\
        MarshallerVersion ko' = 1 /\
        DocID ko' = DocID ko /\
        Vector ko' = Some (elems (Vector ko)) /\
        VectorLen ko' = 65535 /\
        Class ko' = Class ko /\
        uuid_Parse (ID ko) = Ok (f_uuid F) /\
        ID ko' = uuid_String (f_uuid F) /\
        CreationTimeUnix ko' = CreationTimeUnix ko /\
        LastUpdateTimeUnix ko' = LastUpdateTimeUnix ko /\
        (forall k, map_get k (elems (Vectors ko')) = map_get k (elems (Vectors ko))) /\
        sameProperties (Properties ko) (Properties ko') /\
        sameMap (AdditionalProperties ko') (AdditionalProperties ko) /\
        VectorWeights ko' = VectorWeights ko)
  /\
  (forall ko : Object,
      65535 < len (elems (Vector ko)) ->
      fst (MarshalBinary ko) = None /\
      exists e,
        snd (MarshalBinary ko) = Some e /\
        (MarshallerVersion ko = 1 ->
         (exists idBytes, uuid_Parse (ID ko) = Ok idBytes) ->
         e = FieldTooLarge "vector" (len (elems (Vector ko))) 65535)).
Proof.
  split.
  - intros ko F Hlen HF Hw Hback Hjson.
    assert (Henc : encodes ko F = true).
    { unfold encodes. rewrite Hw, Hlen. reflexivity. }
    destruct (parseObject_readsBack ko F zeroObject (uuid_String (f_uuid F))
                (f_create F) (f_update F) (string_of_list_byte (f_class F)) Hjson)
      as (o & Ho & Hp & Ha & Hvw).
    destruct (round_trip ko F HF Henc (regionsParse_intro F o Ho) Hback)
      as (ko' & H1 & H2 & H3 & H4 & H5 & H6 & H7 & H8 & H9 & H10 & H11 & H12 & H13).
    specialize (H13 o Ho).
    exists ko'. rewrite Hlen in H6.
    unfold Properties, AdditionalProperties, VectorWeights in *.
    rewrite H13. auto 20.
  - intros ko Hlen. unfold MarshalBinary.
    destruct (Z.eqb_spec (MarshallerVersion ko) 1) as [Hv|Hv]; cbn [negb].
    + destruct (uuid_Parse (ID ko)) as [idBytes|e] eqn:Hu.
      * unfold maxVectorLength, MaxUint16.
        rewrite (proj2 (Z.gtb_lt _ _)) by lia. cbn [fst snd].
        split; [ reflexivity | ]. eexists. split; [ reflexivity | ]. reflexivity.
      * cbn [fst snd]. split; [ reflexivity | ]. exists e. split; [ reflexivity | ].
        intros _ (idBytes & Hid). discriminate.
    + cbn [fst snd]. split; [ reflexivity | ]. eexists. split; [ reflexivity | ].
      intros Hv'. congruence.
Qed.

Lemma vector_length_boundary_witness :
  (exists ko',
      MarshalBinary (E := Reference.externals) Boundary.thing
      = (Some (frameBytes (Samples.frameFor Boundary.thing)), None) /\
      FromBinary (E := Reference.externals)
        (frameBytes (Samples.frameFor Boundary.thing)) = Ok ko' /\
      Vector ko' = Some (repeat Samples.one (Z.to_nat 65535)) /\
      sameProperties (Properties Boundary.thing) (Properties ko') /\
      sameMap (AdditionalProperties ko') (AdditionalProperties Boundary.thing) /\
      VectorWeights ko' = VectorWeights Boundary.thing)
  /\ MarshalBinary (E := Reference.externals) Samples.beyond
     = (None, Some (FieldTooLarge "vector" 65536 65535)).
Proof.
  split.
  - destruct (proj1 (vector_length_boundary (E := Reference.externals)) Boundary.thing
                (Samples.frameFor Boundary.thing))
      as (ko' & H1 & H2 & _ & _ & H5 & _ & _ & _ & _ & _ & _ & _ & H13 & H14 & H15).
    + vm_compute. reflexivity.
    + apply (frameFor_ok (E := Reference.externals) Samples.frameFor);
        [ reflexivity | vm_compute; reflexivity ].
    + vm_compute. reflexivity.
    + reflexivity.
    + split; [ | split ].
      * exists (Some [("name"%string, VString "a")]),
               (Some [("name"%string, VString "a")]).
        split; [ vm_compute; reflexivity | split; [ reflexivity | ] ].
        split; [ split; discriminate | reflexivity ].
      * split; [ vm_compute; reflexivity | ].
        exists (Some [("interpretation"%string, VString "x")]).
        split; [ vm_compute; reflexivity | split; [ split; discriminate | ] ].
        intros k. cbn [elems map_get AdditionalProperties Boundary.thing].
        unfold AdditionalProperties, Boundary.thing.
        cbn [Object_ setObject models.Additional elems map_get].
        destruct (String.eqb k "interpretation"); [ | reflexivity ].
        eexists. split; reflexivity.
      * vm_compute. reflexivity.
    + exists ko'. auto 10.
  - destruct (proj2 (vector_length_boundary (E := Reference.externals)) Samples.beyond)
      as (Hf & e & Hs & He).
    + vm_compute. reflexivity.
    + rewrite (surjective_pairing (MarshalBinary Samples.beyond)), Hf, Hs.
      rewrite He; [ reflexivity | reflexivity | ].
      eexists. vm_compute. reflexivity.
Defined.


Lemma Properties_SetProperties ko p : Properties (SetProperties ko p) = p.
Proof. reflexivity. Qed.


Lemma PropertiesWithAdditional_ID ko addl :
  ID (fst (PropertiesWithAdditional ko addl)) = ID ko.
Proof.
  unfold PropertiesWithAdditional.
  destruct (additional.RefMeta addl); [ reflexivity | ].
  destruct (Properties ko) as [ | | | | | |[m|]| | | | ]; reflexivity.
Qed.

Lemma map_get_map_set_same {V} k (v : V) m : map_get k (map_set k v m) = Some v.
Proof. rewrite map_get_map_set. now rewrite String.eqb_refl. Qed.

Lemma map_get_withoutRefMeta k (m : propmap) :
  map_get k
    (map (fun kv => match snd kv with
                    | VMultipleRef asRefs =>
                        (fst kv, VMultipleRef (map clearClassification asRefs))
                    | _ => kv
                    end) m)
  = option_map withoutRefMeta (map_get k m).
Proof.
  induction m as [|[k' v] r IH]; [ reflexivity | ].
  cbn [map snd fst]. destruct v; cbn [map_get]; rewrite IH;
    destruct (String.eqb k k'); reflexivity.
Qed.

(** C10: the projection to a search result changes its receiver. Whatever the
    object, after the call its properties are a map that binds [id] to the id
    of the object and, under every other key, holds what the properties held
    before (with the metadata of references cleared when it is not asked
    for); so the properties after the call are not those before it, unless
    these already bound [id] to the id of the object, as those of a decoded
    object do not. The result carries the same map. *)
Theorem SearchResult_mutates_receiver (ko : Object) (addl : additional.Properties)
  (tenant : string) :
  let ko' := fst (SearchResult ko addl tenant) in
  (exists m',
      Properties ko' = VMap (Some m') /\
      map_get "id" m' = Some (VUUID (ID ko)) /\
      (forall k, k <> "id"%string ->
         map_get k m' =
           option_map (if additional.RefMeta addl then fun v => v else withoutRefMeta)
             (map_get k (propertiesMap ko)))) /\
  (map_get "id" (propertiesMap ko) <> Some (VUUID (ID ko)) ->
   Properties ko' <> Properties ko) /\
  (forall r, snd (SearchResult ko addl tenant) = Ok r ->
     search.Schema r = Properties ko').
Proof.
  intros ko'.
  assert (Hshape : exists base,
             Properties ko' = VMap (Some (map_set "id" (VUUID (ID ko)) base)) /\
             forall k, map_get k base =
               option_map (if additional.RefMeta addl then fun v => v else withoutRefMeta)
                 (map_get k (propertiesMap ko))).
  { subst ko'. unfold SearchResult.
    pose proof (PropertiesWithAdditional_ID ko addl) as Hid.
    unfold propertiesMap.
    destruct (PropertiesWithAdditional ko addl) as [ko1 pwa] eqn:Hpwa.
    cbn [fst] in Hid. cbn [fst]. rewrite Properties_SetProperties, Hid.
    eexists. split; [ reflexivity | ].
    unfold PropertiesWithAdditional in Hpwa.
    destruct (additional.RefMeta addl).
    - injection Hpwa as H1 H2. subst ko1 pwa. intros k.
      destruct (Properties ko) as [ | | | | | |[m|]| | | | ]; cbn [map_get option_map];
        try reflexivity.
      now destruct (map_get k m).
    - destruct (Properties ko) as [ | | | | | |[m|]| | | | ];
        injection Hpwa as H1 H2; subst ko1 pwa;
        intros k; cbn [map_get option_map]; try reflexivity.
      apply map_get_withoutRefMeta. }
  destruct Hshape as (base & Hprop & Hbase).
  split; [ | split ].
  - exists (map_set "id" (VUUID (ID ko)) base). split; [ exact Hprop | ]. split.
    + apply map_get_map_set_same.
    + intros k Hk. rewrite map_get_map_set, <- Hbase.
      destruct (String.eqb_spec k "id"); [ contradiction | reflexivity ].
  - intros Hno Heq. apply Hno. unfold propertiesMap. rewrite <- Heq, Hprop.
    apply map_get_map_set_same.
  - intros r Hr. subst ko'. unfold SearchResult in *.
    destruct (PropertiesWithAdditional ko addl) as [ko1 pwa].
    cbn [fst snd] in *.
    match type of Hr with
    | context [ExplainScore ?x] => destruct (ExplainScore x); [ | discriminate ]
    end.
    inversion Hr; subst r. reflexivity.
Qed.

Lemma SearchResult_mutates_receiver_witness :
  Properties (fst (SearchResult Samples.named Samples.noMask "")) <>
  Properties Samples.named.
Proof.
  apply (SearchResult_mutates_receiver Samples.named Samples.noMask "").
  vm_compute. discriminate.
Defined.



Section PartialDecoderFacts.
Context {E : Externals}.

Lemma FromBinaryUUIDOnly_frame F :
  frameOk F = true -> len (f_vector F) < 16384 ->
  FromBinaryUUIDOnly (frameBytes F) = Ok (idAndClass F).
Proof.
  intros Hok Hshort.
  apply frameOk_inv in Hok as (Hdoc & Hid & Hct & Hut & Hv & Hcl & Hpr & Hme & Hwe & Hna).
  pose proof (vectorOk_len _ Hv) as Hvl.
  pose proof (len_nonneg (f_vector F)). pose proof (len_nonneg (f_class F)).
  unfold FromBinaryUUIDOnly.
  remember (frameBytes F) as B eqn:HB.
  assert (R : Rest (NewReadWriter B) B) by apply Rest_new.
  remember (NewReadWriter B) as rw0 eqn:Hrw0. clear Hrw0.
  rewrite HB in R. unfold frameBytes, tailBytes in R.
  destruct (Rest_ReadUint8 _ _ _ R ltac:(lia)) as [-> R1]. clear R.
  cbv zeta. cbn [negb Z.eqb Pos.eqb].
  destruct (Rest_ReadUint64 _ _ _ R1 Hdoc) as [-> R2]. clear R1.
  apply (Rest_forward _ _ _ 1) in R2; [ | reflexivity ].
  destruct (Rest_ReadBytes _ _ _ 16 R2 ltac:(unfold len; now rewrite Hid)) as [-> R3]. clear R2.
  unfold uuid_FromBytes. rewrite Hid. cbn [Nat.eqb wrap_error].
  rewrite app_assoc in R3.
  apply (Rest_forward _ _ _ 16) in R3; [ | now rewrite len_app, !len_le_split ].
  destruct (Rest_ReadUint16 _ _ _ R3 ltac:(lia)) as [-> R4]. clear R3.
  rewrite (uint16_small (len (f_vector F) * 4)) by bound.
  rewrite (uint64_small (len (f_vector F) * 4)) by lia.
  apply (Rest_forward _ _ _ (len (f_vector F) * 4)) in R4;
    [ | rewrite len_floatsBytes; lia ].
  destruct (Rest_ReadUint16 _ _ _ R4 ltac:(lia)) as [-> R5]. clear R4.
  rewrite (uint64_small (len (f_class F))) by bound.
  destruct (Rest_ReadBytes _ _ _ (len (f_class F)) R5 eq_refl) as [-> R6]. clear R5.
  reflexivity.
Qed.

End PartialDecoderFacts.

Lemma floatsBytes_app a b : floatsBytes (a ++ b) = floatsBytes a ++ floatsBytes b.
Proof. apply flat_map_app. Qed.

Lemma store_inside out i x :
  (i < length out)%nat -> store out i x = Ok (firstn i out ++ x :: skipn (S i) out).
Proof. intros H. unfold store. now rewrite (proj2 (Nat.ltb_lt _ _) H). Qed.

Lemma skipn_nth {A} (l : list A) i d :
  (i < length l)%nat -> skipn i l = nth i l d :: skipn (S i) l.
Proof.
  revert i. induction l as [|a l IH]; intros i H; [ cbn in H; lia | ].
  destruct i; [ reflexivity | ]. cbn [skipn nth]. apply IH. cbn in H. lia.
Qed.

Lemma forallb_nth v i :
  forallb float32Ok v = true -> (i < length v)%nat -> float32Ok (nth i v 0) = true.
Proof.
  intros H Hi. rewrite forallb_forall in H. apply H. now apply nth_In.
Qed.

Lemma vectorLoop_spec in_ pre v post :
  in_ = pre ++ floatsBytes v ++ post ->
  forallb float32Ok v = true ->
  forall turns i out,
    (i + turns <= length v)%nat -> length out = length v ->
    vectorLoop turns in_ (len pre + 4 * Z.of_nat i) i out
    = Ok (firstn i out ++ firstn turns (skipn i v) ++ skipn (i + turns) out).
Proof.
  intros Hin Hok turns. induction turns as [|k IH]; intros i out Hle Hlen.
  - cbn [vectorLoop firstn app]. now rewrite Nat.add_0_r, firstn_skipn.
  - assert (Hi : (i < length v)%nat) by lia.
    cbn [vectorLoop].
    assert (R : Rest {| Position := len pre + 4 * Z.of_nat i; Buffer := in_ |}
                  (le_split 4 (Float32bits (nth i v 0)) ++
                   floatsBytes (skipn (S i) v) ++ post)).
    { exists (pre ++ floatsBytes (firstn i v)). cbn [Buffer Position]. split.
      - rewrite Hin. rewrite <- (firstn_skipn i v) at 1.
        rewrite (skipn_nth v i 0 Hi), floatsBytes_app.
        cbn [floatsBytes flat_map]. fold (floatsBytes (skipn (S i) v)).
        now rewrite <- !app_assoc.
      - rewrite len_app, len_floatsBytes. unfold len.
        rewrite (firstn_length_le v (n := i)) by lia. lia. }
    pose proof (Rest_subslice _ _ _ in_ 4 R eq_refl eq_refl) as Hs.
    cbn [Position] in Hs. rewrite Hs.
    rewrite le_combine_small.
    2:{ pose proof (float32Ok_range _ (forallb_nth v i Hok Hi)) as Hr.
        unfold Float32bits, MaxUint32 in *.
        change (2 ^ (Z.of_nat 4 * 8)) with 4294967296. lia. }
    rewrite store_inside by lia.
    replace (len pre + 4 * Z.of_nat i + 4) with (len pre + 4 * Z.of_nat (S i)) by lia.
    rewrite IH.
    2:{ lia. }
    2:{ rewrite length_app. cbn [length]. rewrite firstn_length_le, length_skipn by lia. lia. }
    f_equal.
    assert (Hfi : length (firstn i out) = i) by (apply firstn_length_le; lia).
    rewrite (skipn_nth v i 0 Hi), firstn_cons.
    replace (firstn (S i) (firstn i out ++ Float32frombits (Float32bits (nth i v 0))
                             :: skipn (S i) out))
      with (firstn i out ++ [nth i v 0]).
    2:{ rewrite firstn_app, Hfi.
        replace (S i - i)%nat with 1%nat by lia.
        rewrite (@firstn_all2 _ (S i) (firstn i out)) by lia. reflexivity. }
    replace (skipn (S i + k) (firstn i out ++ Float32frombits (Float32bits (nth i v 0))
                                :: skipn (S i) out))
      with (skipn (i + S k) out).
    2:{ rewrite skipn_app, Hfi. rewrite (skipn_all2 (firstn i out)) by lia.
        replace (S i + k - i)%nat with (S k) by lia.
        rewrite app_nil_l, skipn_cons, skipn_skipn. f_equal. lia. }
    now rewrite <- app_assoc.
Qed.

Section PrimaryVectorFacts.
Context {E : Externals}.

Lemma length_field_at_42 F :
  length (f_uuid F) = 16%nat ->
  subslice (frameBytes F) 42 44 = Ok (le_split 2 (len (f_vector F))).
Proof.
  intros Hid.
  assert (R : Rest {| Position := 42; Buffer := frameBytes F |}
                (le_split 2 (len (f_vector F)) ++ floatsBytes (f_vector F) ++ tailBytes F)).
  { exists (le_split 1 1 ++ le_split 8 (f_docID F) ++ le_split 1 1 ++ f_uuid F ++
            le_split 8 (f_create F) ++ le_split 8 (f_update F)).
    cbn [Buffer Position]. split.
    - unfold frameBytes. now rewrite <- !app_assoc.
    - rewrite !len_app, !len_le_split. unfold len. rewrite Hid. reflexivity. }
  exact (Rest_subslice _ _ _ (frameBytes F) 2 R eq_refl eq_refl).
Qed.

(** What the vector reader returns for the empty target name: the elements
    that its loop reads, then what the output slice held. *)
Lemma VectorFromBinary_primary_frame F buffer :
  frameOk F = true ->
  let n := len (f_vector F) in
  let turns := Z.to_nat ((uint16 (n * 4) + 3) / 4) in
  VectorFromBinary (frameBytes F) buffer "" =
    match (if len (elems buffer) >=? n
           then option_map (firstn (Z.to_nat n)) buffer
           else Some (repeat 0 (Z.to_nat n))) with
    | Some out => Ok (Some (firstn turns (f_vector F) ++ skipn turns out))
    | None => Ok None
    end.
Proof.
  intros Hok n turns.
  apply frameOk_inv in Hok as (Hdoc & Hid & Hct & Hut & Hv & _).
  pose proof (vectorOk_len _ Hv) as Hvl.
  assert (Hvf : forallb float32Ok (f_vector F) = true)
    by (unfold vectorOk in Hv; apply andb_true_iff in Hv; tauto).
  pose proof (len_nonneg (f_vector F)) as Hn0. fold n in Hvl, Hn0.
  unfold VectorFromBinary.
  replace (len (frameBytes F) =? 0) with false.
  2:{ symmetry. apply Z.eqb_neq. rewrite len_frameBytes.
      pose proof (len_nonneg (f_uuid F)). pose proof (len_nonneg (f_class F)).
      pose proof (len_nonneg (f_props F)). pose proof (len_nonneg (f_meta F)).
      pose proof (len_nonneg (f_weights F)).
      pose proof (len_nonneg (namedBytes (f_named F))). lia. }
  replace (match frameBytes F with
           | [] => Err IndexOutOfRange
           | b :: _ => Ok (byte.unsigned b)
           end) with (@Ok Z 1) by reflexivity.
  cbn [negb Z.eqb Pos.eqb String.eqb].
  rewrite (length_field_at_42 F Hid).
  rewrite le_combine_small
    by (change (2 ^ (Z.of_nat 2 * 8)) with 65536; unfold MaxUint16 in *; lia).
  fold n. cbv zeta.
  replace (44 + uint16 (n * 4) - 44 + 3) with (uint16 (n * 4) + 3) by lia.
  fold turns.
  assert (Hu : 0 <= uint16 (n * 4) <= n * 4).
  { unfold uint16, wrap. split.
    - apply Z.mod_pos_bound. lia.
    - apply Z.mod_le; lia. }
  assert (Hturns : (turns <= length (f_vector F))%nat).
  { subst turns. apply Nat2Z.inj_le. rewrite Z2Nat.id by (apply Z.div_pos; lia).
    fold (len (f_vector F)). fold n.
    assert ((uint16 (n * 4) + 3) / 4 < n + 1)
      by (apply Z.div_lt_upper_bound; lia).
    lia. }
  assert (Hloop : forall out, length out = length (f_vector F) ->
            vectorLoop turns (frameBytes F) 44 0 out
            = Ok (firstn turns (f_vector F) ++ skipn turns out)).
  { intros out Hlen.
    pose proof (vectorLoop_spec (frameBytes F)
                  (le_split 1 1 ++ le_split 8 (f_docID F) ++ le_split 1 1 ++ f_uuid F ++
                   le_split 8 (f_create F) ++ le_split 8 (f_update F) ++
                   le_split 2 (len (f_vector F)))
                  (f_vector F) (tailBytes F)) as Hspec.
    specialize (Hspec ltac:(unfold frameBytes; now rewrite <- !app_assoc) Hvf turns 0%nat out
                      ltac:(lia) Hlen).
    rewrite !len_app, !len_le_split in Hspec. unfold len in Hspec at 1.
    rewrite Hid in Hspec. cbn [firstn skipn app Nat.add] in Hspec.
    exact Hspec. }
  destruct (Z.geb_spec (len (elems buffer)) n) as [Hcap|Hcap].
  - destruct buffer as [b|]; cbn [option_map].
    + rewrite Hloop; [ reflexivity | ].
      cbn [elems] in Hcap. rewrite firstn_length_le; [ apply to_nat_len | ].
      unfold n, len in *. lia.
    + cbn [elems] in Hcap. change (len (@nil float32)) with 0 in Hcap.
      assert (n = 0) as -> by lia. reflexivity.
  - rewrite Hloop; [ reflexivity | ].
    rewrite repeat_length. apply to_nat_len.
Qed.

(** Below 16384 elements the loop reads the whole vector. *)
Lemma VectorFromBinary_primary_small F buffer :
  frameOk F = true -> len (f_vector F) < 16384 ->
  exists out,
    VectorFromBinary (frameBytes F) buffer "" = Ok out /\ elems out = f_vector F.
Proof.
  intros Hok Hshort. rewrite (VectorFromBinary_primary_frame F buffer Hok). cbv zeta.
  pose proof (len_nonneg (f_vector F)) as Hn0.
  rewrite (uint16_small (len (f_vector F) * 4)) by (unfold MaxUint16; lia).
  replace ((len (f_vector F) * 4 + 3) / 4) with (len (f_vector F))
    by (apply (Z.div_unique_pos _ 4 _ 3); lia).
  rewrite to_nat_len.
  assert (Hall : forall out, length out = length (f_vector F) ->
            firstn (length (f_vector F)) (f_vector F) ++ skipn (length (f_vector F)) out
            = f_vector F).
  { intros out Hlen. rewrite firstn_all, skipn_all2 by lia. apply app_nil_r. }
  destruct (Z.geb_spec (len (elems buffer)) (len (f_vector F))) as [Hcap|Hcap].
  - destruct buffer as [b|]; cbn [option_map].
    + eexists. split; [ reflexivity | ]. cbn [elems]. apply Hall.
      cbn [elems] in Hcap. apply firstn_length_le. unfold len in *. lia.
    + exists None. split; [ reflexivity | ]. cbn [elems] in *.
      change (len (@nil float32)) with 0 in Hcap.
      destruct (f_vector F); [ reflexivity | unfold len in Hcap; cbn in Hcap; lia ].
  - eexists. split; [ reflexivity | ]. cbn [elems]. apply Hall. apply repeat_length.
Qed.

End PrimaryVectorFacts.

Lemma wrapping_encoded :
  MarshalBinary (E := Reference.externals) Samples.wrapping
  = (Some (frameBytes (Samples.frameFor Samples.wrapping)), None).
Proof.
  apply MarshalBinary_frame.
  - apply (frameFor_ok (E := Reference.externals) Samples.frameFor);
      [ reflexivity | vm_compute; reflexivity ].
  - vm_compute. reflexivity.
Qed.

(** C2, at a primary vector of 16384 elements: the object is encoded, the
    length field of the frame is at offset 42 and holds 16384, and the vector
    reader with the empty target name returns 16384 zeros, where the vector of
    the object holds 16384 times the bits of 1.0: the product of the length by
    4 wraps in 16 bits to 0 and not one element is read. *)
Theorem VectorFromBinary_wraps_at_16384 :
  let data := frameBytes (Samples.frameFor Samples.wrapping) in
  MarshalBinary (E := Reference.externals) Samples.wrapping = (Some data, None) /\
  subslice data 42 44 = Ok (le_split 2 16384) /\
  match VectorFromBinary (E := Reference.externals) data None "" with
  | Ok (Some out) => (len out =? 16384) && forallb (Z.eqb 0) out
  | _ => false
  end = true /\
  (len (elems (Vector Samples.wrapping)) =? 16384)
  && forallb (Z.eqb Samples.one) (elems (Vector Samples.wrapping)) = true.
Proof.
  intros data. split; [ exact wrapping_encoded | ].
  split; [ vm_compute; reflexivity | ].
  split; vm_compute; reflexivity.
Qed.

(** C3, at a primary vector of 16384 elements: the object, of class [Thing],
    is encoded, and the decoder of id and class returns its id with the empty
    class: the product of the length by 4 wraps in 16 bits to 0, the vector
    is not skipped, and the length of the class name is read from the first
    two bytes of the vector. *)
Theorem FromBinaryUUIDOnly_wraps_at_16384 :
  let data := frameBytes (Samples.frameFor Samples.wrapping) in
  MarshalBinary (E := Reference.externals) Samples.wrapping = (Some data, None) /\
  Class Samples.wrapping = "Thing"%string /\
  match FromBinaryUUIDOnly (E := Reference.externals) data with
  | Ok ko' => ID ko' = ID Samples.wrapping /\ Class ko' = ""%string
  | Err _ => False
  end.
Proof.
  intros data. split; [ exact wrapping_encoded | ].
  split; [ reflexivity | ].
  vm_compute. split; reflexivity.
Qed.

Lemma fetch_one id :
  id = 1 \/ id = 2 \/ id = 4 ->
  objectsByDocIDSequential (E := Reference.externals) (Some Samples.holed) [id]
    Samples.noMask None = Ok [Some (Samples.fetched id)].
Proof. intros [-> | [-> | ->]]; vm_compute; reflexivity. Qed.

Lemma fetch_three :
  objectsByDocIDSequential (E := Reference.externals) (Some Samples.holed) [3]
    Samples.noMask None = Ok [].
Proof. vm_compute. reflexivity. Qed.

(** C1, at the ids 1, 2, 3, 4 and a bucket that has nothing under 3: whatever
    the number of processors, the fetch returns four entries, the objects of
    ids 1, 2 and 4 and one nil, where three objects are claimed. With one
    processor the chunks are [1,2] and [3,4] and the nil comes last; with
    more, every id is a chunk and the nil is in the place of 3. *)
Theorem ObjectsByDocID_leaves_holes (GOMAXPROCS : Z) :
  1 <= GOMAXPROCS ->
  ObjectsByDocID (E := Reference.externals) GOMAXPROCS (Some Samples.holed)
    [1; 2; 3; 4] Samples.noMask None
  = Ok (if GOMAXPROCS =? 1
        then [Some (Samples.fetched 1); Some (Samples.fetched 2);
              Some (Samples.fetched 4); None]
        else [Some (Samples.fetched 1); Some (Samples.fetched 2);
              None; Some (Samples.fetched 4)])
  /\ DocID (Samples.fetched 1) = 1 /\ DocID (Samples.fetched 2) = 2
  /\ DocID (Samples.fetched 4) = 4.
Proof.
  intros Hg. split; [ | repeat split; vm_compute; reflexivity ].
  destruct (Z.eqb_spec GOMAXPROCS 1) as [->|Hne]; [ vm_compute; reflexivity | ].
  unfold ObjectsByDocID. change (len [1; 2; 3; 4] =? 1) with false. cbv iota.
  unfold objectsByDocIDParallel. change (len [1; 2; 3; 4]) with 4.
  assert (Hcs : Z.max ((4 + 2 * GOMAXPROCS - 1) / (2 * GOMAXPROCS)) 1 = 1).
  { rewrite <- (Z.div_unique_pos (4 + 2 * GOMAXPROCS - 1) (2 * GOMAXPROCS) 1 3) by lia.
    reflexivity. }
  rewrite Hcs. change (Z.to_nat 1) with 1%nat.
  destruct (Z.to_nat (2 * GOMAXPROCS)) as [|[|[|[|n]]]] eqn:Ht; try lia.
  cbn -[objectsByDocIDSequential Samples.fetched Samples.holed].
  rewrite (fetch_one 1) by auto.
  cbn -[objectsByDocIDSequential Samples.fetched Samples.holed].
  rewrite (fetch_one 2) by auto.
  cbn -[objectsByDocIDSequential Samples.fetched Samples.holed].
  rewrite fetch_three.
  cbn -[objectsByDocIDSequential Samples.fetched Samples.holed].
  rewrite (fetch_one 4) by auto.
  cbn -[objectsByDocIDSequential Samples.fetched Samples.holed].
  destruct n; reflexivity.
Qed.

Lemma ObjectsByDocID_leaves_holes_witness :
  ObjectsByDocID (E := Reference.externals) 1 (Some Samples.holed)
    [1; 2; 3; 4] Samples.noMask None
  = Ok [Some (Samples.fetched 1); Some (Samples.fetched 2);
        Some (Samples.fetched 4); None].
Proof.
  exact (proj1 (ObjectsByDocID_leaves_holes 1 ltac:(lia))).
Defined.
(** ** The readers of the header *)

Lemma io_ReadFull_exact bs rest n :
  n = length bs -> io_ReadFull (bs ++ rest) n = inl (bs, rest).
Proof.
  intros ->. unfold io_ReadFull.
  replace (length bs <=? length (bs ++ rest))%nat with true
    by (symmetry; apply Nat.leb_le; rewrite length_app; lia).
  now rewrite firstn_exact, skipn_exact.
Qed.

Lemma binary_Read_le w v rest :
  0 <= v < 2 ^ (Z.of_nat w * 8) ->
  binary_Read (le_split w v ++ rest) w = inl (v, rest).
Proof.
  intros Hv. unfold binary_Read.
  rewrite io_ReadFull_exact by now rewrite length_le_split.
  now rewrite le_combine_small.
Qed.

Lemma io_ReadFull_short r n :
  (length r < n)%nat ->
  io_ReadFull r n = inr (if (length r =? 0)%nat then EOF else ErrUnexpectedEOF).
Proof.
  intros H. unfold io_ReadFull.
  replace (n <=? length r)%nat with false by (symmetry; apply Nat.leb_gt; lia).
  now destruct (length r =? 0)%nat.
Qed.

Lemma io_ReadFull_enough r n :
  (n <= length r)%nat ->
  io_ReadFull r n = inl (firstn n r, skipn n r).
Proof.
  intros H. unfold io_ReadFull.
  now replace (n <=? length r)%nat with true by (symmetry; apply Nat.leb_le; lia).
Qed.

Lemma le_combine_one (b : byte) : le_combine [b] = byte.unsigned b.
Proof. destruct b; reflexivity. Qed.

Lemma unsigned_one (b : byte) : byte.unsigned b = 1 -> b = Byte.x01.
Proof. destruct b; cbn; intros H; try discriminate H; reflexivity. Qed.

Lemma DocIDFromBinary_cons (version : byte) (docID : Z) (rest : bytes) :
  0 <= docID < 2 ^ 64 ->
  DocIDFromBinary (version :: le_split 8 docID ++ rest) = (docID, None).
Proof.
  intros H. unfold DocIDFromBinary.
  replace (len (version :: le_split 8 docID ++ rest) <? 9) with false.
  2:{ symmetry. apply Z.ltb_ge. unfold len. cbn [length].
      rewrite length_app, length_le_split. lia. }
  cbn [skipn].
  rewrite (firstn_exact (le_split 8 docID) rest : firstn 8 _ = _).
  now rewrite le_combine_small.
Qed.

Lemma DocIDAndTimeFromBinary_cons (b : byte) (rest : bytes) :
  DocIDAndTimeFromBinary (b :: rest) =
  if negb (byte.unsigned b =? 1)
  then (0, 0, Some (UnsupportedMarshallerVersion (byte.unsigned b)))
  else
    match binary_Read rest 8 with
    | inr err => (0, 0, Some err)
    | inl (docID, r) =>
        match io_ReadFull r (1 + 16 + 8 + 8) with
        | inr err => (0, 0, Some err)
        | inl (buf, _) =>
            (docID, int64 (le_combine (firstn 8 (skipn (1 + 16 + 8) buf))), None)
        end
    end.
Proof.
  unfold DocIDAndTimeFromBinary. cbv zeta.
  change (binary_Read (b :: rest) 1) with (@inl (Z * bytes) headerError (le_combine [b], rest)).
  cbv iota beta. now rewrite le_combine_one.
Qed.

(** The bytes of a frame in front of the length of the primary vector. *)
Lemma frameBytes_header F :
  frameBytes F =
  Byte.x01 :: le_split 8 (f_docID F) ++
  ((le_split 1 1 ++ f_uuid F ++ le_split 8 (uint64 (f_create F))) ++
   le_split 8 (uint64 (f_update F))) ++
  le_split 2 (len (f_vector F)) ++ floatsBytes (f_vector F) ++ tailBytes F.
Proof.
  rewrite frameBytes_eq. unfold tailBytes. rewrite <- !app_assoc. reflexivity.
Qed.

Lemma DocIDAndTimeFromBinary_frame F :
  frameOk F = true ->
  DocIDAndTimeFromBinary (frameBytes F) = (f_docID F, f_update F, None).
Proof.
  intros Hok.
  apply frameOk_inv in Hok as (Hdoc & Hid & Hct & Hut & _).
  rewrite frameBytes_header, DocIDAndTimeFromBinary_cons.
  change (byte.unsigned Byte.x01 =? 1) with true. cbn [negb].
  rewrite (binary_Read_le 8) by exact Hdoc.
  rewrite io_ReadFull_exact
    by (rewrite !length_app, !length_le_split, Hid; reflexivity).
  replace (1 + 16 + 8)%nat
    with (length (le_split 1 1 ++ f_uuid F ++ le_split 8 (uint64 (f_create F))))
    by (rewrite !length_app, !length_le_split, Hid; reflexivity).
  rewrite skipn_exact.
  rewrite (firstn_all2 (n := 8)) by (rewrite length_le_split; lia).
  rewrite le_combine_small by apply uint64_range.
  now rewrite int64_uint64.
Qed.

Lemma DocIDFromBinary_frame F :
  frameOk F = true -> DocIDFromBinary (frameBytes F) = (f_docID F, None).
Proof.
  intros Hok.
  apply frameOk_inv in Hok as (Hdoc & _).
  rewrite frameBytes_header. now apply DocIDFromBinary_cons.
Qed.

(** X1: [DocIDFromBinary] refuses a slice of fewer than 9 bytes; on any
    other it returns the little-endian value of the bytes 1 to 8 and no
    error, whatever the first byte is: it does not check the version. On the
    bytes of a sound frame that value is the doc id of the frame. *)
Theorem DocIDFromBinary_reads_bytes_1_to_8 :
  (forall in_ : bytes,
      len in_ < 9 -> DocIDFromBinary in_ = (0, Some BinaryDataTooShort)) /\
  (forall (version : byte) (docID : Z) (rest : bytes),
      0 <= docID < 2 ^ 64 ->
      DocIDFromBinary (version :: le_split 8 docID ++ rest) = (docID, None)) /\
  (forall F : Frame,
      frameOk F = true -> DocIDFromBinary (frameBytes F) = (f_docID F, None)).
Proof.
  split; [ | split ].
  - intros in_ H. unfold DocIDFromBinary.
    now rewrite (proj2 (Z.ltb_lt _ _) H).
  - intros version docID rest H. now apply DocIDFromBinary_cons.
  - intros F Hok. now apply DocIDFromBinary_frame.
Qed.

Lemma DocIDFromBinary_reads_bytes_1_to_8_witness :
  DocIDFromBinary [Byte.x01; Byte.x2a] = (0, Some BinaryDataTooShort) /\
  DocIDFromBinary (Byte.x07 :: le_split 8 42 ++ [Byte.xff]) = (42, None) /\
  DocIDFromBinary (frameBytes Samples.legacy) = (42, None).
Proof.
  destruct DocIDFromBinary_reads_bytes_1_to_8 as (Hshort & Hany & Hframe).
  split; [ | split ].
  - apply Hshort. reflexivity.
  - apply Hany. lia.
  - apply (Hframe Samples.legacy). vm_compute. reflexivity.
Defined.

(** X2: [DocIDAndTimeFromBinary] succeeds exactly on the slices of at least
    42 bytes whose first byte is 1; when it fails, doc id and update time are
    0; and it reads nothing after the first 42 bytes. *)
Theorem DocIDAndTimeFromBinary_reads_42_bytes (in_ : bytes) :
  (snd (DocIDAndTimeFromBinary in_) = None <->
   42 <= len in_ /\ exists rest, in_ = Byte.x01 :: rest) /\
  (snd (DocIDAndTimeFromBinary in_) <> None ->
   fst (DocIDAndTimeFromBinary in_) = (0, 0)) /\
  (42 <= len in_ ->
   DocIDAndTimeFromBinary in_ = DocIDAndTimeFromBinary (firstn 42 in_)).
Proof.
  destruct in_ as [|b rest].
  { split; [ | split ].
    - split; [ discriminate | ]. intros [H _]. unfold len in H. cbn in H. lia.
    - reflexivity.
    - unfold len. cbn. lia. }
  assert (Hlen : len (b :: rest) = 1 + Z.of_nat (length rest))
    by (unfold len; cbn [length]; lia).
  rewrite Hlen. change (firstn 42 (b :: rest)) with (b :: firstn 41 rest).
  rewrite !DocIDAndTimeFromBinary_cons.
  destruct (Z.eqb_spec (byte.unsigned b) 1) as [Hb|Hb]; cbn [negb].
  2:{ split; [ | split ]; try reflexivity.
      split; [ discriminate | ]. intros (_ & r & Hr). inversion Hr; subst b.
      now contradiction Hb. }
  apply unsigned_one in Hb. subst b.
  unfold binary_Read.
  destruct (Nat.le_gt_cases 8 (length rest)) as [H8|H8].
  2:{ rewrite io_ReadFull_short by lia.
      split; [ | split ]; try reflexivity; try lia.
      split; [ discriminate | ]. intros [H _]. lia. }
  rewrite (io_ReadFull_enough rest 8) by lia.
  destruct (Nat.le_gt_cases 33 (length (skipn 8 rest))) as [H33|H33].
  2:{ rewrite io_ReadFull_short by (change (1 + 16 + 8 + 8)%nat with 33%nat; lia).
      rewrite length_skipn in H33.
      split; [ | split ]; try reflexivity; try lia.
      split; [ discriminate | ]. intros [H _]. lia. }
  rewrite io_ReadFull_enough by (change (1 + 16 + 8 + 8)%nat with 33%nat; lia).
  rewrite length_skipn in H33.
  split; [ | split ].
  - split; [ | reflexivity ]. intros _. split; [ lia | now exists rest ].
  - intros H. now contradiction H.
  - intros _.
    rewrite (io_ReadFull_enough (firstn 41 rest) 8) by (rewrite length_firstn; lia).
    rewrite io_ReadFull_enough
      by (rewrite length_skipn, length_firstn;
          change (1 + 16 + 8 + 8)%nat with 33%nat; lia).
    change (1 + 16 + 8 + 8)%nat with 33%nat.
    replace (firstn 8 (firstn 41 rest)) with (firstn 8 rest)
      by (rewrite firstn_firstn; reflexivity).
    replace (firstn 33 (skipn 8 (firstn 41 rest))) with (firstn 33 (skipn 8 rest));
      [ reflexivity | ].
    rewrite (skipn_firstn_comm 8 41 rest). change (41 - 8)%nat with 33%nat.
    rewrite firstn_firstn. reflexivity.
Qed.

Lemma DocIDAndTimeFromBinary_reads_42_bytes_witness :
  DocIDAndTimeFromBinary (frameBytes Samples.legacy)
  = DocIDAndTimeFromBinary (firstn 42 (frameBytes Samples.legacy)) /\
  fst (DocIDAndTimeFromBinary [Byte.x01; Byte.x2a]) = (0, 0).
Proof.
  split.
  - apply (proj2 (proj2 (DocIDAndTimeFromBinary_reads_42_bytes
                           (frameBytes Samples.legacy)))).
    vm_compute. discriminate.
  - apply (proj1 (proj2 (DocIDAndTimeFromBinary_reads_42_bytes
                           [Byte.x01; Byte.x2a]))).
    vm_compute. discriminate.
Defined.

(** X3: on the encoding of an accepted object the two readers of the header
    return the doc id of the object, and its time of last update. *)
Theorem header_readers_of_encoded {E : Externals} (ko : Object) (F : Frame) :
  frameOf ko = Ok F -> encodes ko F = true ->
  MarshalBinary ko = (Some (frameBytes F), None) /\
  DocIDFromBinary (frameBytes F) = (GetDocID ko, None) /\
  DocIDAndTimeFromBinary (frameBytes F) = (GetDocID ko, LastUpdateTimeUnix ko, None).
Proof.
  intros HF Henc.
  pose proof (encodes_frameOk ko F HF Henc) as Hok.
  split; [ now apply MarshalBinary_frame | ].
  rewrite (DocIDFromBinary_frame F Hok), (DocIDAndTimeFromBinary_frame F Hok).
  apply frameOf_inv in HF as (? & ? & ? & ? & ? & ? & _ & _ & _ & _ & _ & ->).
  split; reflexivity.
Qed.

Lemma header_readers_of_encoded_witness :
  DocIDFromBinary (frameBytes (Samples.frameFor Samples.named)) = (42, None) /\
  DocIDAndTimeFromBinary (frameBytes (Samples.frameFor Samples.named))
  = (42, 2000, None).
Proof.
  refine (proj2 (header_readers_of_encoded (E := Reference.externals) Samples.named
                   (Samples.frameFor Samples.named) _ _)).
  - vm_compute. reflexivity.
  - vm_compute. reflexivity.
Defined.

(** ** The properties of a frame, the version and the full decoder *)

Section PartialReaders.
Context {E : Externals}.

Lemma UnmarshalPropertiesFromObject_frame F properties aggregationProperties propStrings :
  frameOk F = true ->
  UnmarshalPropertiesFromObject (frameBytes F) properties aggregationProperties
    propStrings
  = UnmarshalProperties (f_props F) [] aggregationProperties propStrings.
Proof.
  intros Hok.
  apply frameOk_inv in Hok as (Hdoc & Hid & Hct & Hut & Hv & Hcl & Hpr & Hme & Hwe & Hna).
  pose proof (vectorOk_len _ Hv) as Hvl.
  pose proof (len_nonneg (f_vector F)). pose proof (len_nonneg (f_class F)).
  pose proof (len_nonneg (f_props F)).
  unfold UnmarshalPropertiesFromObject.
  replace (match frameBytes F with
           | [] => Err IndexOutOfRange
           | b :: _ => Ok (byte.unsigned b)
           end) with (@Ok Z 1) by reflexivity.
  cbn [negb Z.eqb Pos.eqb]. cbv zeta.
  assert (R : Rest (WithPosition (1 + 8 + 1 + 16 + 8 + 8) (NewReadWriter (frameBytes F)))
                (le_split 2 (len (f_vector F)) ++ floatsBytes (f_vector F) ++
                 le_split 2 (len (f_class F)) ++ f_class F ++
                 le_split 4 (len (f_props F)) ++ f_props F ++
                 le_split 4 (len (f_meta F)) ++ f_meta F ++
                 le_split 4 (len (f_weights F)) ++ f_weights F ++
                 namedBytes (f_named F))).
  { apply (Rest_with (le_split 1 1 ++ le_split 8 (f_docID F) ++ le_split 1 1 ++
                      f_uuid F ++ le_split 8 (f_create F) ++ le_split 8 (f_update F))).
    - unfold frameBytes, tailBytes. now rewrite <- !app_assoc.
    - rewrite !len_app, !len_le_split. unfold len. rewrite Hid. reflexivity. }
  assert (HBuf : Buffer (WithPosition (1 + 8 + 1 + 16 + 8 + 8)
                           (NewReadWriter (frameBytes F))) = frameBytes F) by reflexivity.
  remember (WithPosition (1 + 8 + 1 + 16 + 8 + 8) (NewReadWriter (frameBytes F)))
    as rw0 eqn:Hrw0. clear Hrw0.
  destruct (Rest_ReadUint16 _ _ _ R ltac:(lia)) as [-> R1]. clear R.
  rewrite (uint64_small (len (f_vector F))) by bound.
  apply (Rest_forward _ _ _ (len (f_vector F) * 4)) in R1;
    [ | rewrite len_floatsBytes; lia ].
  destruct (Rest_ReadUint16 _ _ _ R1 ltac:(lia)) as [-> R2]. clear R1.
  rewrite (uint64_small (len (f_class F))) by bound.
  apply (Rest_forward _ _ _ (len (f_class F))) in R2; [ | reflexivity ].
  destruct (Rest_ReadUint32 _ _ _ R2 ltac:(lia)) as [-> R3]. clear R2.
  rewrite (uint64_small (len (f_props F))) by bound.
  rewrite (Rest_subslice _ _ _ _ (len (f_props F)) R3 eq_refl eq_refl).
  reflexivity.
Qed.

Lemma ReadUint8_first (b : byte) (rest : bytes) :
  ReadUint8 (NewReadWriter (b :: rest))
  = Ok (byte.unsigned b, MoveBufferPositionForward (NewReadWriter (b :: rest)) 1).
Proof.
  unfold ReadUint8, read_le, ReadBytesFromBuffer, in_bounds, NewReadWriter.
  cbn [Position Buffer].
  replace (0 + Z.of_nat 1 <=? len (b :: rest)) with true
    by (symmetry; apply Z.leb_le; unfold len; cbn [length]; lia).
  change (Z.of_nat 1) with 1. change (Z.to_nat 1) with 1%nat.
  change (Z.to_nat 0) with 0%nat.
  cbn [Z.leb Z.compare andb skipn firstn]. now rewrite le_combine_one.
Qed.

(** X4: [UnmarshalPropertiesFromObject] on the bytes of a sound frame gives
    what [UnmarshalProperties] gives on the properties of the frame, started
    from the empty map: nothing of what the map held before the call is left,
    for a primary vector of any length. With a first byte other than 1 it
    returns the error of the version and leaves the map as it was; on an
    empty slice it panics. *)
Theorem UnmarshalPropertiesFromObject_reads_the_properties
  (properties : propmap) (aggregationProperties : list string)
  (propStrings : list (list string)) :
  (forall F : Frame,
      frameOk F = true ->
      UnmarshalPropertiesFromObject (frameBytes F) properties aggregationProperties
        propStrings
      = UnmarshalProperties (f_props F) [] aggregationProperties propStrings) /\
  (forall (b : byte) (rest : bytes),
      byte.unsigned b <> 1 ->
      UnmarshalPropertiesFromObject (b :: rest) properties aggregationProperties
        propStrings
      = Ok (properties, Some (UnsupportedVersion (byte.unsigned b)))) /\
  UnmarshalPropertiesFromObject [] properties aggregationProperties propStrings
  = Err IndexOutOfRange.
Proof.
  split; [ | split ].
  - intros F Hok. now apply UnmarshalPropertiesFromObject_frame.
  - intros b rest Hb. unfold UnmarshalPropertiesFromObject.
    now rewrite (proj2 (Z.eqb_neq _ _) Hb).
  - reflexivity.
Qed.

Lemma parseObject_identity ko uuid create update className propsB additionalB
  vectorWeightsB properties propLength o :
  parseObject ko uuid create update className propsB additionalB vectorWeightsB
    properties propLength = Ok o ->
  ID o = uuid /\ Class o = className /\ CreationTimeUnix o = create /\
  LastUpdateTimeUnix o = update /\
  MarshallerVersion o = MarshallerVersion ko /\ DocID o = DocID ko /\
  Vector o = Vector ko /\ VectorLen o = VectorLen ko /\ Vectors o = Vectors ko /\
  models.Vector (Object_ o) = None /\ models.Vectors (Object_ o) = None.
Proof.
  intros Hparse. unfold parseObject in Hparse.
  repeat match type of Hparse with
         | context [match ?x with Ok _ => _ | Err _ => _ end] =>
             lazymatch x with
             | context [match _ with _ => _ end] => fail
             | _ => destruct x; try discriminate
             end
         | context [let (_, _) := ?x in _] => destruct x
         | context [if ?x then _ else _] => destruct x
         | context [match ?x with Some _ => _ | None => _ end] => destruct x
         end;
    inversion Hparse; subst o; cbn; auto 20.
Qed.

(** X5: every decoder that checks the version refuses a slice whose first
    byte is not 1 with the error of that version, whatever follows the byte
    and whatever is asked for; the encoder refuses an object whose version is
    not 1 and returns no buffer. *)
Theorem version_is_checked (b : byte) (rest : bytes)
  (addProp : additional.Properties) (properties : option PropertyExtraction)
  (buffer : slice float32) (targetVector : string) :
  byte.unsigned b <> 1 ->
  FromBinary (b :: rest) = Err (UnsupportedVersion (byte.unsigned b)) /\
  FromBinaryOptional (b :: rest) addProp properties
  = Err (UnsupportedVersion (byte.unsigned b)) /\
  FromBinaryUUIDOnly (b :: rest) = Err (UnsupportedVersion (byte.unsigned b)) /\
  VectorFromBinary (b :: rest) buffer targetVector
  = Err (UnsupportedVersion (byte.unsigned b)) /\
  DocIDAndTimeFromBinary (b :: rest)
  = (0, 0, Some (UnsupportedMarshallerVersion (byte.unsigned b))) /\
  (forall ko : Object,
      MarshallerVersion ko <> 1 ->
      MarshalBinary ko = (None, Some (UnsupportedVersion (MarshallerVersion ko)))).
Proof.
  intros Hb. apply Z.eqb_neq in Hb.
  repeat split.
  - unfold FromBinary, UnmarshalBinary. now rewrite Hb.
  - unfold FromBinaryOptional. rewrite ReadUint8_first. cbv zeta.
    cbn [MarshallerVersion setMarshallerVersion]. now rewrite Hb.
  - unfold FromBinaryUUIDOnly. rewrite ReadUint8_first. now rewrite Hb.
  - unfold VectorFromBinary.
    replace (len (b :: rest) =? 0) with false
      by (symmetry; apply Z.eqb_neq; unfold len; cbn [length]; lia).
    now rewrite Hb.
  - rewrite DocIDAndTimeFromBinary_cons. now rewrite Hb.
  - intros ko Hko. unfold MarshalBinary.
    now rewrite (proj2 (Z.eqb_neq _ _) Hko).
Qed.

End PartialReaders.

Lemma UnmarshalPropertiesFromObject_reads_the_properties_witness :
  UnmarshalPropertiesFromObject (E := Reference.externals)
    (frameBytes (Samples.frameFor Samples.named))
    [("stale"%string, VBool true)] ["name"%string] [["name"%string]]
  = Ok ([("name"%string, VString "a")], None).
Proof.
  rewrite (proj1 (UnmarshalPropertiesFromObject_reads_the_properties
                    (E := Reference.externals)
                    [("stale"%string, VBool true)] ["name"%string] [["name"%string]])
             (Samples.frameFor Samples.named)).
  - vm_compute. reflexivity.
  - vm_compute. reflexivity.
Defined.

Lemma version_is_checked_witness :
  FromBinary (E := Reference.externals) [Byte.x02]
  = Err (UnsupportedVersion 2) /\
  DocIDAndTimeFromBinary [Byte.x02] = (0, 0, Some (UnsupportedMarshallerVersion 2)).
Proof.
  destruct (version_is_checked (E := Reference.externals) Byte.x02 []
              Samples.noMask None None ""%string) as (H1 & _ & _ & _ & H5 & _).
  - discriminate.
  - split; [ exact H1 | exact H5 ].
Defined.

(** ** The partial decoders and the full decoder *)

Section Agreement.
Context {E : Externals}.

(** What the full decoder has read when it succeeds on a sound frame. *)
Lemma FromBinary_frame_inv F ko' :
  frameOk F = true -> FromBinary (frameBytes F) = Ok ko' ->
  exists vectors rw o,
    unmarshalTargetVectors (atNamed F) = Ok (vectors, rw) /\
    parseObject zeroObject (uuid_String (f_uuid F)) (f_create F) (f_update F)
      (string_of_list_byte (f_class F)) (f_props F) (f_meta F) (f_weights F)
      None 0 = Ok o /\
    ko' = {| MarshallerVersion := 1; Object_ := Object_ o;
             Vector := Some (f_vector F); VectorLen := len (f_vector F);
             BelongsToNode := ""; BelongsToShard := ""; IsConsistent := false;
             DocID := f_docID F; Vectors := vectors |}.
Proof.
  intros Hok H. unfold FromBinary in H.
  rewrite (UnmarshalBinary_frame _ F Hok) in H.
  destruct (unmarshalTargetVectors (atNamed F)) as [[vectors rw]|e] eqn:Hun;
    [ | discriminate ].
  rewrite parseObject_receiver in H.
  destruct (parseObject zeroObject _ _ _ _ _ _ _ None 0) as [o|e] eqn:Hp;
    [ | discriminate ].
  exists vectors, rw, o. split; [ reflexivity | split; [ reflexivity | ] ].
  inversion H. reflexivity.
Qed.

(** X6: on a sound frame that the full decoder accepts, the reader of one
    vector returns what the full decoder puts into the object: under a name
    that is not empty the named vector of that name, or the not-found error
    when the object has none; under the empty name the primary vector, when
    it has fewer than 16384 elements. The scratch buffer does not change
    what is returned. *)
Theorem VectorFromBinary_agrees_with_FromBinary (F : Frame) (ko' : Object)
  (buffer : slice float32) (targetVector : string) :
  frameOk F = true -> FromBinary (frameBytes F) = Ok ko' ->
  (targetVector <> ""%string ->
   VectorFromBinary (frameBytes F) buffer targetVector
   = match map_get targetVector (elems (Vectors ko')) with
     | Some vector => Ok (Some vector)
     | None => Err (NotFound targetVector)
     end) /\
  (len (f_vector F) < 16384 ->
   exists out,
     VectorFromBinary (frameBytes F) buffer "" = Ok out /\
     Vector ko' = Some (elems out)).
Proof.
  intros Hok H.
  destruct (FromBinary_frame_inv F ko' Hok H) as (vectors & rw & o & Hun & _ & ->).
  cbn [Vectors Vector]. split.
  - intros Hne. rewrite (VectorFromBinary_named_frame F buffer _ Hok Hne), Hun.
    reflexivity.
  - intros Hshort.
    destruct (VectorFromBinary_primary_small F buffer Hok Hshort) as (out & Hv & He).
    exists out. split; [ exact Hv | now rewrite He ].
Qed.

(** X7: on a sound frame that the full decoder accepts and whose primary
    vector has fewer than 16384 elements, the reader of id and class returns
    the version, the doc id, the id and the class that the full decoder
    returns, in an object that holds nothing else; the object is valid when
    the fully decoded one is. *)
Theorem FromBinaryUUIDOnly_agrees_with_FromBinary (F : Frame) (ko' : Object) :
  frameOk F = true -> len (f_vector F) < 16384 ->
  FromBinary (frameBytes F) = Ok ko' ->
  exists ko1,
    FromBinaryUUIDOnly (frameBytes F) = Ok ko1 /\
    MarshallerVersion ko1 = MarshallerVersion ko' /\
    GetDocID ko1 = GetDocID ko' /\ ID ko1 = ID ko' /\ Class ko1 = Class ko' /\
    Valid ko1 = Valid ko' /\
    ko1 = SetClass (SetID (SetDocID (New 0) (DocID ko')) (ID ko')) (Class ko').
Proof.
  intros Hok Hshort H.
  destruct (FromBinary_frame_inv F ko' Hok H) as (vectors & rw & o & _ & Hp & ->).
  apply parseObject_identity in Hp as (Hid & Hcl & _).
  exists (idAndClass F). split; [ now apply FromBinaryUUIDOnly_frame | ].
  unfold Valid, GetDocID, ID, Class in *. cbn [Object_ MarshallerVersion DocID].
  rewrite Hid, Hcl. repeat split.
Qed.

(** X8: on a sound frame whose properties are not empty, the optional
    decoder asked for everything (the vector, the properties, the additional
    properties and the named vectors, with no projection of the properties)
    returns an object exactly when the full decoder does, and the same
    one. *)
Theorem FromBinaryOptional_of_everything (F : Frame)
  (addProp : additional.Properties) (ko' : Object) :
  frameOk F = true ->
  additional.Vector addProp = true ->
  additional.NoProps addProp = false ->
  additional.Classification addProp = true \/ additional.ModuleParams addProp <> [] ->
  additional.Vectors addProp <> [] ->
  f_props F <> [] ->
  FromBinaryOptional (frameBytes F) addProp None = Ok ko' <->
  FromBinary (frameBytes F) = Ok ko'.
Proof.
  intros Hok Hv Hnp Hmeta Hvs Hprops.
  rewrite (FromBinaryOptional_frame F addProp None Hok).
  unfold FromBinary. rewrite (UnmarshalBinary_frame _ F Hok).
  unfold maskedProps, maskedMeta. rewrite Hv, Hnp.
  replace (additional.Classification addProp
           || (len (additional.ModuleParams addProp) >? 0)) with true.
  2:{ symmetry. destruct Hmeta as [-> | Hm]; [ reflexivity | ].
      apply orb_true_iff. right. apply Z.gtb_lt.
      destruct (additional.ModuleParams addProp); [ congruence | ].
      unfold len. cbn [length]. lia. }
  replace (len (additional.Vectors addProp) >? 0) with true.
  2:{ symmetry. apply Z.gtb_lt. destruct (additional.Vectors addProp);
        [ congruence | ]. unfold len. cbn [length]. lia. }
  replace (needsEnrichment (f_props F) (f_meta F) (f_weights F) (len (f_weights F)))
    with true.
  2:{ symmetry. unfold needsEnrichment. apply orb_true_iff. left.
      apply orb_true_iff. left. apply Z.gtb_lt.
      destruct (f_props F); [ congruence | ]. unfold len. cbn [length]. lia. }
  cbv zeta.
  destruct (unmarshalTargetVectors (atNamed F)) as [[vectors rw]|e];
    [ | split; discriminate ].
  assert (Hsame : forall ko n,
             parseObject ko (uuid_String (f_uuid F)) (f_create F) (f_update F)
               (string_of_list_byte (f_class F)) (f_props F) (f_meta F) (f_weights F)
               None n
             = parseObject ko (uuid_String (f_uuid F)) (f_create F) (f_update F)
                 (string_of_list_byte (f_class F)) (f_props F) (f_meta F) (f_weights F)
                 None 0) by reflexivity.
  destruct vectors as [vs|]; rewrite Hsame, parseObject_receiver;
    rewrite (parseObject_receiver
               (setVectors
                  (setVector
                     (setVectorLen (SetDocID (setMarshallerVersion zeroObject 1) (f_docID F))
                        (len (f_vector F)))
                     (Some (f_vector F))) _));
    destruct (parseObject zeroObject _ _ _ _ _ _ _ None 0) as [o|e];
    cbn [wrap_error]; split; intros H; try discriminate H;
    inversion H; reflexivity.
Qed.

(** X9: the optional decoder asked for named vectors returns all the named
    vectors of the encoded object, whatever names the mask lists; asked for
    none, it returns none. *)
Theorem FromBinaryOptional_named_vectors (ko : Object) (F : Frame)
  (addProp : additional.Properties) (properties : option PropertyExtraction)
  (ko' : Object) :
  frameOf ko = Ok F -> encodes ko F = true ->
  offsetsReadBack F (elems (Vectors ko)) ->
  FromBinaryOptional (frameBytes F) addProp properties = Ok ko' ->
  match additional.Vectors addProp with
  | [] => Vectors ko' = None
  | _ :: _ => forall k, map_get k (elems (Vectors ko')) = map_get k (elems (Vectors ko))
  end.
Proof.
  intros HF Henc Hback H.
  pose proof (encodes_frameOk ko F HF Henc) as Hok.
  rewrite (FromBinaryOptional_frame F addProp properties Hok) in H. cbv zeta in H.
  destruct (unmarshalTargetVectors_encoded ko F HF Henc Hback) as (tvs & rw & Hun & Hget).
  rewrite Hun in H.
  assert (Hkeep : forall k0 : Object,
             match (if needsEnrichment (maskedProps addProp F) (maskedMeta addProp F)
                         (f_weights F) (len (f_weights F))
                    then
                      wrap_error "parse"
                        (parseObject k0 (uuid_String (f_uuid F)) (f_create F) (f_update F)
                           (string_of_list_byte (f_class F))
                           (maskedProps addProp F) (maskedMeta addProp F) (f_weights F)
                           properties (len (f_props F)))
                    else
                      Ok (setObject k0
                            (setIdentity (Object_ k0) (uuid_String (f_uuid F))
                               (f_create F) (f_update F)
                               (string_of_list_byte (f_class F))))) with
             | Ok r => Vectors r = Vectors k0
             | Err _ => True
             end).
  { intros k0. destruct (needsEnrichment _ _ _ _); [ | reflexivity ].
    destruct (parseObject k0 _ _ _ _ _ _ _ properties _) as [o|e] eqn:Hp;
      [ | exact I ].
    cbn [wrap_error]. now apply parseObject_identity in Hp. }
  destruct (additional.Vectors addProp) as [|v r].
  - change (len (@nil string) >? 0) with false in H. cbv iota in H.
    specialize (Hkeep (headerObject F (if additional.Vector addProp
                                       then Some (f_vector F) else None))).
    rewrite H in Hkeep. exact Hkeep.
  - replace (len (v :: r) >? 0) with true in H
      by (symmetry; apply Z.gtb_lt; unfold len; cbn [length]; lia).
    intros k. rewrite <- Hget.
    destruct tvs as [vs|]; cbv iota in H.
    + match type of H with
      | context [parseObject ?k0] => specialize (Hkeep k0)
      end.
      rewrite H in Hkeep. rewrite Hkeep. reflexivity.
    + match type of H with
      | context [parseObject ?k0] => specialize (Hkeep k0)
      end.
      rewrite H in Hkeep. rewrite Hkeep. reflexivity.
Qed.

End Agreement.

Lemma offsetsReadBack_named :
  offsetsReadBack (E := Reference.externals) (Samples.frameFor Samples.named)
    (elems (Vectors Samples.named)).
Proof.
  exists (offsetsOf (elems (Vectors Samples.named)) 0). split.
  - vm_compute. reflexivity.
  - apply Permutation_refl.
Qed.

Lemma VectorFromBinary_agrees_with_FromBinary_witness :
  VectorFromBinary (E := Reference.externals) Cases.encoded None "b"
  = Ok (Some [Samples.two; Samples.three]) /\
  exists out,
    VectorFromBinary (E := Reference.externals) Cases.encoded None "" = Ok out /\
    Vector Cases.decoded = Some (elems out).
Proof.
  destruct (VectorFromBinary_agrees_with_FromBinary (E := Reference.externals)
              (Samples.frameFor Samples.named) Cases.decoded None "b")
    as [Hnamed _].
  - vm_compute. reflexivity.
  - vm_compute. reflexivity.
  - destruct (VectorFromBinary_agrees_with_FromBinary (E := Reference.externals)
                (Samples.frameFor Samples.named) Cases.decoded None "")
      as [_ Hprimary].
    + vm_compute. reflexivity.
    + vm_compute. reflexivity.
    + split.
      * unfold Cases.encoded. rewrite Hnamed by discriminate. vm_compute. reflexivity.
      * apply Hprimary. vm_compute. reflexivity.
Defined.

Lemma FromBinaryUUIDOnly_agrees_with_FromBinary_witness :
  exists ko1,
    FromBinaryUUIDOnly (E := Reference.externals) Cases.encoded = Ok ko1 /\
    ID ko1 = ID Cases.decoded /\ Class ko1 = Class Cases.decoded.
Proof.
  destruct (FromBinaryUUIDOnly_agrees_with_FromBinary (E := Reference.externals)
              (Samples.frameFor Samples.named) Cases.decoded)
    as (ko1 & H & _ & _ & Hid & Hcl & _).
  - vm_compute. reflexivity.
  - vm_compute. reflexivity.
  - vm_compute. reflexivity.
  - exists ko1. split; [ exact H | split; [ exact Hid | exact Hcl ] ].
Defined.

Lemma FromBinaryOptional_of_everything_witness :
  FromBinaryOptional (E := Reference.externals) Cases.encoded Cases.everything None
  = Ok Cases.decoded.
Proof.
  apply (proj2 (FromBinaryOptional_of_everything (E := Reference.externals)
                  (Samples.frameFor Samples.named) Cases.everything Cases.decoded
                  ltac:(vm_compute; reflexivity) eq_refl eq_refl
                  (or_introl eq_refl) ltac:(discriminate)
                  ltac:(vm_compute; discriminate))).
  vm_compute. reflexivity.
Defined.

Lemma FromBinaryOptional_named_vectors_witness :
  map_get "b" (elems (Vectors Cases.optional)) = Some [Samples.two; Samples.three].
Proof.
  refine (eq_trans
            (FromBinaryOptional_named_vectors (E := Reference.externals)
               Samples.named (Samples.frameFor Samples.named) Cases.everything None
               Cases.optional _ _ _ _ "b"%string) _).
  - vm_compute. reflexivity.
  - vm_compute. reflexivity.
  - exact offsetsReadBack_named.
  - vm_compute. reflexivity.
  - reflexivity.
Defined.

(** ** Fetching many objects *)

Lemma firstn_app_len {A} (a b : list A) m :
  length a = m -> firstn m (a ++ b) = a.
Proof. intros <-. apply firstn_exact. Qed.

Lemma skipn_app_len {A} (a b : list A) m j :
  length a = m -> skipn (m + j) (a ++ b) = skipn j b.
Proof.
  intros <-. revert j. induction a as [|x a IH]; intros j; [ reflexivity | ].
  cbn [length Nat.add app skipn]. apply IH.
Qed.

Lemma skipn_repeat {A} (x : A) j k : skipn j (repeat x k) = repeat x (k - j).
Proof.
  revert k. induction j as [|j IH]; intros k.
  - now rewrite Nat.sub_0_r.
  - destruct k as [|k]; [ reflexivity | ]. cbn [repeat skipn Nat.sub]. apply IH.
Qed.

Lemma firstn_plus {A} (l : list A) a b :
  firstn (a + b) l = firstn a l ++ firstn b (skipn a l).
Proof.
  revert l. induction a as [|a IH]; intros l; [ reflexivity | ].
  destruct l as [|x l]; [ cbn [Nat.add firstn skipn app]; now rewrite firstn_nil | ].
  cbn [Nat.add firstn skipn app]. now rewrite IH.
Qed.

Lemma In_firstn {A} (x : A) n l : In x (firstn n l) -> In x l.
Proof. intros H. rewrite <- (firstn_skipn n l). apply in_or_app. now left. Qed.

Lemma In_skipn {A} (x : A) n l : In x (skipn n l) -> In x l.
Proof. intros H. rewrite <- (firstn_skipn n l). apply in_or_app. now right. Qed.

(** The slots of [out] that hold an object, followed by those that hold
    none yet. *)
Lemma slot_write (done : list Object) (k : nat) (u : Object) :
  (1 <= k)%nat ->
  firstn (length done) (map Some done ++ repeat None k) ++
  Some u :: skipn (S (length done)) (map Some done ++ repeat None k)
  = map Some (done ++ [u]) ++ repeat None (k - 1).
Proof.
  intros Hk.
  rewrite (firstn_app_len (map Some done)) by apply length_map.
  replace (S (length done)) with (length done + 1)%nat by lia.
  rewrite (skipn_app_len (map Some done)) by apply length_map.
  rewrite skipn_repeat, map_app, <- app_assoc. reflexivity.
Qed.

Section Fetch.
Context {E : Externals}.

Lemma fetchLoop_compact (b : bucket) addl props : forall ids done k lsmBuf out i,
  (length ids <= k)%nat ->
  fetchLoop b ids addl props (map Some done ++ repeat None k) (length done) lsmBuf
  = Ok (out, i) ->
  exists more,
    out = map Some (done ++ more) ++ repeat None (k - length more) /\
    i = length (done ++ more) /\ (length more <= length ids)%nat.
Proof.
  induction ids as [|id rest IH]; intros done k lsmBuf out i Hk H.
  - cbn [fetchLoop] in H. inversion H; subst. exists [].
    rewrite app_nil_r, Nat.sub_0_r. auto.
  - cbn [fetchLoop] in H. cbn [length] in Hk.
    destruct (GetBySecondaryWithBuffer b 0 (le_split 8 id) lsmBuf)
      as [[res newBuf] [err|]]; [ discriminate | ].
    destruct res as [res|].
    + destruct (FromBinaryOptional res addl props) as [u|e]; [ | discriminate ].
      cbn [wrap_error] in H.
      rewrite slot_write in H by lia.
      replace (S (length done)) with (length (done ++ [u])) in H
        by (rewrite length_app; cbn [length]; lia).
      apply IH in H; [ | lia ].
      destruct H as (more & -> & -> & Hm).
      exists (u :: more). rewrite <- !app_assoc. cbn [app length].
      replace (k - 1 - length more)%nat with (k - S (length more))%nat by lia.
      repeat split; try reflexivity; lia.
    + apply IH in H; [ | lia ].
      destruct H as (more & -> & -> & Hm).
      exists more. cbn [length]. repeat split; try reflexivity; lia.
Qed.

(** X10: whatever the bucket holds, the sequential fetch returns a slice
    without nil entries and no longer than the list of ids; so does
    [ObjectsByDocID] for a single id. *)
Theorem objectsByDocIDSequential_has_no_holes (bkt : option bucket) (ids : list Z)
  (addl : additional.Properties) (properties : option (list string))
  (out : list (option Object)) :
  objectsByDocIDSequential bkt ids addl properties = Ok out ->
  (exists objs, out = map Some objs) /\
  (length out <= length ids)%nat /\
  (forall GOMAXPROCS, len ids = 1 ->
     ObjectsByDocID GOMAXPROCS bkt ids addl properties = Ok out).
Proof.
  intros H. split; [ | split ].
  - unfold objectsByDocIDSequential in H. destruct bkt as [b|]; [ | discriminate ].
    match type of H with
    | context [fetchLoop b ids addl ?p (repeat None ?n) 0 ?buf] =>
        destruct (fetchLoop b ids addl p (repeat None n) 0 buf)
          as [[out1 i]|e] eqn:Hloop; [ | discriminate ];
        apply (fetchLoop_compact b addl p ids [] n buf) in Hloop; [ | lia ]
    end.
    destruct Hloop as (more & -> & -> & _). inversion H. cbn [app].
    exists more. apply firstn_app_len. apply length_map.
  - unfold objectsByDocIDSequential in H. destruct bkt as [b|]; [ | discriminate ].
    match type of H with
    | context [fetchLoop b ids addl ?p (repeat None ?n) 0 ?buf] =>
        destruct (fetchLoop b ids addl p (repeat None n) 0 buf)
          as [[out1 i]|e] eqn:Hloop; [ | discriminate ];
        apply (fetchLoop_compact b addl p ids [] n buf) in Hloop; [ | lia ]
    end.
    destruct Hloop as (more & -> & -> & Hm). inversion H. cbn [app].
    rewrite (firstn_app_len (map Some more)) by apply length_map.
    now rewrite length_map.
  - intros G H1. unfold ObjectsByDocID. rewrite H1. exact H.
Qed.

Variable b : bucket.
Variable addl : additional.Properties.
Variable properties : option (list string).
Variable obj : Z -> Object.

Lemma fetchLoop_all_found : forall ids done k lsmBuf,
  (length ids <= k)%nat ->
  (forall id, In id ids -> holds b addl properties id (obj id)) ->
  fetchLoop b ids addl (extractionOf properties) (map Some done ++ repeat None k)
    (length done) lsmBuf
  = Ok (map Some (done ++ map obj ids) ++ repeat None (k - length ids),
        (length done + length ids)%nat).
Proof.
  induction ids as [|id rest IH]; intros done k lsmBuf Hk Hall.
  - cbn [fetchLoop map length]. now rewrite app_nil_r, Nat.sub_0_r, Nat.add_0_r.
  - cbn [fetchLoop]. cbn [length] in Hk.
    destruct (Hall id (or_introl eq_refl) lsmBuf) as (data & newBuf & -> & ->).
    cbn [wrap_error]. rewrite slot_write by lia.
    replace (S (length done)) with (length (done ++ [obj id]))
      by (rewrite length_app; cbn [length]; lia).
    rewrite IH; [ | lia | intros; apply Hall; now right ].
    rewrite <- !app_assoc, length_app. cbn [app map length].
    replace (k - 1 - length rest)%nat with (k - S (length rest))%nat by lia.
    replace (length done + 1 + length rest)%nat
      with (length done + S (length rest))%nat by lia.
    reflexivity.
Qed.

Lemma objectsByDocIDSequential_all_found ids :
  (forall id, In id ids -> holds b addl properties id (obj id)) ->
  objectsByDocIDSequential (Some b) ids addl properties
  = Ok (map (fun id => Some (obj id)) ids).
Proof.
  intros Hall. unfold objectsByDocIDSequential.
  change (match properties with
          | Some ps => Some {| PropStrings := ps;
                               PropStringsList := map (fun p => [p]) ps |}
          | None => None
          end) with (extractionOf properties).
  pose proof (fetchLoop_all_found ids [] (length ids) [] (le_n _) Hall) as Hloop.
  cbn [map app length Nat.add] in Hloop. rewrite Hloop.
  rewrite Nat.sub_diag. cbn [repeat].
  rewrite app_nil_r, firstn_all2 by (rewrite !length_map; lia).
  now rewrite map_map.
Qed.

Lemma chunkLoop_all_found ids chunkSize :
  (1 <= chunkSize)%nat ->
  (forall id, In id ids -> holds b addl properties id (obj id)) ->
  forall turns chunk,
    (length ids <= (turns + chunk) * chunkSize)%nat ->
    chunkLoop turns chunk chunkSize (Some b) ids addl properties
      (filledTo obj ids (Nat.min (chunk * chunkSize) (length ids)))
    = Ok (map (fun id => Some (obj id)) ids).
Proof.
  intros Hcs Hall.
  assert (Hfull : filledTo obj ids (length ids) = map (fun id => Some (obj id)) ids).
  { unfold filledTo. rewrite firstn_all, Nat.sub_diag. apply app_nil_r. }
  induction turns as [|turns IH]; intros chunk Hcover.
  - cbn [chunkLoop]. rewrite Nat.min_r by (cbn in Hcover; lia). now rewrite Hfull.
  - cbn [chunkLoop].
    destruct (Nat.leb_spec (length ids) (chunk * chunkSize)) as [Hdone|Hmore].
    { rewrite Nat.min_r by lia. now rewrite Hfull. }
    rewrite Nat.min_l by lia.
    set (start := (chunk * chunkSize)%nat) in *.
    set (end_ := if (length ids <? start + chunkSize)%nat
                 then length ids else (start + chunkSize)%nat).
    assert (Hend : end_ = Nat.min (S chunk * chunkSize) (length ids)).
    { subst end_. cbn [Nat.mul]. fold start.
      destruct (Nat.ltb_spec (length ids) (start + chunkSize)); lia. }
    assert (Hse : (start < end_ <= length ids)%nat) by (rewrite Hend; cbn [Nat.mul]; fold start; lia).
    rewrite objectsByDocIDSequential_all_found.
    2:{ intros id Hin. apply Hall.
        apply (In_skipn _ start). now apply (In_firstn _ (end_ - start)). }
    replace (copyInto (filledTo obj ids start) start end_
               (map (fun id => Some (obj id)) (firstn (end_ - start) (skipn start ids))))
      with (filledTo obj ids end_).
    { rewrite Hend. apply IH. lia. }
    unfold copyInto, filledTo.
    assert (Hlen1 : length (firstn start ids) = start)
      by (rewrite length_firstn; lia).
    assert (Hlen2 : length (firstn (end_ - start) (skipn start ids)) = (end_ - start)%nat)
      by (rewrite length_firstn, length_skipn; lia).
    rewrite length_map, Hlen2, Nat.min_id.
    rewrite (firstn_app_len (map _ (firstn start ids)))
      by (now rewrite length_map).
    rewrite (@firstn_all2 _ (end_ - start)
               (map (fun id => Some (obj id)) (firstn (end_ - start) (skipn start ids))))
      by (rewrite length_map; lia).
    rewrite (skipn_app_len (map _ (firstn start ids)))
      by (now rewrite length_map).
    rewrite skipn_repeat.
    replace end_ with (start + (end_ - start))%nat at 1 by lia.
    rewrite firstn_plus, map_app, <- app_assoc.
    do 3 f_equal. lia.
Qed.

(** X11: when the bucket holds under every id a value that decodes,
    [ObjectsByDocID] returns the decoded objects, one for every id and in the
    order of the ids, whatever the number of processors and whether the ids
    are fetched in one go or in chunks. *)
Theorem ObjectsByDocID_all_found (GOMAXPROCS : Z) (ids : list Z) :
  1 <= GOMAXPROCS ->
  (forall id, In id ids -> holds b addl properties id (obj id)) ->
  ObjectsByDocID GOMAXPROCS (Some b) ids addl properties
  = Ok (map (fun id => Some (obj id)) ids).
Proof.
  intros HG Hall. unfold ObjectsByDocID.
  destruct (len ids =? 1); [ now apply objectsByDocIDSequential_all_found | ].
  unfold objectsByDocIDParallel.
  set (parallel := 2 * GOMAXPROCS).
  set (chunkSize := Z.max ((len ids + parallel - 1) / parallel) 1).
  assert (Hp : 2 <= parallel) by (subst parallel; lia).
  assert (Hc : 1 <= chunkSize) by (subst chunkSize; lia).
  assert (Hcover : len ids <= parallel * chunkSize).
  { pose proof (Z.div_mod (len ids + parallel - 1) parallel ltac:(lia)) as Hd.
    pose proof (Z.mod_pos_bound (len ids + parallel - 1) parallel ltac:(lia)) as Hm.
    subst chunkSize. nia. }
  replace (repeat None (length ids))
    with (filledTo obj ids (Nat.min (0 * Z.to_nat chunkSize) (length ids)))
    by (unfold filledTo; cbn [Nat.mul Nat.min firstn map app]; now rewrite Nat.sub_0_r).
  apply chunkLoop_all_found; [ lia | exact Hall | ].
  rewrite Nat.add_0_r. unfold len in Hcover.
  apply Nat2Z.inj_le. rewrite Nat2Z.inj_mul, !Z2Nat.id by lia. exact Hcover.
Qed.

End Fetch.

(** X12: without a bucket [ObjectsByDocID] fails with the error of the
    bucket not found, except on an empty list of ids, for which it returns
    an empty slice and no error: no chunk is started. *)
Theorem ObjectsByDocID_without_bucket {E : Externals} (GOMAXPROCS : Z)
  (ids : list Z) (addl : additional.Properties) (properties : option (list string)) :
  1 <= GOMAXPROCS ->
  ObjectsByDocID GOMAXPROCS None ids addl properties
  = match ids with
    | [] => Ok []
    | _ :: _ => Err BucketNotFound
    end.
Proof.
  intros HG. unfold ObjectsByDocID.
  destruct (len ids =? 1) eqn:H1.
  { destruct ids; [ discriminate H1 | reflexivity ]. }
  unfold objectsByDocIDParallel.
  destruct (Z.to_nat (2 * GOMAXPROCS)) as [|turns] eqn:Ht; [ lia | ].
  cbn [chunkLoop Nat.mul].
  destruct ids as [|id rest]; [ reflexivity | ].
  cbn [length Nat.leb]. reflexivity.
Qed.

Lemma objectsByDocIDSequential_has_no_holes_witness :
  exists objs,
    [Some (Samples.fetched 1); Some (Samples.fetched 2); Some (Samples.fetched 4)]
    = map Some objs.
Proof.
  refine (proj1 (objectsByDocIDSequential_has_no_holes (E := Reference.externals)
                   (Some Samples.holed) [1; 2; 3; 4] Samples.noMask None
                   [Some (Samples.fetched 1); Some (Samples.fetched 2);
                    Some (Samples.fetched 4)] _)).
  vm_compute. reflexivity.
Defined.

Lemma ObjectsByDocID_all_found_witness :
  ObjectsByDocID (E := Reference.externals) 4 (Some Samples.holed) [1; 2; 4]
    Samples.noMask None
  = Ok [Some (Samples.fetched 1); Some (Samples.fetched 2); Some (Samples.fetched 4)].
Proof.
  apply (ObjectsByDocID_all_found (E := Reference.externals) Samples.holed
           Samples.noMask None Samples.fetched 4 [1; 2; 4]).
  - lia.
  - intros id [<- | [<- | [<- | []]]] buf;
      match goal with
      | |- context [le_split 8 ?i] =>
          exists (frameBytes (Samples.frameFor (Samples.stored i [Samples.one] None VNil))),
            buf
      end;
      split; vm_compute; reflexivity.
Defined.

Lemma ObjectsByDocID_without_bucket_witness :
  ObjectsByDocID (E := Reference.externals) 4 None [] Samples.noMask None = Ok [] /\
  ObjectsByDocID (E := Reference.externals) 4 None [1; 2] Samples.noMask None
  = Err BucketNotFound.
Proof.
  split.
  - apply (ObjectsByDocID_without_bucket (E := Reference.externals) 4 []). lia.
  - apply (ObjectsByDocID_without_bucket (E := Reference.externals) 4 [1; 2]). lia.
Defined.

(** ** The walk over the requested properties *)

Lemma keys_map_set {V} k n (v : V) m :
  In k (keys (map_set n v m)) -> k = n \/ In k (keys m).
Proof.
  induction m as [|[k' v'] r IH]; cbn [map_set keys map fst In].
  - intros [<- | []]. now left.
  - destruct (String.eqb_spec n k') as [->|Hne]; cbn [keys map fst In].
    + intros [<- | H]; [ now left | right; now right ].
    + intros [<- | H]; [ right; now left | ].
      destruct (IH H) as [-> | Hin]; [ now left | right; now right ].
Qed.

Section Walk.
Context {E : Externals}.

Lemma setProperty_inv properties aggregationProperties idx val m :
  setProperty properties aggregationProperties idx val = Ok m ->
  exists name, In name aggregationProperties /\ m = map_set name val properties.
Proof.
  unfold setProperty.
  destruct (nth_error aggregationProperties idx) as [name|] eqn:Hn; [ | discriminate ].
  intros H. inversion H. exists name. split; [ | reflexivity ].
  now apply nth_error_In in Hn.
Qed.

Lemma touches_refl agg m : touches agg m m.
Proof. split; auto. Qed.

Lemma touches_trans agg m0 m1 m2 :
  touches agg m0 m1 -> touches agg m1 m2 -> touches agg m0 m2.
Proof.
  intros [H1 K1] [H2 K2]. split.
  - intros k Hk. now rewrite H2, H1.
  - intros k Hk. destruct (K2 k Hk) as [Hin | Hin]; auto.
Qed.

Lemma touches_set agg m name val :
  In name agg -> touches agg m (map_set name val m).
Proof.
  intros Hin. split.
  - intros k Hk. rewrite map_get_map_set.
    destruct (String.eqb_spec k name) as [->|]; [ contradiction | reflexivity ].
  - intros k Hk. apply keys_map_set in Hk as [-> | Hk]; auto.
Qed.

Lemma propertyCallback_touches agg m0 e0 call m1 e1 :
  propertyCallback agg (m0, e0) call = Ok (m1, e1) -> touches agg m0 m1.
Proof.
  destruct call as [[idx raw] dataType]. unfold propertyCallback.
  assert (Hset : forall (val : value) (e : option error),
             match setProperty m0 agg idx val with
             | Ok properties => Ok (properties, e)
             | Err err => Err err
             end = Ok (m1, e1) -> touches agg m0 m1).
  { intros val e H.
    destruct (setProperty m0 agg idx val) as [m|] eqn:Hs; [ | discriminate ].
    inversion H; subst. apply setProperty_inv in Hs as (name & Hin & ->).
    now apply touches_set. }
  destruct dataType; intros H;
    try (inversion H; subst; apply touches_refl);
    try (destruct (parseValues _ raw) as [[val err]|]; [ | discriminate H ];
         exact (Hset val (orElse err e0) H)).
  - destruct (json_Unmarshal_map raw) as [[m|]|e]; exact (Hset _ _ H).
  - destruct (subslice raw 1 (len raw - 1)) as [arrayEntries|]; [ | discriminate H ].
    destruct (jsonparser_GetUnsafeString arrayEntries "beacon").
    + destruct (jsonparser_ArrayEach raw) as [elements err].
      exact (Hset _ _ H).
    + destruct (jsonparser_ArrayEach raw) as [elements err].
      destruct (arrayElements elements e0) as [[array e']|]; [ | discriminate H ].
      exact (Hset _ _ H).
Qed.

Lemma eachCall_touches agg : forall calls m0 e0 m1 e1,
  eachCall agg calls (m0, e0) = Ok (m1, e1) -> touches agg m0 m1.
Proof.
  induction calls as [|call rest IH]; intros m0 e0 m1 e1 H.
  - inversion H. apply touches_refl.
  - cbn [eachCall] in H.
    destruct (propertyCallback agg (m0, e0) call) as [[m e]|] eqn:Hc; [ | discriminate ].
    apply propertyCallback_touches in Hc. apply IH in H.
    now apply (touches_trans agg m0 m m1).
Qed.

Lemma eachCall_app agg : forall calls1 calls2 st,
  eachCall agg (calls1 ++ calls2) st
  = (st1 <- eachCall agg calls1 st ;; eachCall agg calls2 st1).
Proof.
  induction calls1 as [|call rest IH]; intros calls2 st; [ reflexivity | ].
  cbn [app eachCall]. destruct (propertyCallback agg st call); [ apply IH | reflexivity ].
Qed.

Lemma UnmarshalProperties_keys data properties aggregationProperties propStrings m err :
  UnmarshalProperties data properties aggregationProperties propStrings = Ok (m, err) ->
  (forall k, ~ In k aggregationProperties -> map_get k m = map_get k properties) /\
  (forall k, In k (keys m) -> In k (keys properties) \/ In k aggregationProperties).
Proof.
  unfold UnmarshalProperties. intros H.
  exact (eachCall_touches _ _ _ _ _ _ H).
Qed.

(** X13: [UnmarshalProperties] writes under the requested names only: what
    the map held under any other name it still holds, and every name of the
    map after the call was in the map before or is a requested name. *)
Theorem UnmarshalProperties_writes_requested_names (data : bytes)
  (properties : propmap) (aggregationProperties : list string)
  (propStrings : list (list string)) (m : propmap) (err : option error) :
  UnmarshalProperties data properties aggregationProperties propStrings = Ok (m, err) ->
  (forall k, ~ In k aggregationProperties -> map_get k m = map_get k properties) /\
  (forall k, In k (keys m) -> In k (keys properties) \/ In k aggregationProperties).
Proof.
  intros H. destruct (UnmarshalProperties_keys _ _ _ _ _ _ H) as [Hkeep Hnames].
  split; [ exact Hkeep | exact Hnames ].
Qed.

(** X14: the error that [UnmarshalProperties] returns is the one of the
    last value that set it, and an array of references sets it to what
    [ArrayEach] returns, nil included: when the last requested value is an
    array of references that [ArrayEach] walks without error, no error is
    returned, whatever the values before it gave. *)
Theorem UnmarshalProperties_forgets_errors (data : bytes) (properties : propmap)
  (aggregationProperties : list string) (propStrings : list (list string))
  (before : list (nat * bytes * jsonparser.ValueType)) (idx : nat) (raw : bytes)
  (arrayEntries : bytes) (beacon name : string)
  (elements : list (bytes * jsonparser.ValueType))
  (m : propmap) (e : option error) :
  jsonparser_EachKey data propStrings = before ++ [(idx, raw, jsonparser.Array)] ->
  eachCall aggregationProperties before (properties, None) = Ok (m, e) ->
  subslice raw 1 (len raw - 1) = Ok arrayEntries ->
  jsonparser_GetUnsafeString arrayEntries "beacon" = Ok beacon ->
  jsonparser_ArrayEach raw = (elements, None) ->
  nth_error aggregationProperties idx = Some name ->
  exists beacons,
    UnmarshalProperties data properties aggregationProperties propStrings
    = Ok (map_set name (VSlice beacons) m, None) /\
    length beacons = length elements.
Proof.
  intros Hcalls Hbefore Hsub Hbeacon Heach Hname.
  unfold UnmarshalProperties. rewrite Hcalls, eachCall_app, Hbefore.
  cbn [eachCall]. unfold propertyCallback.
  rewrite Hsub, Hbeacon, Heach. unfold setProperty. rewrite Hname.
  eexists. split; [ reflexivity | ]. now rewrite length_map.
Qed.

End Walk.

Lemma UnmarshalProperties_writes_requested_names_witness :
  map_get "stale" [("stale"%string, VBool true); ("name"%string, VString "a")]
  = map_get "stale" [("stale"%string, VBool true)].
Proof.
  refine (proj1 (UnmarshalProperties_writes_requested_names (E := Reference.externals)
                   (f_props (Samples.frameFor Samples.named))
                   [("stale"%string, VBool true)] ["name"%string] [["name"%string]]
                   [("stale"%string, VBool true); ("name"%string, VString "a")] None _)
            "stale"%string _).
  - vm_compute. reflexivity.
  - intros [H | []]. discriminate H.
Defined.

Lemma UnmarshalProperties_forgets_errors_witness :
  eachCall (E := Reference.externals) ["x"%string; "ref"%string]
    [(0%nat, nullBytes, jsonparser.Null)] ([], None)
  = Ok ([], Some UnknownPropertyType) /\
  exists beacons,
    UnmarshalProperties (E := Reference.externals) Cases.nullThenRefs []
      ["x"%string; "ref"%string] [["x"%string]; ["ref"%string]]
    = Ok ([("ref"%string, VSlice beacons)], None).
Proof.
  split; [ reflexivity | ].
  edestruct (UnmarshalProperties_forgets_errors (E := Reference.externals)
               Cases.nullThenRefs [] ["x"%string; "ref"%string]
               [["x"%string]; ["ref"%string]]
               [(0%nat, nullBytes, jsonparser.Null)] 1)
    as (beacons & H & _).
  - vm_compute. reflexivity.
  - reflexivity.
  - vm_compute. reflexivity.
  - vm_compute. reflexivity.
  - vm_compute. reflexivity.
  - reflexivity.
  - exists beacons. exact H.
Defined.

(** ** The projection of one object and of many *)

Lemma SearchResult_split ko addl tenant :
  SearchResult ko addl tenant = (projected ko addl, resultOf (projected ko addl) addl tenant).
Proof.
  unfold SearchResult, PropertiesWithAdditional, projected, propertiesMap, resultOf.
  destruct (additional.RefMeta addl).
  - destruct (Properties ko) as [ | | | | | |[m|]| | | | ]; reflexivity.
  - destruct (Properties ko) as [ | | | | | |[m|]| | | | ]; reflexivity.
Qed.

Lemma map_set_again {V} k (v : V) m : map_set k v (map_set k v m) = map_set k v m.
Proof.
  induction m as [|[k' v'] r IH]; cbn [map_set].
  - now rewrite String.eqb_refl.
  - destruct (String.eqb_spec k k') as [->|Hne]; cbn [map_set].
    + now rewrite String.eqb_refl.
    + destruct (String.eqb_spec k k'); [ contradiction | now rewrite IH ].
Qed.

Lemma clearRefs_fst kv : fst (clearRefs kv) = fst kv.
Proof. unfold clearRefs. now destruct (snd kv). Qed.

Lemma clearClassification_again r :
  clearClassification (clearClassification r) = clearClassification r.
Proof. reflexivity. Qed.

Lemma clearRefs_again kv : clearRefs (clearRefs kv) = clearRefs kv.
Proof.
  destruct kv as [k v]. unfold clearRefs. cbn [snd fst].
  destruct v; cbn [snd fst]; try reflexivity.
  rewrite map_map. reflexivity.
Qed.

Lemma map_clearRefs_map_set k id m :
  map clearRefs (map_set k (VUUID id) m) = map_set k (VUUID id) (map clearRefs m).
Proof.
  induction m as [|[k' v'] r IH]; [ reflexivity | ].
  cbn [map_set map].
  replace (clearRefs (k', v')) with (k', snd (clearRefs (k', v')))
    by (rewrite (surjective_pairing (clearRefs (k', v'))) at 2;
        now rewrite clearRefs_fst).
  cbn [map_set]. destruct (String.eqb k k'); cbn [map]; [ reflexivity | ].
  rewrite IH. f_equal.
  rewrite (surjective_pairing (clearRefs (k', v'))) at 1. now rewrite clearRefs_fst.
Qed.

Lemma SetProperties_again ko p q :
  SetProperties (SetProperties ko p) q = SetProperties ko q.
Proof. reflexivity. Qed.

Lemma projected_again ko addl : projected (projected ko addl) addl = projected ko addl.
Proof.
  set (base := if additional.RefMeta addl then propertiesMap ko
               else map clearRefs (propertiesMap ko)).
  assert (Hpm : propertiesMap (projected ko addl) = map_set "id" (VUUID (ID ko)) base)
    by reflexivity.
  assert (Hid : ID (projected ko addl) = ID ko) by reflexivity.
  unfold projected at 1. rewrite Hpm, Hid.
  unfold projected. rewrite SetProperties_again. fold base.
  do 3 f_equal. subst base.
  destruct (additional.RefMeta addl).
  - now rewrite map_set_again.
  - rewrite map_clearRefs_map_set, map_map.
    rewrite (map_ext _ _ clearRefs_again), map_set_again. reflexivity.
Qed.

Lemma SearchResult_again ko addl tenant :
  SearchResult (projected ko addl) addl tenant = SearchResult ko addl tenant.
Proof. now rewrite !SearchResult_split, projected_again. Qed.

(** X15: the additional properties of a search result hold nothing but what
    the mask asks for: an entry is the interpretation, the classification or
    the group of the object, each asked for by its flag and present only for
    an object that has additional properties, or the explanation of the
    score, when it is not empty. Nothing else that the object stores comes
    into the result. *)
Theorem SearchResult_additional_is_asked_for (ko : Object)
  (addl : additional.Properties) (tenant : string) (r : search.Result)
  (k : string) (v : value) :
  snd (SearchResult ko addl tenant) = Ok r ->
  map_get k (search.AdditionalProperties r) = Some v ->
  (k = "explainScore"%string /\ v = VString (search.ExplainScore r) /\
   search.ExplainScore r <> ""%string) \/
  (exists ap,
      AdditionalProperties ko = Some ap /\ v = index ap k /\
      ((k = "interpretation"%string /\
        map_get "interpretation" (additional.ModuleParams addl) = Some (VBool true)) \/
       (k = "classification"%string /\ additional.Classification addl = true) \/
       (k = "group"%string /\ additional.Group addl = true))).
Proof.
  rewrite SearchResult_split. cbn [snd]. unfold resultOf.
  replace (AdditionalProperties (projected ko addl)) with (AdditionalProperties ko)
    by reflexivity.
  destruct (ExplainScore (projected ko addl)) as [explainScore|]; [ | discriminate ].
  intros H. inversion H; subst r; clear H.
  cbn [search.AdditionalProperties search.ExplainScore].
  destruct (String.eqb_spec explainScore "") as [He|He]; cbn [negb].
  2:{ rewrite map_get_map_set.
      destruct (String.eqb_spec k "explainScore") as [->|Hk].
      { intros H. inversion H. left. auto. }
      revert Hk. generalize dependent k. intros k. revert He. generalize explainScore.
      intros s _ Hk. destruct (AdditionalProperties ko) as [ap|]; [ | discriminate ].
      intros H. right. exists ap. split; [ reflexivity | ].
      destruct (additional.Group addl), (additional.Classification addl),
        (map_get "interpretation" (additional.ModuleParams addl)) as [[ | [|] | | | | | | | | | ]|];
        cbn [map_set map_get String.eqb Ascii.eqb Bool.eqb] in H;
        repeat match type of H with
               | context [String.eqb k ?s] =>
                   destruct (String.eqb_spec k s) as [->|]
               end;
        try discriminate H; inversion H; subst; cbn [String.eqb Ascii.eqb Bool.eqb];
        split; auto 10. }
  destruct (AdditionalProperties ko) as [ap|]; [ | discriminate ].
  intros H. right. exists ap. split; [ reflexivity | ].
  destruct (additional.Group addl), (additional.Classification addl),
    (map_get "interpretation" (additional.ModuleParams addl)) as [[ | [|] | | | | | | | | | ]|];
    cbn [map_set map_get String.eqb Ascii.eqb Bool.eqb] in H;
    repeat match type of H with
           | context [String.eqb k ?s] =>
               destruct (String.eqb_spec k s) as [->|]
           end;
    try discriminate H; inversion H; subst; cbn [String.eqb Ascii.eqb Bool.eqb];
    split; auto 10.
Qed.

(** ** Objects behind pointers *)

Lemma deref_inv h p a ko :
  deref h p = Ok (a, ko) -> p = Some a /\ nth_error h a = Some ko.
Proof.
  unfold deref. destruct p as [a'|]; [ | discriminate ].
  destruct (nth_error h a') as [ko'|] eqn:Hn; [ | discriminate ].
  intros H. inversion H; subst. auto.
Qed.

Lemma deref_nil h : exists e, deref h None = Err e.
Proof. eexists. reflexivity. Qed.

Lemma length_assign h a ko : nth_error h a <> None -> length (assign h a ko) = length h.
Proof.
  intros Hn. apply nth_error_Some in Hn. unfold assign.
  rewrite length_app, length_firstn. cbn [length]. rewrite length_skipn. lia.
Qed.

Lemma nth_error_assign_same h a ko :
  nth_error h a <> None -> nth_error (assign h a ko) a = Some ko.
Proof.
  intros Hn. apply nth_error_Some in Hn. unfold assign.
  rewrite nth_error_app2 by (rewrite length_firstn; lia).
  rewrite length_firstn, Nat.min_l by lia. now rewrite Nat.sub_diag.
Qed.

Lemma nth_error_assign_other h a a' ko :
  nth_error h a <> None -> a' <> a ->
  nth_error (assign h a ko) a' = nth_error h a'.
Proof.
  intros Hn Hne. apply nth_error_Some in Hn. unfold assign.
  destruct (Nat.lt_ge_cases a' a) as [Hlt|Hge].
  - rewrite nth_error_app1 by (rewrite length_firstn; lia).
    rewrite nth_error_firstn.
    now rewrite (proj2 (Nat.ltb_lt _ _) Hlt).
  - rewrite nth_error_app2 by (rewrite length_firstn; lia).
    rewrite length_firstn, Nat.min_l by lia.
    destruct (a' - a)%nat as [|j] eqn:Hj; [ lia | ].
    cbn [nth_error]. rewrite nth_error_skipn. f_equal. lia.
Qed.

Lemma pointer_in_dec (p : pointer) (l : list pointer) : In p l \/ ~ In p l.
Proof.
  destruct (in_dec (fun x y : pointer =>
                      ltac:(decide equality; apply Nat.eq_dec)) p l); auto.
Qed.

(** X16: [SearchResults] returns one result for every pointer of the slice,
    the result of [SearchResult] for the object that the pointer referred to
    when the call began, also when several pointers refer to the same object;
    every object that is referred to is left as [SearchResult] leaves it, and
    the other objects of the heap are not touched. *)
Theorem SearchResults_projects_every_object : forall (in_ : list pointer)
  (h : heap) (addl : additional.Properties) (tenant : string) (h' : heap)
  (out : list search.Result),
  SearchResults h in_ addl tenant = Ok (h', out) ->
  length out = length in_ /\
  (forall i a ko,
      nth_error in_ i = Some (Some a) -> nth_error h a = Some ko ->
      (exists r, nth_error out i = Some r /\
                 snd (SearchResult ko addl tenant) = Ok r) /\
      nth_error h' a = Some (fst (SearchResult ko addl tenant))) /\
  (forall a, ~ In (Some a) in_ -> nth_error h' a = nth_error h a).
Proof.
  induction in_ as [|elem rest IH]; intros h addl tenant h' out H.
  - cbn [SearchResults] in H. inversion H; subst. split; [ reflexivity | ].
    split; [ | reflexivity ]. intros [|i] a ko Hi; discriminate Hi.
  - cbn [SearchResults] in H. unfold SearchResultAt in H.
    destruct (deref h elem) as [[a0 ko0]|] eqn:Hd; [ | discriminate ].
    apply deref_inv in Hd as [-> Hko0].
    rewrite SearchResult_split in H.
    destruct (resultOf (projected ko0 addl) addl tenant) as [r0|] eqn:Hr0;
      [ | discriminate ].
    destruct (SearchResults (assign h a0 (projected ko0 addl)) rest addl tenant)
      as [[h1 out1]|] eqn:Hrest; [ | discriminate ].
    inversion H; subst h' out; clear H.
    assert (Hsome : nth_error h a0 <> None) by congruence.
    destruct (IH _ _ _ _ _ Hrest) as (Hlen & Heach & Hother).
    split; [ cbn [length]; now rewrite Hlen | ]. split.
    + intros i a ko Hi Hko.
      assert (Hfst : forall k, fst (SearchResult k addl tenant) = projected k addl)
        by (intros k; now rewrite SearchResult_split).
      destruct i as [|i].
      * cbn [nth_error] in Hi. inversion Hi; subst a.
        replace ko with ko0 by congruence.
        split.
        { exists r0. split; [ reflexivity | ]. now rewrite SearchResult_split. }
        rewrite Hfst.
        destruct (pointer_in_dec (Some a0) rest) as [Hin|Hout].
        -- apply In_nth_error in Hin as (j & Hj).
           destruct (Heach j a0 (projected ko0 addl) Hj
                       (nth_error_assign_same _ _ _ Hsome)) as (_ & ->).
           now rewrite Hfst, projected_again.
        -- rewrite (Hother a0 Hout). now apply nth_error_assign_same.
      * cbn [nth_error] in Hi |- *.
        destruct (Nat.eq_dec a a0) as [->|Hne].
        -- replace ko with ko0 by congruence.
           destruct (Heach i a0 (projected ko0 addl) Hi
                       (nth_error_assign_same _ _ _ Hsome)) as ((r & Hr & Hs) & Hh).
           rewrite SearchResult_again in Hs. rewrite Hfst, projected_again in Hh.
           split; [ now exists r | now rewrite Hfst ].
        -- apply (Heach i a ko Hi).
           now rewrite nth_error_assign_other.
    + intros a Hout.
      rewrite Hother by (intros Hin; apply Hout; now right).
      apply nth_error_assign_other; [ exact Hsome | ].
      intros ->. apply Hout. now left.
Qed.

Section ScoredFacts.
Variable DistToCertainty : float32 -> float32.

Lemma scoreLoop_spec scores addl tenant : forall in_ h i,
  scoreLoop h in_ i scores addl tenant
  = ('(h', rs) <- SearchResults h in_ addl tenant ;; Ok (h', scored i scores rs)).
Proof.
  induction in_ as [|elem rest IH]; intros h i; [ reflexivity | ].
  cbn [scoreLoop SearchResults]. unfold SearchResultWithScoreAndTenant.
  destruct (SearchResultAt h elem addl tenant) as [[h1 r]|]; [ | reflexivity ].
  rewrite IH.
  destruct (SearchResults h1 rest addl tenant) as [[h2 rs]|]; [ | reflexivity ].
  unfold scored. cbn [length seq combine map fst snd]. do 4 f_equal.
  destruct (Nat.ltb_spec i (length scores)); [ reflexivity | ].
  symmetry. now apply nth_overflow.
Qed.

Lemma distLoop_spec dists addl : forall in_ h i,
  (i + length in_ <= length dists)%nat ->
  distLoop DistToCertainty h in_ i dists addl
  = ('(h', rs) <- SearchResults h in_ addl "" ;;
     Ok (h', distanced DistToCertainty i dists rs)).
Proof.
  induction in_ as [|elem rest IH]; intros h i Hlen; [ reflexivity | ].
  cbn [length] in Hlen.
  cbn [distLoop SearchResults]. unfold SearchResultWithDist.
  destruct (nth_error dists i) as [d|] eqn:Hd.
  2:{ apply nth_error_None in Hd. lia. }
  destruct (SearchResultAt h elem addl "") as [[h1 r]|]; [ | reflexivity ].
  rewrite IH by lia.
  destruct (SearchResults h1 rest addl "") as [[h2 rs]|]; [ | reflexivity ].
  unfold distanced. cbn [length seq combine map fst snd].
  now rewrite (nth_error_nth dists i 0 Hd).
Qed.

Lemma distLoop_short dists addl : forall in_ h i,
  (i <= length dists < i + length in_)%nat ->
  exists e, distLoop DistToCertainty h in_ i dists addl = Err e.
Proof.
  induction in_ as [|elem rest IH]; intros h i Hlen.
  - cbn [length] in Hlen. lia.
  - cbn [length] in Hlen. cbn [distLoop].
    destruct (nth_error dists i) as [d|] eqn:Hd; [ | eauto ].
    assert (Hi : (i < length dists)%nat) by (apply nth_error_Some; congruence).
    destruct (SearchResultWithDist DistToCertainty h elem addl d) as [[h1 r]|];
      [ | eauto ].
    destruct (IH h1 (S i) ltac:(lia)) as (e & ->). eauto.
Qed.

(** X17: the scored variants return the results of [SearchResults], each
    with its score or distance. [SearchResultsWithScore] gives the score 0 to
    the objects that [scores] is too short for; [SearchResultsWithDists]
    panics when [dists] is shorter than the slice of objects, and otherwise
    gives each result its distance and the certainty of that distance; and
    [SearchResultWithScore] is the scored result of the empty tenant. *)
Theorem scored_variants_of_SearchResults (h : heap) (in_ : list pointer)
  (addl : additional.Properties) (tenant : string) (values : list float32) :
  SearchResultsWithScore h in_ values addl tenant
  = ('(h', rs) <- SearchResults h in_ addl tenant ;; Ok (h', scored 0 values rs)) /\
  (forall p score,
      SearchResultWithScore h p addl score
      = SearchResultWithScoreAndTenant h p addl score "") /\
  ((length in_ <= length values)%nat ->
   SearchResultsWithDists DistToCertainty h in_ addl values
   = ('(h', rs) <- SearchResults h in_ addl "" ;;
      Ok (h', distanced DistToCertainty 0 values rs))) /\
  ((length values < length in_)%nat ->
   exists e, SearchResultsWithDists DistToCertainty h in_ addl values = Err e).
Proof.
  split; [ apply scoreLoop_spec | split; [ reflexivity | split ] ].
  - intros Hlen. now apply distLoop_spec.
  - intros Hlen. apply distLoop_short. lia.
Qed.

End ScoredFacts.

Lemma AddOwnership_nil objs : forall h node shard,
  In None objs -> exists e, AddOwnership h objs node shard = Err e.
Proof.
  induction objs as [|p rest IH]; intros h node shard Hin; [ destruct Hin | ].
  cbn [AddOwnership].
  destruct (deref h p) as [[a ko]|] eqn:Hd; [ | eauto ].
  destruct Hin as [-> | Hin]; [ discriminate Hd | ]. now apply IH.
Qed.

Lemma SearchResults_nil in_ : forall h addl tenant,
  In None in_ -> exists e, SearchResults h in_ addl tenant = Err e.
Proof.
  induction in_ as [|p rest IH]; intros h addl tenant Hin; [ destruct Hin | ].
  cbn [SearchResults]. unfold SearchResultAt.
  destruct (deref h p) as [[a ko]|] eqn:Hd; [ | eauto ].
  destruct Hin as [-> | Hin]; [ discriminate Hd | ].
  destruct (SearchResult ko addl tenant) as [ko1 [r|]]; [ | eauto ].
  destruct (IH (assign h a ko1) addl tenant Hin) as (e & ->). eauto.
Qed.

(** X18: a nil pointer in the slice makes [SearchResults] and [AddOwnership]
    panic, wherever it stands in the slice: no results come back. *)
Theorem nil_object_panics (h : heap) (objs : list pointer)
  (addl : additional.Properties) (tenant node shard : string) :
  In None objs ->
  (exists e, SearchResults h objs addl tenant = Err e) /\
  (exists e, AddOwnership h objs node shard = Err e).
Proof.
  intros Hin. split; [ now apply SearchResults_nil | now apply AddOwnership_nil ].
Qed.

(** ** What the encoder reads of an object *)

Section EncoderReads.
Context {E : Externals}.

Lemma marshalOffsets_elems vectors1 vectors2 :
  elems vectors1 = elems vectors2 -> marshalOffsets vectors1 = marshalOffsets vectors2.
Proof.
  destruct vectors1 as [[|x1 r1]|], vectors2 as [[|x2 r2]|]; cbn [elems];
    intros H; try discriminate H; try reflexivity.
  now rewrite H.
Qed.

(** The encoding depends on the version, the doc id, the object of the
    request without its vectors, and the elements of the vector and of the
    named vectors; on nothing else. *)
Lemma MarshalBinary_ext ko1 ko2 :
  MarshallerVersion ko1 = MarshallerVersion ko2 ->
  DocID ko1 = DocID ko2 ->
  ID ko1 = ID ko2 -> Class ko1 = Class ko2 ->
  CreationTimeUnix ko1 = CreationTimeUnix ko2 ->
  LastUpdateTimeUnix ko1 = LastUpdateTimeUnix ko2 ->
  Properties ko1 = Properties ko2 ->
  AdditionalProperties ko1 = AdditionalProperties ko2 ->
  VectorWeights ko1 = VectorWeights ko2 ->
  elems (Vector ko1) = elems (Vector ko2) ->
  elems (Vectors ko1) = elems (Vectors ko2) ->
  MarshalBinary ko1 = MarshalBinary ko2.
Proof.
  intros Hv Hd Hi Hc Hct Hut Hp Ha Hw Hvec Hvecs.
  unfold MarshalBinary.
  rewrite Hv, Hd, Hi, Hc, Hct, Hut, Hp, Ha, Hw, Hvec, Hvecs.
  now rewrite (marshalOffsets_elems _ _ Hvecs).
Qed.

Lemma AddOwnership_spec objs : forall h node shard h',
  AddOwnership h objs node shard = Ok h' ->
  length h' = length h /\
  (forall a ko, In (Some a) objs -> nth_error h a = Some ko ->
     nth_error h' a = Some (setOwnership ko node shard)) /\
  (forall a, ~ In (Some a) objs -> nth_error h' a = nth_error h a).
Proof.
  induction objs as [|p rest IH]; intros h node shard h' H.
  - cbn [AddOwnership] in H. inversion H; subst.
    split; [ reflexivity | split; [ intros a ko [] | reflexivity ] ].
  - cbn [AddOwnership] in H.
    destruct (deref h p) as [[a0 ko0]|] eqn:Hd; [ | discriminate ].
    apply deref_inv in Hd as [-> Hko0].
    assert (Hsome : nth_error h a0 <> None) by congruence.
    destruct (IH _ _ _ _ H) as (Hlen & Hin & Hout).
    split; [ now rewrite Hlen, length_assign | ]. split.
    + intros a ko Ha Hko.
      destruct (Nat.eq_dec a a0) as [->|Hne].
      * replace ko with ko0 by congruence.
        destruct (pointer_in_dec (Some a0) rest) as [Hr|Hr].
        -- now rewrite (Hin a0 (setOwnership ko0 node shard) Hr
                          (nth_error_assign_same _ _ _ Hsome)).
        -- rewrite (Hout a0 Hr). now apply nth_error_assign_same.
      * destruct Ha as [Ha|Ha]; [ congruence | ].
        apply (Hin a ko Ha). now rewrite nth_error_assign_other.
    + intros a Ha.
      rewrite Hout by (intros Hr; apply Ha; now right).
      apply nth_error_assign_other; [ exact Hsome | ].
      intros ->. apply Ha. now left.
Qed.

(** X19: [AddOwnership] sets the node and the shard of every object that the
    slice refers to, however often, and of no other; and the ownership is no
    part of the encoding: every object of the heap is encoded after the call
    as it was before. *)
Theorem AddOwnership_sets_node_and_shard (h : heap) (objs : list pointer)
  (node shard : string) (h' : heap) :
  AddOwnership h objs node shard = Ok h' ->
  (forall a ko, In (Some a) objs -> nth_error h a = Some ko ->
     exists ko', nth_error h' a = Some ko' /\
                 BelongsToNode ko' = node /\ BelongsToShard ko' = shard) /\
  (forall a, ~ In (Some a) objs -> nth_error h' a = nth_error h a) /\
  (forall a ko ko', nth_error h a = Some ko -> nth_error h' a = Some ko' ->
     MarshalBinary ko' = MarshalBinary ko).
Proof.
  intros H. destruct (AddOwnership_spec _ _ _ _ _ H) as (Hlen & Hin & Hout).
  split; [ | split ].
  - intros a ko Ha Hko. exists (setOwnership ko node shard).
    split; [ now apply Hin | split; reflexivity ].
  - exact Hout.
  - intros a ko ko' Hko Hko'.
    destruct (pointer_in_dec (Some a) objs) as [Ha|Ha].
    + rewrite (Hin a ko Ha Hko) in Hko'. inversion Hko'.
      apply MarshalBinary_ext; reflexivity.
    + rewrite (Hout a Ha) in Hko'. congruence.
Qed.

Lemma fold_map_set {V} (g : V -> V) (m : list (string * V)) : forall acc,
  NoDup (keys acc ++ keys m) ->
  fold_left (fun out kv => map_set (fst kv) (g (snd kv)) out) m acc
  = acc ++ map (fun kv => (fst kv, g (snd kv))) m.
Proof.
  induction m as [|[k v] r IH]; intros acc Hnd; [ now rewrite app_nil_r | ].
  cbn [fold_left map fst snd]. cbn [keys map fst] in Hnd.
  rewrite map_set_notin.
  2:{ apply NoDup_remove_2 in Hnd. intros Hin. apply Hnd. apply in_or_app. now left. }
  rewrite IH.
  - now rewrite <- app_assoc.
  - rewrite keys_app. cbn [keys map fst]. rewrite <- app_assoc. exact Hnd.
Qed.

Lemma fold_left_same {A B} (f g : A -> B -> A) (l : list B) :
  (forall a b, f a b = g a b) -> forall acc, fold_left f l acc = fold_left g l acc.
Proof.
  intros H. induction l as [|x l IH]; intros acc; [ reflexivity | ].
  cbn [fold_left]. now rewrite H, IH.
Qed.

Lemma deepCopyMRef_same refs : deepCopyMRef refs = refs.
Proof.
  unfold deepCopyMRef. rewrite <- (map_id refs) at 2.
  apply map_ext. now intros [].
Qed.

Lemma deepCopyVectors_elems vectors :
  NoDup (keys (elems vectors)) -> elems (deepCopyVectors vectors) = elems vectors.
Proof.
  intros Hnd. unfold deepCopyVectors. cbn [elems deepCopyVector].
  rewrite (fold_map_set (fun v => v)) by exact Hnd.
  cbn [app]. rewrite <- (map_id (elems vectors)) at 2.
  apply map_ext. now intros [].
Qed.

Lemma deepCopyProperties_map m :
  NoDup (keys m) -> deepCopyProperties (VMap (Some m)) = VMap (Some m).
Proof.
  intros Hnd. unfold deepCopyProperties. cbn [elems]. do 2 f_equal.
  rewrite (fold_left_same _ (fun out kv => map_set (fst kv) (snd kv) out))
    by (intros out [k v]; cbn [fst snd]; destruct v;
        try reflexivity; now rewrite deepCopyMRef_same).
  rewrite (fold_map_set (fun v => v)) by exact Hnd.
  cbn [app]. rewrite <- (map_id m) at 2. apply map_ext. now intros [].
Qed.

(** X20: the copy that [DeepCopyDangerous] makes of an object has its
    version, doc id, class, id, times, vector weights and additional
    properties. Properties that are a map, nil or not, are copied into a new
    map that is not nil and holds under every key what the map of the object
    holds, so that a nil map becomes an empty one; the nil interface stays
    nil, and properties of any other type are dropped. The vector and the
    named vectors of the copy are never nil and hold what those of the object
    hold; the length of the vector, the ownership and the consistency of the
    object are not copied. *)
Theorem DeepCopyDangerous_copies_the_content (ko : Object) :
  NoDup (keys (elems (Vectors ko))) ->
  (forall m, Properties ko = VMap (Some m) -> NoDup (keys m)) ->
  let copy := DeepCopyDangerous ko in
  MarshallerVersion copy = MarshallerVersion ko /\
  DocID copy = DocID ko /\
  Class copy = Class ko /\
  ID copy = ID ko /\
  CreationTimeUnix copy = CreationTimeUnix ko /\
  LastUpdateTimeUnix copy = LastUpdateTimeUnix ko /\
  VectorWeights copy = VectorWeights ko /\
  AdditionalProperties copy = AdditionalProperties ko /\
  match Properties ko with
  | VNil => Properties copy = VNil
  | VMap m =>
      exists m', Properties copy = VMap (Some m') /\
                 forall k, map_get k m' = map_get k (elems m)
  | _ => Properties copy = VNil
  end /\
  Vector copy = Some (elems (Vector ko)) /\
  (exists vectors,
      Vectors copy = Some vectors /\
      forall k, map_get k vectors = map_get k (elems (Vectors ko))) /\
  VectorLen copy = 0 /\
  BelongsToNode copy = ""%string /\
  BelongsToShard copy = ""%string /\
  IsConsistent copy = false.
Proof.
  intros Hnd Hp copy. subst copy.
  repeat match goal with |- _ /\ _ => split end; try reflexivity.
  - unfold Properties in *.
    cbn [DeepCopyDangerous Object_ deepCopyObject models.Properties].
    destruct (models.Properties (Object_ ko)) as [| | | | | |[m|]| | | |] eqn:Hko;
      try reflexivity.
    + exists m. split; [ | reflexivity ].
      apply deepCopyProperties_map. now apply Hp.
    + exists []. split; reflexivity.
  - exists (elems (Vectors ko)). split; [ | reflexivity ].
    cbn [DeepCopyDangerous Vectors].
    pose proof (deepCopyVectors_elems (Vectors ko) Hnd) as Hc.
    unfold deepCopyVectors in *. cbn [elems] in Hc. now rewrite Hc.
Qed.

End EncoderReads.

(** ** Fields too long, and a mask without the properties *)

Section Refusals.
Context {E : Externals}.

Lemma assignOffsets_long : forall vectors offsetsMap segLen order,
  (exists name vec, In (name, vec) vectors /\ maxVectorLength < len vec) ->
  exists e, assignOffsets vectors offsetsMap segLen order = Err e.
Proof.
  induction vectors as [|[name vec] rest IH]; intros offsetsMap segLen order
    (n & v & Hin & Hlong); [ destruct Hin | ].
  cbn [assignOffsets].
  destruct (Z.gtb_spec (len vec) maxVectorLength) as [Hgt|Hle]; [ eauto | ].
  destruct Hin as [Heq | Hin]; [ inversion Heq; subst; lia | ].
  match goal with
  | |- context [if ?c then _ else _] => destruct c; [ eauto | ]
  end.
  apply IH. eauto.
Qed.

(** X21: an object whose class name has more than 65535 bytes, or one of
    whose named vectors has more than 65535 elements, is not encoded:
    [MarshalBinary] returns an error and no buffer. When nothing before the
    check of the class name fails, the error names the class name, its
    length and the limit. *)
Theorem MarshalBinary_refuses_long_fields (ko : Object) :
  maxClassNameLength < len (list_byte_of_string (Class ko)) \/
  (exists name vec, In (name, vec) (elems (Vectors ko)) /\ maxVectorLength < len vec) ->
  fst (MarshalBinary ko) = None /\
  snd (MarshalBinary ko) <> None /\
  (maxClassNameLength < len (list_byte_of_string (Class ko)) ->
   MarshallerVersion ko = 1 ->
   (exists idBytes, uuid_Parse (ID ko) = Ok idBytes) ->
   len (elems (Vector ko)) <= maxVectorLength ->
   MarshalBinary ko
   = (None, Some (FieldTooLarge "className" (len (list_byte_of_string (Class ko)))
                    maxClassNameLength))).
Proof.
  intros Hlong.
  assert (Hclass : maxClassNameLength < len (list_byte_of_string (Class ko)) ->
                   MarshallerVersion ko = 1 ->
                   (exists idBytes, uuid_Parse (ID ko) = Ok idBytes) ->
                   len (elems (Vector ko)) <= maxVectorLength ->
                   MarshalBinary ko
                   = (None, Some (FieldTooLarge "className"
                                    (len (list_byte_of_string (Class ko)))
                                    maxClassNameLength))).
  { intros Hc Hv (idBytes & Hid) Hvec. unfold MarshalBinary.
    rewrite Hv, Hid. cbn [negb Z.eqb Pos.eqb].
    rewrite (gtb_false _ _ Hvec).
    now rewrite (proj2 (Z.gtb_lt _ _) Hc). }
  assert (Hnone : fst (MarshalBinary ko) = None /\ snd (MarshalBinary ko) <> None).
  { unfold MarshalBinary.
    destruct (negb (MarshallerVersion ko =? 1)); [ split; [ reflexivity | discriminate ] | ].
    destruct (uuid_Parse (ID ko)); [ | split; [ reflexivity | discriminate ] ].
    destruct (len (elems (Vector ko)) >? maxVectorLength);
      [ split; [ reflexivity | discriminate ] | ].
    destruct (Z.gtb_spec (len (list_byte_of_string (Class ko))) maxClassNameLength)
      as [Hgt|Hle]; [ split; [ reflexivity | discriminate ] | ].
    destruct Hlong as [Hc | Hvecs]; [ lia | ].
    destruct (json_Marshal (Properties ko)); [ | split; [ reflexivity | discriminate ] ].
    match goal with
    | |- context [if ?c then _ else _] =>
        destruct c; [ split; [ reflexivity | discriminate ] | ]
    end.
    destruct (json_Marshal (VMap (AdditionalProperties ko)));
      [ | split; [ reflexivity | discriminate ] ].
    match goal with
    | |- context [if ?c then _ else _] =>
        destruct c; [ split; [ reflexivity | discriminate ] | ]
    end.
    destruct (json_Marshal (VectorWeights ko));
      [ | split; [ reflexivity | discriminate ] ].
    match goal with
    | |- context [if ?c then _ else _] =>
        destruct c; [ split; [ reflexivity | discriminate ] | ]
    end.
    assert (Hoff : exists e, marshalOffsets (Vectors ko) = Err e).
    { unfold marshalOffsets.
      destruct (Vectors ko) as [[|x r]|]; cbn [elems] in Hvecs.
      - destruct Hvecs as (? & ? & [] & _).
      - destruct (assignOffsets_long (x :: r) [] 0 [] Hvecs) as (e & ->). eauto.
      - destruct Hvecs as (? & ? & [] & _). }
    destruct Hoff as (e & ->). split; [ reflexivity | discriminate ]. }
  destruct Hnone as [Hf Hs]. split; [ exact Hf | split; [ exact Hs | exact Hclass ] ].
Qed.

(** X22: asked to leave out the properties and to read additional
    properties that are there, with no projection of the properties and no
    named vectors, the optional decoder hands the JSON parser an empty slice
    for the properties; when the parser refuses an empty slice, as
    encoding/json does, the call fails with that error, wrapped. *)
Theorem FromBinaryOptional_without_properties (F : Frame)
  (addProp : additional.Properties) (e : error) :
  frameOk F = true ->
  additional.NoProps addProp = true ->
  additional.Vectors addProp = [] ->
  maskedMeta addProp F <> [] ->
  json_Unmarshal_map [] = Err e ->
  FromBinaryOptional (frameBytes F) addProp None = Err (Wrapped "parse" e).
Proof.
  intros Hok Hnp Hvs Hmeta Hjson.
  rewrite (FromBinaryOptional_frame F addProp None Hok).
  rewrite Hvs. change (len (@nil string) >? 0) with false. cbv zeta iota.
  unfold maskedProps. rewrite Hnp.
  replace (needsEnrichment [] (maskedMeta addProp F) (f_weights F) (len (f_weights F)))
    with true.
  2:{ symmetry. unfold needsEnrichment. apply orb_true_iff. left.
      apply orb_true_iff. right. apply Z.gtb_lt.
      destruct (maskedMeta addProp F); [ congruence | ].
      unfold len. cbn [length]. lia. }
  unfold parseObject. now rewrite Hjson.
Qed.

End Refusals.

(** ** The statements above, on the samples *)

Lemma SearchResult_additional_is_asked_for_witness :
  exists r,
    snd (SearchResult Cases.classified Cases.askClassification "") = Ok r /\
    map_get "classification" (search.AdditionalProperties r) = Some (VString "c") /\
    map_get "secret" (search.AdditionalProperties r) = None.
Proof.
  eexists. split; [ vm_compute; reflexivity | ].
  split; [ reflexivity | ].
  match goal with
  | |- map_get _ (search.AdditionalProperties ?r) = None =>
      destruct (map_get "secret" (search.AdditionalProperties r)) as [v|] eqn:Hs;
        [ exfalso | reflexivity ];
      destruct (SearchResult_additional_is_asked_for Cases.classified
                  Cases.askClassification "" r "secret" v eq_refl Hs)
        as [[Hk _] | (ap & _ & _ & [[Hk _] | [[Hk _] | [Hk _]]])];
      discriminate Hk
  end.
Defined.

Lemma SearchResults_projects_every_object_witness :
  exists h' out,
    SearchResults Cases.twoObjects Cases.pointers Samples.noMask "" = Ok (h', out) /\
    length out = length Cases.pointers.
Proof.
  destruct (SearchResults Cases.twoObjects Cases.pointers Samples.noMask "")
    as [[h' out]|e] eqn:H.
  - exists h', out. split; [ reflexivity | ].
    exact (proj1 (SearchResults_projects_every_object _ _ _ _ _ _ H)).
  - exfalso. vm_compute in H. discriminate H.
Defined.

Lemma scored_variants_of_SearchResults_witness :
  exists e,
    SearchResultsWithDists (fun dist => dist) Cases.twoObjects Cases.pointers
      Samples.noMask [Samples.one] = Err e.
Proof.
  apply (proj2 (proj2 (proj2 (scored_variants_of_SearchResults (fun dist => dist)
                                Cases.twoObjects Cases.pointers Samples.noMask ""
                                [Samples.one])))).
  cbn. lia.
Defined.

Lemma nil_object_panics_witness :
  exists e,
    SearchResults Cases.twoObjects [Some 0%nat; None] Samples.noMask "" = Err e.
Proof.
  refine (proj1 (nil_object_panics Cases.twoObjects [Some 0%nat; None]
                   Samples.noMask "" "node" "shard" _)).
  right. now left.
Defined.

Lemma AddOwnership_sets_node_and_shard_witness :
  exists h' ko',
    AddOwnership Cases.twoObjects Cases.pointers "node" "shard" = Ok h' /\
    nth_error h' 0 = Some ko' /\
    BelongsToNode ko' = "node"%string /\ BelongsToShard ko' = "shard"%string.
Proof.
  destruct (AddOwnership Cases.twoObjects Cases.pointers "node" "shard")
    as [h'|e] eqn:H.
  - destruct (proj1 (AddOwnership_sets_node_and_shard (E := Reference.externals)
                       _ _ _ _ _ H) 0%nat Samples.named)
      as (ko' & Hk & Hn & Hs).
    + now left.
    + reflexivity.
    + exists h', ko'. auto.
  - exfalso. vm_compute in H. discriminate H.
Defined.

Lemma DeepCopyDangerous_copies_the_content_witness :
  (exists m',
      Properties (DeepCopyDangerous Samples.named) = VMap (Some m') /\
      forall k, map_get k m' = map_get k [("name"%string, VString "a")]) /\
  Properties (DeepCopyDangerous (Samples.stored 42 [] None (VMap None)))
  = VMap (Some []).
Proof.
  split.
  - destruct (DeepCopyDangerous_copies_the_content Samples.named)
      as (_ & _ & _ & _ & _ & _ & _ & _ & Hprops & _).
    + apply distinct_NoDup. reflexivity.
    + intros m Hm. vm_compute in Hm. inversion Hm. apply distinct_NoDup. reflexivity.
    + exact Hprops.
  - destruct (DeepCopyDangerous_copies_the_content
                (Samples.stored 42 [] None (VMap None)))
      as (_ & _ & _ & _ & _ & _ & _ & _ & (m' & Hm & Hk) & _).
    + apply NoDup_nil.
    + intros m Hm. vm_compute in Hm. discriminate Hm.
    + rewrite Hm. destruct m' as [|[k v] r]; [ reflexivity | ].
      specialize (Hk k). cbn in Hk. rewrite String.eqb_refl in Hk. discriminate.
Defined.

Lemma MarshalBinary_refuses_long_fields_witness :
  fst (MarshalBinary (E := Reference.externals) Cases.longNamed) = None.
Proof.
  apply (MarshalBinary_refuses_long_fields (E := Reference.externals) Cases.longNamed).
  right. exists "a"%string, (repeat Samples.one (Z.to_nat 65536)).
  split; [ now left | ].
  unfold len. rewrite repeat_length. reflexivity.
Defined.

Lemma FromBinaryOptional_without_properties_witness :
  FromBinaryOptional (E := Reference.externals) (frameBytes Samples.legacy)
    Cases.noProps None
  = Err (Wrapped "parse" MalformedJSON).
Proof.
  apply (FromBinaryOptional_without_properties (E := Reference.externals)
           Samples.legacy Cases.noProps MalformedJSON).
  - vm_compute. reflexivity.
  - reflexivity.
  - reflexivity.
  - vm_compute. discriminate.
  - vm_compute. reflexivity.
Defined.

(** ** Failures of a fetch *)

Section FetchFailures.
Context {E : Externals}.
Variable b : bucket.
Variable addl : additional.Properties.
Variable properties : option (list string).

Lemma fetchLoop_fails id : forall ids out i lsmBuf,
  In id ids -> fails b addl properties id ->
  exists e, fetchLoop b ids addl (extractionOf properties) out i lsmBuf = Err e.
Proof.
  induction ids as [|id' rest IH]; intros out i lsmBuf Hin Hfail; [ destruct Hin | ].
  cbn [fetchLoop].
  destruct Hin as [-> | Hin].
  - specialize (Hfail lsmBuf).
    destruct (GetBySecondaryWithBuffer b 0 (le_split 8 id) lsmBuf)
      as [[[data|] newBuf] [err|]]; try eauto; try contradiction.
    destruct Hfail as (e & ->). cbn [wrap_error]. eauto.
  - destruct (GetBySecondaryWithBuffer b 0 (le_split 8 id') lsmBuf)
      as [[[data|] newBuf] [err|]]; try eauto.
    destruct (FromBinaryOptional data addl (extractionOf properties));
      cbn [wrap_error]; eauto.
Qed.

Lemma objectsByDocIDSequential_fails id ids :
  In id ids -> fails b addl properties id ->
  exists e, objectsByDocIDSequential (Some b) ids addl properties = Err e.
Proof.
  intros Hin Hfail. unfold objectsByDocIDSequential.
  change (match properties with
          | Some ps => Some {| PropStrings := ps;
                               PropStringsList := map (fun p => [p]) ps |}
          | None => None
          end) with (extractionOf properties).
  destruct (fetchLoop_fails id ids (repeat None (length ids)) 0%nat [] Hin Hfail)
    as (e & ->).
  eauto.
Qed.

Lemma chunkLoop_fails id ids chunkSize j :
  (1 <= chunkSize)%nat ->
  nth_error ids j = Some id -> fails b addl properties id ->
  forall turns chunk out,
    (chunk * chunkSize <= j)%nat ->
    (length ids <= (turns + chunk) * chunkSize)%nat ->
    exists e,
      chunkLoop turns chunk chunkSize (Some b) ids addl properties out = Err e.
Proof.
  intros Hcs Hj Hfail.
  assert (Hjn : (j < length ids)%nat) by (apply nth_error_Some; congruence).
  induction turns as [|turns IH]; intros chunk out Hlow Hcover.
  - cbn [Nat.add] in Hcover. lia.
  - cbn [chunkLoop].
    set (start := (chunk * chunkSize)%nat) in *.
    destruct (Nat.leb_spec (length ids) start) as [Hdone|Hmore]; [ lia | ].
    set (end_ := if (length ids <? start + chunkSize)%nat
                 then length ids else (start + chunkSize)%nat).
    destruct (Nat.lt_ge_cases j end_) as [Hin|Hafter].
    + destruct (objectsByDocIDSequential_fails id
                  (firstn (end_ - start) (skipn start ids))) as (e & ->);
        [ | exact Hfail | eauto ].
      apply (nth_error_In _ (j - start)).
      rewrite nth_error_firstn.
      replace (j - start <? end_ - start)%nat with true
        by (symmetry; apply Nat.ltb_lt; lia).
      rewrite nth_error_skipn. now replace (start + (j - start))%nat with j by lia.
    + destruct (objectsByDocIDSequential (Some b)
                  (firstn (end_ - start) (skipn start ids)) addl properties);
        [ | eauto ].
      apply IH.
      * subst end_. cbn [Nat.mul]. fold start.
        destruct (Nat.ltb_spec (length ids) (start + chunkSize)); lia.
      * lia.
Qed.

(** X23: [ObjectsByDocID] does not leave out an id whose fetch fails: when
    the bucket returns an error for one of the ids, or a value that the
    optional decoder refuses, the call returns an error and no objects,
    wherever the id stands in the list and whatever the number of
    processors. *)
Theorem ObjectsByDocID_fails_with_one_id (GOMAXPROCS : Z) (ids : list Z) (id : Z) :
  1 <= GOMAXPROCS ->
  In id ids -> fails b addl properties id ->
  exists e, ObjectsByDocID GOMAXPROCS (Some b) ids addl properties = Err e.
Proof.
  intros HG Hin Hfail. unfold ObjectsByDocID.
  destruct (len ids =? 1); [ now apply (objectsByDocIDSequential_fails id) | ].
  unfold objectsByDocIDParallel.
  set (parallel := 2 * GOMAXPROCS).
  set (chunkSize := Z.max ((len ids + parallel - 1) / parallel) 1).
  assert (Hp : 2 <= parallel) by (subst parallel; lia).
  assert (Hc : 1 <= chunkSize) by (subst chunkSize; lia).
  assert (Hcover : len ids <= parallel * chunkSize).
  { pose proof (Z.div_mod (len ids + parallel - 1) parallel ltac:(lia)) as Hd.
    pose proof (Z.mod_pos_bound (len ids + parallel - 1) parallel ltac:(lia)) as Hm.
    subst chunkSize. nia. }
  apply In_nth_error in Hin as (j & Hj).
  apply (chunkLoop_fails id ids (Z.to_nat chunkSize) j); try assumption; try lia.
  rewrite Nat.add_0_r. unfold len in Hcover.
  apply Nat2Z.inj_le. rewrite Nat2Z.inj_mul, !Z2Nat.id by lia. exact Hcover.
Qed.

End FetchFailures.

Lemma ObjectsByDocID_fails_with_one_id_witness :
  exists e,
    ObjectsByDocID (E := Reference.externals) 1 (Some Cases.failing) [1; 2; 3; 4]
      Samples.noMask None = Err e.
Proof.
  apply (ObjectsByDocID_fails_with_one_id (E := Reference.externals) Cases.failing
           Samples.noMask None 1 [1; 2; 3; 4] 3).
  - lia.
  - right. right. now left.
  - intros buf. exact I.
Defined.

(** ** Frames cut short *)

Lemma Cut_position whole n rw rest :
  Cut whole n rw rest -> Position rw = len whole - len rest.
Proof. intros (pre & -> & _ & ->). rewrite len_app. lia. Qed.

Lemma Cut_forward whole n rw bs rest k :
  Cut whole n rw (bs ++ rest) -> k = len bs ->
  Cut whole n (MoveBufferPositionForward rw k) rest.
Proof.
  intros (pre & Hw & Hb & Hp) ->. exists (pre ++ bs).
  cbn [Buffer Position MoveBufferPositionForward].
  rewrite <- app_assoc, len_app, Hp. auto.
Qed.

Lemma firstn_cut {A} (pre bs rest : list A) n :
  (length pre + length bs <= n)%nat ->
  firstn (length bs) (skipn (length pre) (firstn n (pre ++ bs ++ rest))) = bs.
Proof.
  intros H.
  rewrite firstn_app, (firstn_all2 pre) by lia.
  rewrite skipn_exact.
  rewrite firstn_app, (firstn_all2 bs) by lia.
  apply firstn_exact.
Qed.

Lemma Cut_read whole n rw bs rest k :
  Cut whole n rw (bs ++ rest) -> k = len bs ->
  (ReadBytesFromBuffer rw k = Ok (bs, MoveBufferPositionForward rw k) /\
   Cut whole n (MoveBufferPositionForward rw k) rest /\
   Position rw + k <= Z.of_nat n) \/
  ReadBytesFromBuffer rw k = Err Truncated.
Proof.
  intros C ->. pose proof C as (pre & Hw & Hb & Hp).
  unfold ReadBytesFromBuffer.
  destruct (in_bounds rw (len bs)) eqn:Hin; [ left | now right ].
  unfold in_bounds in Hin. rewrite !andb_true_iff, !Z.leb_le in Hin.
  destruct Hin as [_ Hin]. rewrite Hb, Hp in Hin. unfold len in Hin.
  rewrite length_firstn, Hw, !length_app in Hin.
  split; [ | split; [ now apply (Cut_forward _ _ _ bs) | rewrite Hp; unfold len; lia ] ].
  f_equal. f_equal. rewrite Hb, Hp, Hw. unfold len. rewrite !Nat2Z.id.
  apply firstn_cut. lia.
Qed.

Lemma Cut_read_le whole n rw w v rest :
  Cut whole n rw (le_split w v ++ rest) -> 0 <= v < 2 ^ (Z.of_nat w * 8) ->
  (read_le w rw = Ok (v, MoveBufferPositionForward rw (Z.of_nat w)) /\
   Cut whole n (MoveBufferPositionForward rw (Z.of_nat w)) rest /\
   Position rw + Z.of_nat w <= Z.of_nat n) \/
  read_le w rw = Err Truncated.
Proof.
  intros C Hv. unfold read_le.
  destruct (Cut_read _ _ _ _ _ (Z.of_nat w) C) as [(-> & C' & Hb) | ->];
    [ now rewrite len_le_split | left | now right ].
  rewrite le_combine_small by exact Hv. auto.
Qed.

Lemma Cut_readFloats whole n : forall v rw rest,
  forallb float32Ok v = true ->
  Cut whole n rw (floatsBytes v ++ rest) ->
  (readFloats (length v) rw
   = Ok (v, MoveBufferPositionForward rw (len (floatsBytes v))) /\
   Cut whole n (MoveBufferPositionForward rw (len (floatsBytes v))) rest) \/
  readFloats (length v) rw = Err Truncated.
Proof.
  induction v as [|f v IH]; intros rw rest Hok C.
  - left. cbn [length readFloats floatsBytes flat_map].
    change (len (@nil byte)) with 0.
    replace (MoveBufferPositionForward rw 0) with rw
      by (destruct rw; unfold MoveBufferPositionForward; cbn; f_equal; lia).
    auto.
  - cbn [forallb] in Hok. apply andb_true_iff in Hok as [Hf Hok].
    apply float32Ok_range in Hf.
    cbn [length readFloats].
    change (floatsBytes (f :: v)) with (le_split 4 (Float32bits f) ++ floatsBytes v) in *.
    rewrite <- app_assoc in C.
    destruct (Cut_read_le _ _ _ 4 _ _ C) as [(Hr & C' & _) | Hr].
    + unfold Float32bits, MaxUint32 in *. change (Z.of_nat 4 * 8) with 32. lia.
    + unfold ReadUint32. rewrite Hr.
      destruct (IH _ _ Hok C') as [(-> & C'') | ->]; [ left | now right ].
      rewrite len_app, len_le_split, <- forward_forward. auto.
    + right. unfold ReadUint32. now rewrite Hr.
Qed.

Lemma subslice_16 (b u : bytes) (lo : Z) :
  subslice b lo (lo + 16) = Ok u -> uuid_FromBytes u = Ok u.
Proof.
  unfold subslice.
  destruct ((0 <=? lo) && (lo <=? lo + 16) && (lo + 16 <=? len b)) eqn:Hin;
    [ | discriminate ].
  rewrite !andb_true_iff, !Z.leb_le in Hin. destruct Hin as [[Hlo _] Hhi].
  intros Hu. inversion Hu as [Hu']. unfold uuid_FromBytes.
  replace (length (firstn (Z.to_nat (lo + 16 - lo)) (skipn (Z.to_nat lo) b))) with 16%nat;
    [ reflexivity | ].
  rewrite length_firstn, length_skipn. unfold len in Hhi. lia.
Qed.

Section CutFrames.
Context {E : Externals}.

(** X24: on the bytes of a sound frame cut anywhere before the end of the
    vector weights, the full decoder yields no object, and what stops it is
    none of its own checks: it is a read or a slice expression that runs
    past the end of the slice. *)
Theorem FromBinary_runs_past_the_cut (F : Frame) (n : nat) :
  frameOk F = true ->
  Z.of_nat n < len (frameBytes F) - len (namedBytes (f_named F)) ->
  exists e,
    FromBinary (firstn n (frameBytes F)) = Err e /\ pastTheEnd e = true.
Proof.
  intros Hok Hn.
  apply frameOk_inv in Hok as (Hdoc & Hid & Hct & Hut & Hv & Hcl & Hpr & Hme & Hwe & Hna).
  pose proof (vectorOk_len _ Hv) as Hvl.
  assert (Hvf : forallb float32Ok (f_vector F) = true)
    by (unfold vectorOk in Hv; apply andb_true_iff in Hv; tauto).
  pose proof (len_nonneg (f_vector F)). pose proof (len_nonneg (f_class F)).
  pose proof (len_nonneg (f_props F)). pose proof (len_nonneg (f_meta F)).
  pose proof (len_nonneg (f_weights F)).
  unfold FromBinary, UnmarshalBinary.
  destruct n as [|n']; [ eexists; split; reflexivity | ].
  set (n := S n') in *.
  assert (Hfirst : (match firstn n (frameBytes F) with
                    | [] => Err IndexOutOfRange
                    | b :: _ => Ok (byte.unsigned b)
                    end) = @Ok Z 1) by reflexivity.
  rewrite Hfirst. cbv zeta. cbn [negb Z.eqb Pos.eqb].
  assert (C : Cut (frameBytes F) n
                (WithPosition 1 (NewReadWriter (firstn n (frameBytes F))))
                (le_split 8 (f_docID F) ++ le_split 1 1 ++ f_uuid F ++
                 le_split 8 (uint64 (f_create F)) ++ le_split 8 (uint64 (f_update F)) ++
                 le_split 2 (len (f_vector F)) ++ floatsBytes (f_vector F) ++
                 le_split 2 (len (f_class F)) ++ f_class F ++
                 le_split 4 (len (f_props F)) ++ f_props F ++
                 le_split 4 (len (f_meta F)) ++ f_meta F ++
                 le_split 4 (len (f_weights F)) ++ f_weights F ++
                 namedBytes (f_named F))).
  { exists (le_split 1 1). split; [ apply frameBytes_eq | split; reflexivity ]. }
  assert (HBuf : Buffer (WithPosition 1 (NewReadWriter (firstn n (frameBytes F))))
                 = firstn n (frameBytes F)) by reflexivity.
  remember (WithPosition 1 (NewReadWriter (firstn n (frameBytes F)))) as rw0 eqn:Hrw0.
  clear Hrw0 Hfirst.
  destruct (Cut_read_le _ _ _ 8 _ _ C Hdoc) as [(Hr & C2 & _) | Hr];
    unfold ReadUint64; rewrite Hr; [ | eexists; split; reflexivity ]. clear C Hr.
  apply (Cut_forward _ _ _ _ _ 1) in C2; [ | reflexivity ].
  match goal with
  | |- context [subslice ?d ?lo ?hi] =>
      destruct (subslice d lo hi) as [uuidBytes|] eqn:Hsub
  end.
  2:{ unfold subslice in Hsub.
      match type of Hsub with
      | (if ?c then _ else _) = _ => destruct c; [ discriminate | ]
      end.
      inversion Hsub. eexists; split; reflexivity. }
  rewrite (subslice_16 _ _ _ Hsub).
  apply (Cut_forward _ _ _ _ _ 16) in C2; [ | unfold len; now rewrite Hid ].
  destruct (Cut_read_le _ _ _ 8 _ _ C2 (uint64_range _)) as [(Hr & C4 & _) | Hr];
    rewrite Hr; [ | eexists; split; reflexivity ]. clear C2 Hr.
  destruct (Cut_read_le _ _ _ 8 _ _ C4 (uint64_range _)) as [(Hr & C5 & _) | Hr];
    rewrite Hr; [ | eexists; split; reflexivity ]. clear C4 Hr.
  destruct (Cut_read_le _ _ _ 2 _ _ C5 ltac:(unfold MaxUint16 in *; change (Z.of_nat 2 * 8) with 16; lia))
    as [(Hr & C6 & _) | Hr];
    unfold ReadUint16; rewrite Hr; [ | eexists; split; reflexivity ]. clear C5 Hr.
  rewrite to_nat_len.
  destruct (Cut_readFloats _ _ _ _ _ Hvf C6) as [(-> & C7) | ->];
    [ | eexists; split; reflexivity ]. clear C6.
  destruct (Cut_read_le _ _ _ 2 _ _ C7 ltac:(unfold MaxUint16 in *; change (Z.of_nat 2 * 8) with 16; lia))
    as [(Hr & C8 & _) | Hr];
    rewrite Hr; [ | eexists; split; reflexivity ]. clear C7 Hr.
  unfold CopyBytesFromBuffer.
  rewrite (uint64_small (len (f_class F))) by bound.
  destruct (Cut_read _ _ _ _ _ (len (f_class F)) C8 eq_refl) as [(-> & C9 & _) | ->];
    [ | eexists; split; reflexivity ]. clear C8.
  cbn [wrap_error].
  destruct (Cut_read_le _ _ _ 4 _ _ C9 ltac:(unfold MaxUint32 in *; change (Z.of_nat 4 * 8) with 32; lia))
    as [(Hr & C10 & _) | Hr];
    unfold ReadUint32; rewrite Hr; [ | eexists; split; reflexivity ]. clear C9 Hr.
  rewrite (uint64_small (len (f_props F))) by bound.
  destruct (Cut_read _ _ _ _ _ (len (f_props F)) C10 eq_refl) as [(-> & C11 & _) | ->];
    [ | eexists; split; reflexivity ]. clear C10.
  cbn [wrap_error].
  destruct (Cut_read_le _ _ _ 4 _ _ C11 ltac:(unfold MaxUint32 in *; change (Z.of_nat 4 * 8) with 32; lia))
    as [(Hr & C12 & _) | Hr];
    rewrite Hr; [ | eexists; split; reflexivity ]. clear C11 Hr.
  rewrite (uint64_small (len (f_meta F))) by bound.
  destruct (Cut_read _ _ _ _ _ (len (f_meta F)) C12 eq_refl) as [(-> & C13 & _) | ->];
    [ | eexists; split; reflexivity ]. clear C12.
  cbn [wrap_error].
  destruct (Cut_read_le _ _ _ 4 _ _ C13 ltac:(unfold MaxUint32 in *; change (Z.of_nat 4 * 8) with 32; lia))
    as [(Hr & C14 & _) | Hr];
    rewrite Hr; [ | eexists; split; reflexivity ]. clear C13 Hr.
  rewrite (uint64_small (len (f_weights F))) by bound.
  destruct (Cut_read _ _ _ _ _ (len (f_weights F)) C14 eq_refl) as [(_ & C15 & Hb) | ->];
    [ | eexists; split; reflexivity ].
  exfalso.
  apply Cut_position in C14. rewrite C14 in Hb.
  rewrite len_app in Hb. subst n. lia.
Qed.

End CutFrames.

Lemma FromBinary_runs_past_the_cut_witness :
  exists e,
    FromBinary (E := Reference.externals) (firstn 60 (frameBytes Samples.legacy))
    = Err e /\ pastTheEnd e = true.
Proof.
  apply (FromBinary_runs_past_the_cut (E := Reference.externals) Samples.legacy 60).
  - vm_compute. reflexivity.
  - vm_compute. reflexivity.
Defined.

(** ** What the optional decoder always returns, and the projection *)

Section MaskedDecoding.
Context {E : Externals}.

(** The fields that the optional decoder has set when it reaches the JSON
    regions. *)
Lemma FromBinaryOptional_frame_inv F addProp properties ko' :
  frameOk F = true ->
  FromBinaryOptional (frameBytes F) addProp properties = Ok ko' ->
  exists k0,
    MarshallerVersion k0 = 1 /\ DocID k0 = f_docID F /\
    VectorLen k0 = len (f_vector F) /\
    Vector k0 = (if additional.Vector addProp then Some (f_vector F) else None) /\
    BelongsToNode k0 = ""%string /\ BelongsToShard k0 = ""%string /\
    IsConsistent k0 = false /\
    (if needsEnrichment (maskedProps addProp F) (maskedMeta addProp F)
          (f_weights F) (len (f_weights F))
     then
       parseObject k0 (uuid_String (f_uuid F)) (f_create F) (f_update F)
         (string_of_list_byte (f_class F))
         (maskedProps addProp F) (maskedMeta addProp F) (f_weights F)
         properties (len (f_props F)) = Ok ko'
     else
       ko' = setObject k0
               (setIdentity (Object_ k0) (uuid_String (f_uuid F))
                  (f_create F) (f_update F) (string_of_list_byte (f_class F)))).
Proof.
  intros Hok H.
  rewrite (FromBinaryOptional_frame F addProp properties Hok) in H. cbv zeta in H.
  match type of H with
  | match ?c with Ok _ => _ | Err _ => _ end = _ =>
      destruct c as [[k0 rw]|] eqn:Hk; [ | discriminate H ]
  end.
  exists k0.
  assert (Hfields : MarshallerVersion k0 = 1 /\ DocID k0 = f_docID F /\
                    VectorLen k0 = len (f_vector F) /\
                    Vector k0 = (if additional.Vector addProp
                                 then Some (f_vector F) else None) /\
                    BelongsToNode k0 = ""%string /\ BelongsToShard k0 = ""%string /\
                    IsConsistent k0 = false).
  { destruct (len (additional.Vectors addProp) >? 0).
    - destruct (unmarshalTargetVectors (atNamed F)) as [[[vs|] rw']|];
        inversion Hk; subst; cbn; auto 10.
    - inversion Hk; subst; cbn; auto 10. }
  destruct Hfields as (H1 & H2 & H3 & H4 & H5 & H6 & H7).
  repeat (split; [ assumption | ]).
  destruct (needsEnrichment _ _ _ _).
  - destruct (parseObject k0 _ _ _ _ _ _ _ properties _); [ | discriminate H ].
    cbn [wrap_error] in H. congruence.
  - now inversion H.
Qed.

(** X25: whatever the mask and the projection, the object that the optional
    decoder returns for a sound frame carries the version, the doc id, the
    id, the class, the two times and the length of the primary vector of the
    frame, and the vector itself exactly when the mask asks for it; so the
    search result made of it has the doc id and the dimensions of the stored
    vector, also when the vector was skipped. *)
Theorem FromBinaryOptional_returns_the_header (F : Frame)
  (addProp : additional.Properties) (properties : option PropertyExtraction)
  (ko' : Object) :
  frameOk F = true ->
  FromBinaryOptional (frameBytes F) addProp properties = Ok ko' ->
  MarshallerVersion ko' = 1 /\ DocID ko' = f_docID F /\
  VectorLen ko' = len (f_vector F) /\
  Vector ko' = (if additional.Vector addProp then Some (f_vector F) else None) /\
  ID ko' = uuid_String (f_uuid F) /\
  Class ko' = string_of_list_byte (f_class F) /\
  CreationTimeUnix ko' = f_create F /\ LastUpdateTimeUnix ko' = f_update F /\
  (forall addl tenant r,
      snd (SearchResult ko' addl tenant) = Ok r ->
      search.Dims r = len (f_vector F) /\ search.DocID r = f_docID F /\
      search.ID r = uuid_String (f_uuid F)).
Proof.
  intros Hok H.
  destruct (FromBinaryOptional_frame_inv F addProp properties ko' Hok H)
    as (k0 & H1 & H2 & H3 & H4 & _ & _ & _ & Hrest).
  assert (Hfields : MarshallerVersion ko' = 1 /\ DocID ko' = f_docID F /\
                    VectorLen ko' = len (f_vector F) /\
                    Vector ko' = (if additional.Vector addProp
                                  then Some (f_vector F) else None) /\
                    ID ko' = uuid_String (f_uuid F) /\
                    Class ko' = string_of_list_byte (f_class F) /\
                    CreationTimeUnix ko' = f_create F /\
                    LastUpdateTimeUnix ko' = f_update F).
  { destruct (needsEnrichment _ _ _ _).
    - apply parseObject_identity in Hrest
        as (Hi & Hc & Hct & Hut & Hv & Hd & Hvec & Hvl & _).
      rewrite Hv, Hd, Hvec, Hvl. auto 10.
    - subst ko'. cbn. auto 10. }
  destruct Hfields as (F1 & F2 & F3 & F4 & F5 & F6 & F7 & F8).
  repeat (split; [ assumption | ]).
  intros addl tenant r Hr. rewrite SearchResult_split in Hr. cbn [snd] in Hr.
  unfold resultOf in Hr.
  destruct (ExplainScore (projected ko' addl)); [ | discriminate Hr ].
  inversion Hr; subst r. cbn [search.Dims search.DocID search.ID].
  unfold projected. cbn. auto.
Qed.

(** X26: with a projection, the optional decoder reads the properties of a
    sound frame by the walk of [UnmarshalProperties] over the requested
    names, started from an empty map, and fails when the walk returns an
    error; the properties of the object are what the enrichment makes of the
    map of the walk, which holds requested names only. *)
Theorem FromBinaryOptional_projects_the_properties (F : Frame)
  (addProp : additional.Properties) (p : PropertyExtraction) (ko' : Object) :
  frameOk F = true ->
  additional.NoProps addProp = false ->
  f_props F <> [] ->
  FromBinaryOptional (frameBytes F) addProp (Some p) = Ok ko' ->
  exists m m',
    UnmarshalProperties (f_props F) [] (PropStrings p) (PropStringsList p)
    = Ok (m, None) /\
    enrichSchemaTypes (Some m) false = Ok m' /\
    Properties ko' = VMap m' /\
    (forall k, In k (keys m) -> In k (PropStrings p)).
Proof.
  intros Hok Hnp Hprops H.
  destruct (FromBinaryOptional_frame_inv F addProp (Some p) ko' Hok H)
    as (k0 & _ & _ & _ & _ & _ & _ & _ & Hrest).
  unfold maskedProps in Hrest. rewrite Hnp in Hrest.
  assert (Hlen : 0 < len (f_props F)).
  { destruct (f_props F); [ congruence | ]. unfold len. cbn [length]. lia. }
  replace (needsEnrichment (f_props F) (maskedMeta addProp F) (f_weights F)
             (len (f_weights F))) with true in Hrest.
  2:{ symmetry. unfold needsEnrichment. apply orb_true_iff. left.
      apply orb_true_iff. left. now apply Z.gtb_lt. }
  unfold parseObject in Hrest.
  replace (len (f_props F) =? 0) with false in Hrest
    by (symmetry; apply Z.eqb_neq; lia).
  replace (len (f_props F) >=? len (f_props F)) with true in Hrest
    by (symmetry; apply Z.geb_le; lia).
  rewrite to_nat_len, firstn_all in Hrest.
  destruct (UnmarshalProperties (f_props F) [] (PropStrings p) (PropStringsList p))
    as [[m [e|]]|] eqn:Hwalk; try discriminate Hrest.
  destruct (enrichSchemaTypes (Some m) false) as [m'|] eqn:Henrich;
    [ | discriminate Hrest ].
  cbn [wrap_error] in Hrest.
  exists m, m'. split; [ assumption || reflexivity | split; [ exact Henrich | split ] ].
  - repeat match type of Hrest with
           | context [match ?x with Ok _ => _ | Err _ => _ end] =>
               lazymatch x with
               | context [match _ with _ => _ end] => fail
               | _ => destruct x; try discriminate
               end
           | context [if ?x then _ else _] => destruct x
           | context [match ?x with Some _ => _ | None => _ end] => destruct x
           end;
      inversion Hrest; reflexivity.
  - intros k Hk.
    destruct (proj2 (UnmarshalProperties_keys _ _ _ _ _ _ Hwalk) k Hk) as [[] | Hin].
    exact Hin.
Qed.

End MaskedDecoding.

(** X27: [SearchResult] panics exactly when the additional properties of
    the object hold under [explainScore] a value that is neither nil nor a
    string; otherwise it returns a result, whose explanation of the score is
    the string, or empty. *)
Theorem SearchResult_and_explainScore (ko : Object) (addl : additional.Properties)
  (tenant : string) :
  let stored :=
    match AdditionalProperties ko with
    | Some ap => map_get "explainScore" ap
    | None => None
    end in
  match stored with
  | None | Some VNil =>
      exists r, snd (SearchResult ko addl tenant) = Ok r /\
                search.ExplainScore r = ""%string
  | Some (VString s) =>
      exists r, snd (SearchResult ko addl tenant) = Ok r /\
                search.ExplainScore r = s
  | Some _ => snd (SearchResult ko addl tenant) = Err TypeAssertionFailed
  end.
Proof.
  intros stored. subst stored. rewrite SearchResult_split. cbn [snd].
  unfold resultOf, ExplainScore.
  replace (AdditionalProperties (projected ko addl)) with (AdditionalProperties ko)
    by reflexivity.
  destruct (AdditionalProperties ko) as [ap|]; [ | eexists; split; reflexivity ].
  destruct (map_get "explainScore" ap) as [[ | | | | | | | | | | ]|];
    try reflexivity; eexists; split; reflexivity.
Qed.

Lemma FromBinaryOptional_returns_the_header_witness :
  exists ko',
    FromBinaryOptional (E := Reference.externals) Cases.encoded Samples.noMask None
    = Ok ko' /\
    VectorLen ko' = 3 /\ Vector ko' = None /\ DocID ko' = 42.
Proof.
  destruct (FromBinaryOptional (E := Reference.externals) Cases.encoded
              Samples.noMask None) as [ko'|e] eqn:H.
  - exists ko'. split; [ reflexivity | ].
    destruct (FromBinaryOptional_returns_the_header (E := Reference.externals)
                (Samples.frameFor Samples.named) Samples.noMask None ko')
      as (_ & H2 & H3 & H4 & _).
    + vm_compute. reflexivity.
    + exact H.
    + rewrite H2, H3, H4. vm_compute. auto.
  - exfalso. vm_compute in H. discriminate H.
Defined.

Lemma FromBinaryOptional_projects_the_properties_witness :
  exists ko',
    FromBinaryOptional (E := Reference.externals) Cases.encoded Samples.noMask
      (Some Cases.onlyName) = Ok ko' /\
    Properties ko' = VMap (Some [("name"%string, VString "a")]).
Proof.
  destruct (FromBinaryOptional (E := Reference.externals) Cases.encoded
              Samples.noMask (Some Cases.onlyName)) as [ko'|e] eqn:H.
  - exists ko'. split; [ reflexivity | ].
    destruct (FromBinaryOptional_projects_the_properties (E := Reference.externals)
                (Samples.frameFor Samples.named) Samples.noMask Cases.onlyName ko')
      as (m & m' & Hwalk & Henrich & Hp & _).
    + vm_compute. reflexivity.
    + reflexivity.
    + vm_compute. discriminate.
    + exact H.
    + vm_compute in Hwalk. inversion Hwalk; subst m.
      vm_compute in Henrich. inversion Henrich; subst m'. exact Hp.
  - exfalso. vm_compute in H. discriminate H.
Defined.

Section CutFramesOptional.
Context {E : Externals}.

(** X28: on the bytes of a sound frame cut anywhere before the end of the
    vector weights, the optional decoder yields no object, whatever the mask
    and the projection, also when the cut falls into a region that the mask
    skips: a read of the cursor runs past the end of the slice, before any of
    the decoder's own checks fails. *)
Theorem FromBinaryOptional_runs_past_the_cut (F : Frame) (n : nat)
  (addProp : additional.Properties) (properties : option PropertyExtraction) :
  frameOk F = true ->
  Z.of_nat n < len (frameBytes F) - len (namedBytes (f_named F)) ->
  FromBinaryOptional (firstn n (frameBytes F)) addProp properties = Err Truncated.
Proof.
  intros Hok Hn.
  apply frameOk_inv in Hok as (Hdoc & Hid & Hct & Hut & Hv & Hcl & Hpr & Hme & Hwe & Hna).
  pose proof (vectorOk_len _ Hv) as Hvl.
  pose proof (len_nonneg (f_vector F)). pose proof (len_nonneg (f_class F)).
  pose proof (len_nonneg (f_props F)). pose proof (len_nonneg (f_meta F)).
  pose proof (len_nonneg (f_weights F)).
  assert (H16 : forall v, 0 <= v <= MaxUint16 -> 0 <= v < 2 ^ (Z.of_nat 2 * 8))
    by (intros v; unfold MaxUint16; change (Z.of_nat 2 * 8) with 16; lia).
  assert (H32 : forall v, 0 <= v <= MaxUint32 -> 0 <= v < 2 ^ (Z.of_nat 4 * 8))
    by (intros v; unfold MaxUint32; change (Z.of_nat 4 * 8) with 32; lia).
  unfold FromBinaryOptional, ReadUint8, ReadUint16, ReadUint32, ReadUint64.
  assert (C : Cut (frameBytes F) n (NewReadWriter (firstn n (frameBytes F)))
                (le_split 1 1 ++ le_split 8 (f_docID F) ++ le_split 1 1 ++ f_uuid F ++
                 le_split 8 (uint64 (f_create F)) ++ le_split 8 (uint64 (f_update F)) ++
                 le_split 2 (len (f_vector F)) ++ floatsBytes (f_vector F) ++
                 le_split 2 (len (f_class F)) ++ f_class F ++
                 le_split 4 (len (f_props F)) ++ f_props F ++
                 le_split 4 (len (f_meta F)) ++ f_meta F ++
                 le_split 4 (len (f_weights F)) ++ f_weights F ++
                 namedBytes (f_named F))).
  { exists []. split; [ apply frameBytes_eq | split; reflexivity ]. }
  remember (NewReadWriter (firstn n (frameBytes F))) as rw0 eqn:Hrw0. clear Hrw0.
  destruct (Cut_read_le _ _ _ 1 _ _ C ltac:(change (Z.of_nat 1 * 8) with 8; lia))
    as [(Hr & C1 & _) | Hr]; rewrite Hr; [ | reflexivity ]. clear C Hr.
  cbv zeta beta iota. cbn [MarshallerVersion setMarshallerVersion negb Z.eqb Pos.eqb].
  destruct (Cut_read_le _ _ _ 8 _ _ C1 Hdoc) as [(Hr & C2 & _) | Hr];
    rewrite Hr; [ | reflexivity ]. clear C1 Hr.
  apply (Cut_forward _ _ _ _ _ 1) in C2; [ | reflexivity ].
  destruct (Cut_read _ _ _ _ _ 16 C2 ltac:(unfold len; now rewrite Hid))
    as [(-> & C3 & _) | ->]; [ | reflexivity ]. clear C2.
  unfold uuid_FromBytes. rewrite Hid. cbn [Nat.eqb wrap_error].
  destruct (Cut_read_le _ _ _ 8 _ _ C3 (uint64_range _)) as [(Hr & C4 & _) | Hr];
    rewrite Hr; [ | reflexivity ]. clear C3 Hr.
  destruct (Cut_read_le _ _ _ 8 _ _ C4 (uint64_range _)) as [(Hr & C5 & _) | Hr];
    rewrite Hr; [ | reflexivity ]. clear C4 Hr.
  destruct (Cut_read_le _ _ _ 2 _ _ C5 (H16 (len (f_vector F)) ltac:(lia))) as [(Hr & C6 & _) | Hr];
    rewrite Hr; [ | reflexivity ]. clear C5 Hr.
  rewrite (uint64_small (len (f_vector F))) by bound.
  assert (Hk : len (f_vector F) * 4 = len (floatsBytes (f_vector F)))
    by (rewrite len_floatsBytes; lia).
  match type of C6 with
  | Cut _ _ ?rw _ =>
      match goal with
      | |- context [if additional.Vector addProp then ?a else ?b] =>
          assert (Hvec : (exists vec,
                             (if additional.Vector addProp then a else b)
                             = Ok (vec, MoveBufferPositionForward rw
                                          (len (f_vector F) * 4))) \/
                         (if additional.Vector addProp then a else b) = Err Truncated)
      end
  end.
  { destruct (additional.Vector addProp); [ | left; eexists; reflexivity ].
    destruct (Cut_read _ _ _ _ _ (len (f_vector F) * 4) C6 Hk) as [(-> & _) | ->];
      [ left; eexists; reflexivity | now right ]. }
  destruct Hvec as [(vec & ->) | ->]; [ | reflexivity ].
  apply (Cut_forward _ _ _ _ _ (len (f_vector F) * 4)) in C6; [ | exact Hk ].
  cbv zeta beta iota.
  destruct (Cut_read_le _ _ _ 2 _ _ C6 (H16 (len (f_class F)) ltac:(lia))) as [(Hr & C7 & _) | Hr];
    rewrite Hr; [ | reflexivity ]. clear C6 Hr.
  rewrite (uint64_small (len (f_class F))) by bound.
  destruct (Cut_read _ _ _ _ _ (len (f_class F)) C7 eq_refl) as [(-> & C8 & _) | ->];
    [ | reflexivity ]. clear C7.
  destruct (Cut_read_le _ _ _ 4 _ _ C8 (H32 (len (f_props F)) ltac:(lia))) as [(Hr & C9 & _) | Hr];
    rewrite Hr; [ | reflexivity ]. clear C8 Hr.
  rewrite (uint64_small (len (f_props F))) by bound.
  match type of C9 with
  | Cut _ _ ?rw _ =>
      assert (Hp : (exists props,
                       (if additional.NoProps addProp
                        then Ok ([], MoveBufferPositionForward rw (len (f_props F)))
                        else ReadBytesFromBuffer rw (len (f_props F)))
                       = Ok (props, MoveBufferPositionForward rw (len (f_props F)))) \/
                   (if additional.NoProps addProp
                    then Ok ([], MoveBufferPositionForward rw (len (f_props F)))
                    else ReadBytesFromBuffer rw (len (f_props F))) = Err Truncated)
  end.
  { destruct (additional.NoProps addProp); [ left; eexists; reflexivity | ].
    destruct (Cut_read _ _ _ _ _ (len (f_props F)) C9 eq_refl) as [(-> & _) | ->];
      [ left; eexists; reflexivity | now right ]. }
  destruct Hp as [(props & ->) | ->]; [ | reflexivity ].
  apply (Cut_forward _ _ _ _ _ (len (f_props F))) in C9; [ | reflexivity ].
  destruct (Cut_read_le _ _ _ 4 _ _ C9 (H32 (len (f_meta F)) ltac:(lia))) as [(Hr & C10 & _) | Hr];
    rewrite Hr; [ | reflexivity ]. clear C9 Hr.
  rewrite (uint64_small (len (f_meta F))) by bound.
  match type of C10 with
  | Cut _ _ ?rw _ =>
      assert (Hm : (exists meta,
                       (if additional.Classification addProp
                           || (len (additional.ModuleParams addProp) >? 0)
                        then ReadBytesFromBuffer rw (len (f_meta F))
                        else Ok ([], MoveBufferPositionForward rw (len (f_meta F))))
                       = Ok (meta, MoveBufferPositionForward rw (len (f_meta F)))) \/
                   (if additional.Classification addProp
                       || (len (additional.ModuleParams addProp) >? 0)
                    then ReadBytesFromBuffer rw (len (f_meta F))
                    else Ok ([], MoveBufferPositionForward rw (len (f_meta F))))
                   = Err Truncated)
  end.
  { destruct (additional.Classification addProp
              || (len (additional.ModuleParams addProp) >? 0));
      [ | left; eexists; reflexivity ].
    destruct (Cut_read _ _ _ _ _ (len (f_meta F)) C10 eq_refl) as [(-> & _) | ->];
      [ left; eexists; reflexivity | now right ]. }
  destruct Hm as [(meta & ->) | ->]; [ | reflexivity ].
  apply (Cut_forward _ _ _ _ _ (len (f_meta F))) in C10; [ | reflexivity ].
  destruct (Cut_read_le _ _ _ 4 _ _ C10 (H32 (len (f_weights F)) ltac:(lia))) as [(Hr & C11 & _) | Hr];
    rewrite Hr; [ | reflexivity ]. clear C10 Hr.
  rewrite (uint64_small (len (f_weights F))) by bound.
  destruct (Cut_read _ _ _ _ _ (len (f_weights F)) C11 eq_refl) as [(_ & _ & Hb) | ->];
    [ | reflexivity ].
  exfalso.
  apply Cut_position in C11. rewrite C11 in Hb.
  rewrite len_app in Hb. lia.
Qed.

End CutFramesOptional.

Lemma FromBinaryOptional_runs_past_the_cut_witness :
  FromBinaryOptional (E := Reference.externals) (firstn 50 (frameBytes Samples.legacy))
    Cases.noProps None = Err Truncated.
Proof.
  apply (FromBinaryOptional_runs_past_the_cut (E := Reference.externals)
           Samples.legacy 50 Cases.noProps None).
  - vm_compute. reflexivity.
  - vm_compute. reflexivity.
Defined.

(** ** The header of an encoding, and projecting twice *)

Lemma subslice_at (pre bs rest whole : bytes) (lo hi : Z) :
  whole = pre ++ bs ++ rest -> lo = len pre -> hi = lo + len bs ->
  subslice whole lo hi = Ok bs.
Proof.
  intros -> -> ->.
  apply (Rest_subslice {| Position := len pre; Buffer := pre ++ bs ++ rest |}
           bs rest (pre ++ bs ++ rest) (len bs)); [ | reflexivity | reflexivity ].
  exists pre. split; reflexivity.
Qed.

Section Header.
Context {E : Externals}.

(** X29: the encoding of an accepted object has the layout of the table:
    the version 1 in its first byte, the doc id in the bytes 1 to 8, the
    kind 1 in the byte 9, the 16 bytes of the id from the byte 10 on, the two
    times from the bytes 26 and 34 on, and the length of the primary vector
    in the bytes 42 and 43; its length is 66 plus four bytes for every
    element of the vector plus the lengths of the class name, of the three
    JSON regions, of the packed offsets and of the segment. *)
Theorem MarshalBinary_header_layout (ko : Object) (F : Frame) :
  frameOf ko = Ok F -> encodes ko F = true ->
  exists data offsets segment,
    MarshalBinary ko = (Some data, None) /\
    f_named F = Some (offsets, segment) /\
    subslice data 0 1 = Ok [Byte.x01] /\
    subslice data 1 9 = Ok (le_split 8 (DocID ko)) /\
    subslice data 9 10 = Ok [Byte.x01] /\
    subslice data 10 26 = Ok (f_uuid F) /\
    subslice data 26 34 = Ok (le_split 8 (CreationTimeUnix ko)) /\
    subslice data 34 42 = Ok (le_split 8 (LastUpdateTimeUnix ko)) /\
    subslice data 42 44 = Ok (le_split 2 (len (elems (Vector ko)))) /\
    len data
    = 66 + 4 * len (elems (Vector ko)) + len (f_class F) + len (f_props F)
      + len (f_meta F) + len (f_weights F) + len offsets + len segment.
Proof.
  intros HF Henc.
  pose proof (encodes_frameOk ko F HF Henc) as Hok.
  apply frameOk_inv in Hok as (Hdoc & Hid & _).
  pose proof (MarshalBinary_frame ko F HF Henc) as Hm.
  apply frameOf_inv in HF
    as (idBytes & schema & meta & weights & offs & seg & _ & _ & _ & _ & _ & HFeq).
  exists (frameBytes F), offs, seg. split; [ exact Hm | ].
  split; [ subst F; reflexivity | ].
  assert (Hd : f_docID F = DocID ko) by (subst F; reflexivity).
  assert (Hc : f_create F = CreationTimeUnix ko) by (subst F; reflexivity).
  assert (Hu : f_update F = LastUpdateTimeUnix ko) by (subst F; reflexivity).
  assert (Hv : f_vector F = elems (Vector ko)) by (subst F; reflexivity).
  rewrite <- Hd, <- Hc, <- Hu, <- Hv.
  assert (H16 : len (f_uuid F) = 16) by (unfold len; now rewrite Hid).
  repeat split.
  - apply (subslice_at [] [Byte.x01]
             (le_split 8 (f_docID F) ++ le_split 1 1 ++ f_uuid F ++
              le_split 8 (f_create F) ++ le_split 8 (f_update F) ++
              le_split 2 (len (f_vector F)) ++ floatsBytes (f_vector F) ++ tailBytes F));
      reflexivity.
  - apply (subslice_at (le_split 1 1) (le_split 8 (f_docID F))
             (le_split 1 1 ++ f_uuid F ++
              le_split 8 (f_create F) ++ le_split 8 (f_update F) ++
              le_split 2 (len (f_vector F)) ++ floatsBytes (f_vector F) ++ tailBytes F));
      reflexivity.
  - apply (subslice_at (le_split 1 1 ++ le_split 8 (f_docID F)) [Byte.x01]
             (f_uuid F ++
              le_split 8 (f_create F) ++ le_split 8 (f_update F) ++
              le_split 2 (len (f_vector F)) ++ floatsBytes (f_vector F) ++ tailBytes F));
      [ unfold frameBytes; now rewrite <- !app_assoc | reflexivity | reflexivity ].
  - apply (subslice_at (le_split 1 1 ++ le_split 8 (f_docID F) ++ le_split 1 1)
             (f_uuid F)
             (le_split 8 (f_create F) ++ le_split 8 (f_update F) ++
              le_split 2 (len (f_vector F)) ++ floatsBytes (f_vector F) ++ tailBytes F));
      [ unfold frameBytes; now rewrite <- !app_assoc | reflexivity
      | rewrite H16; reflexivity ].
  - apply (subslice_at (le_split 1 1 ++ le_split 8 (f_docID F) ++ le_split 1 1 ++
                        f_uuid F)
             (le_split 8 (f_create F))
             (le_split 8 (f_update F) ++
              le_split 2 (len (f_vector F)) ++ floatsBytes (f_vector F) ++ tailBytes F));
      [ unfold frameBytes; now rewrite <- !app_assoc
      | rewrite !len_app, !len_le_split, H16; reflexivity
      | rewrite len_le_split; reflexivity ].
  - apply (subslice_at (le_split 1 1 ++ le_split 8 (f_docID F) ++ le_split 1 1 ++
                        f_uuid F ++ le_split 8 (f_create F))
             (le_split 8 (f_update F))
             (le_split 2 (len (f_vector F)) ++ floatsBytes (f_vector F) ++ tailBytes F));
      [ unfold frameBytes; now rewrite <- !app_assoc
      | rewrite !len_app, !len_le_split, H16; reflexivity
      | rewrite len_le_split; reflexivity ].
  - apply (subslice_at (le_split 1 1 ++ le_split 8 (f_docID F) ++ le_split 1 1 ++
                        f_uuid F ++ le_split 8 (f_create F) ++ le_split 8 (f_update F))
             (le_split 2 (len (f_vector F)))
             (floatsBytes (f_vector F) ++ tailBytes F));
      [ unfold frameBytes; now rewrite <- !app_assoc
      | rewrite !len_app, !len_le_split, H16; reflexivity
      | rewrite len_le_split; reflexivity ].
  - rewrite len_frameBytes, H16.
    replace (f_named F) with (Some (offs, seg)) by (subst F; reflexivity).
    unfold namedBytes. rewrite !len_app, !len_le_split. change (Z.of_nat 4) with 4. lia.
Qed.

End Header.

(** X30: [SearchResult] applied a second time to the object that a first
    call has left changes nothing more of the object, and returns what it
    would for the object as it was, whatever tenant the first call was
    for. *)
Theorem SearchResult_twice (ko : Object) (addl : additional.Properties)
  (tenant tenant' : string) :
  SearchResult (fst (SearchResult ko addl tenant')) addl tenant
  = (fst (SearchResult ko addl tenant'), snd (SearchResult ko addl tenant)).
Proof.
  rewrite !SearchResult_split. cbn [fst snd].
  now rewrite projected_again.
Qed.

Lemma MarshalBinary_header_layout_witness :
  exists data,
    MarshalBinary (E := Reference.externals) Samples.named = (Some data, None) /\
    subslice data 1 9 = Ok (le_split 8 42) /\
    subslice data 42 44 = Ok (le_split 2 3).
Proof.
  destruct (MarshalBinary_header_layout (E := Reference.externals) Samples.named
              (Samples.frameFor Samples.named))
    as (data & offsets & segment & Hm & _ & _ & Hdoc & _ & _ & _ & _ & Hlen & _).
  - vm_compute. reflexivity.
  - vm_compute. reflexivity.
  - exists data. split; [ exact Hm | split; [ exact Hdoc | exact Hlen ] ].
Defined.
